(** * Tile acquisition and texture pipeline of OpenLayers (ol3)

    A shallow embedding of three source files and the properties their
    specification states about them:

    - [src/ol/source/GeoTIFF.js]    the raster compositor (module [GeoTIFF]);
    - [src/ol/webgl/TileTexture.js] the per-tile texture binding (module
      [TileTexture]);
    - [src/ol/source/OGCMapTile.js] the tile matrix set resolver (module
      [OGCMapTile]).

    Conventions of the embedding.

    - A JavaScript number is a value of [JsNum.num]: an exact rational or one
      of the IEEE special values [Infinity], [-Infinity], [NaN].  Division by
      zero, [NaN] propagation and the comparison rules of JavaScript are
      modelled; the rounding of binary64 arithmetic is not (finite results
      are exact), and zero carries no sign (it behaves as [+0]).
    - [undefined] is [None] of an option type.
    - An array is a list; a typed array written by index is a list updated
      with stdpp's [<[i:=x]>], which, like a typed array, ignores a write
      outside its bounds.
    - Code that mutates [this] and can throw runs in the monad [Eff.M]: the
      state reached when the exception is raised is kept, as in JavaScript.
    - Collaborators outside the three files (the network, the GeoTIFF
      decoder, the projection registry, the WebGL context) appear as inputs
      or as a log of the calls made to them. *)

From Stdlib Require Import ZArith QArith Qround Lia Lqa Ascii String.
From stdpp Require Import base option list gmap strings pretty.
Close Scope Q_scope.

(** ** State and exceptions *)

Module Eff.

(** A computation over a mutable state [St] that returns an [A] or throws an
    [E].  The state is returned in both cases. *)
Definition M (St E A : Type) : Type := St -> St * (E + A).

Definition ret {St E A} (a : A) : M St E A := fun s => (s, inr a).

Definition bind {St E A B} (c : M St E A) (k : A -> M St E B) : M St E B :=
  fun s =>
    match c s with
    | (s', inl e) => (s', inl e)
    | (s', inr a) => k a s'
    end.

Definition throw {St E A} (e : E) : M St E A := fun s => (s, inl e).

Definition get {St E} : M St E St := fun s => (s, inr s).

Definition modify {St E} (f : St -> St) : M St E unit := fun s => (f s, inr tt).

(** [try { c } catch (e) { h e }] *)
Definition try_catch {St E A} (c : M St E A) (h : E -> M St E A) : M St E A :=
  fun s =>
    match c s with
    | (s', inl e) => h e s'
    | (s', inr a) => (s', inr a)
    end.

(** [for (let i = 0; i < l.length; ++i) acc = body(i, l[i], acc)], the
    loop over an array [l] whose body updates local variables [acc]. *)
Fixpoint fold_from {St E A B} (i : nat) (l : list B)
    (body : nat -> B -> A -> M St E A) (acc : A) : M St E A :=
  match l with
  | [] => ret acc
  | b :: l' => bind (body i b acc) (fold_from (S i) l' body)
  end.

Definition fold_array {St E A B} (l : list B)
    (body : nat -> B -> A -> M St E A) (acc : A) : M St E A :=
  fold_from 0 l body acc.

(** [for (let i = 0; i < n; ++i) x = body(i, x)], the loop over the indices
    below [n] in code that neither throws nor touches [this]; [x] stands
    for the variables the body assigns. *)
Definition for_each {A} (n : nat) (body : nat -> A -> A) (init : A) : A :=
  fold_left (fun acc i => body i acc) (seq 0 n) init.

End Eff.

Notation "'let*' x ':=' c 'in' k" := (Eff.bind c (fun x => k))
  (at level 10, x name, c at level 100, k at level 200, only parsing).
Notation "c ;;; k" := (Eff.bind c (fun _ => k))
  (at level 100, k at level 200, right associativity, only parsing).

(** ** JavaScript numbers *)

Module JsNum.

Inductive num : Type :=
| Fin (q : Q)
| PosInf
| NegInf
| NaN.

Definition of_Z (z : Z) : num := Fin (inject_Z z).
Definition of_nat (n : nat) : num := of_Z (Z.of_nat n).

(** The infinity with the sign of a comparison against zero; [0 * Infinity]
    and [0 / 0] are [NaN]. *)
Definition inf_of_sign (c : comparison) : num :=
  match c with
  | Gt => PosInf
  | Lt => NegInf
  | Eq => NaN
  end.

Definition neg (a : num) : num :=
  match a with
  | Fin q => Fin (- q)%Q
  | PosInf => NegInf
  | NegInf => PosInf
  | NaN => NaN
  end.

Definition add (a b : num) : num :=
  match a, b with
  | NaN, _ | _, NaN => NaN
  | Fin x, Fin y => Fin (x + y)%Q
  | PosInf, NegInf | NegInf, PosInf => NaN
  | PosInf, _ | _, PosInf => PosInf
  | NegInf, _ | _, NegInf => NegInf
  end.

Definition sub (a b : num) : num := add a (neg b).

Definition mul (a b : num) : num :=
  match a, b with
  | NaN, _ | _, NaN => NaN
  | Fin x, Fin y => Fin (x * y)%Q
  | Fin x, PosInf | PosInf, Fin x => inf_of_sign (x ?= 0)%Q
  | Fin x, NegInf | NegInf, Fin x => inf_of_sign (0 ?= x)%Q
  | PosInf, PosInf | NegInf, NegInf => PosInf
  | PosInf, NegInf | NegInf, PosInf => NegInf
  end.

Definition div (a b : num) : num :=
  match a, b with
  | NaN, _ | _, NaN => NaN
  | Fin x, Fin y =>
      if Qeq_bool y 0 then inf_of_sign (x ?= 0)%Q else Fin (x / y)%Q
  | Fin _, (PosInf | NegInf) => Fin 0
  | (PosInf | NegInf), (PosInf | NegInf) => NaN
  | PosInf, Fin y => if Qle_bool 0 y then PosInf else NegInf
  | NegInf, Fin y => if Qle_bool 0 y then NegInf else PosInf
  end.

(** [a === b] on two numbers: [NaN] equals nothing. *)
Definition eqb (a b : num) : bool :=
  match a, b with
  | Fin x, Fin y => Qeq_bool x y
  | PosInf, PosInf | NegInf, NegInf => true
  | _, _ => false
  end.

(** [a < b] on two numbers: false when either is [NaN]. *)
Definition ltb (a b : num) : bool :=
  match a, b with
  | NaN, _ | _, NaN => false
  | Fin x, Fin y => negb (Qle_bool y x)
  | NegInf, NegInf | PosInf, _ | _, NegInf => false
  | NegInf, _ | _, PosInf => true
  end.

(** [ToNumber] of a value that is a number or [undefined]. *)
Definition ToNumber (v : option num) : num :=
  match v with
  | Some n => n
  | None => NaN
  end.

(** [a !== b] on two values that are numbers or [undefined]. *)
Definition strict_neq (a b : option num) : bool :=
  match a, b with
  | None, None => false
  | Some x, Some y => negb (eqb x y)
  | _, _ => true
  end.

(** [ToUint8Clamp] of ECMAScript, the conversion applied by a store into a
    [Uint8ClampedArray]: [NaN] gives 0, the value is clamped to 0..255 and
    rounded to the nearest integer, a tie going to the even one. *)
Definition ToUint8Clamp (a : num) : Z :=
  match a with
  | NaN => 0
  | NegInf => 0
  | PosInf => 255
  | Fin q =>
      if Qle_bool q 0 then 0
      else if Qle_bool 255 q then 255
      else
        let f := Qfloor q in
        match (inject_Z f + (1 # 2) ?= q)%Q with
        | Lt => f + 1
        | Gt => f
        | Eq => if Z.even f then f else f + 1
        end
  end%Z.

End JsNum.

(** ** The raster compositor: [src/ol/source/GeoTIFF.js] *)

Module GeoTIFF.
Import JsNum.

(** *** Data *)

(** [SourceInfo]: one raster input as the caller configures it. *)
Record SourceInfo : Type := {
  url : string;
  overviews : option (list string);
  min : option num;
  max : option num;
  nodata : option num;
}.

(** The array classes that [getMinforDataType] and [getMaxforDataType]
    distinguish with [instanceof], and one for every other array. *)
Inductive ArrayKind : Type :=
| Int8Array
| Uint8Array
| Uint8ClampedArray
| Int16Array
| Uint16Array
| Int32Array
| Uint32Array
| Float32Array
| OtherArray.

(** One band of samples as [readRasters] returns it. *)
Record TypedArray : Type := {
  kind : ArrayKind;
  elems : list num;
}.

(** A value compared by [assertEqual]: a number, an array of such values,
    or [undefined] (also an empty slot of [new Array(n)]). *)
#[warnings="-register-all"] Inductive jv : Type :=
| Num (n : num)
| Arr (l : list jv)
| Undefined.

Definition jv_of_array (o : option (list num)) : jv :=
  match o with
  | Some l => Arr (Num <$> l)
  | None => Undefined
  end.

Definition jv_of_nat (o : option nat) : jv :=
  match o with
  | Some n => Num (of_nat n)
  | None => Undefined
  end.

Record GeoKeys : Type := {
  ProjectedCSTypeGeoKey : option nat;
  GeographicTypeGeoKey : option nat;
}.

(** What [configure_] reads of a [GeoTIFFImage] of the decoder.
    [getResolutionX] is [image.getResolution(images[0])[0]]. *)
Record GeoTIFFImage : Type := {
  getSamplesPerPixel : nat;
  getBoundingBox : list num;
  getOrigin : list num;
  getResolutionX : num;
  getTileWidth : num;
  getTileHeight : num;
  geoKeys : option GeoKeys;
}.

(** The options [configure_] passes to [new TileGrid]. *)
Record TileGrid : Type := {
  extent : option (list num);
  origin : option (list num);
  resolutions : list jv;
  tileSizes : list jv;
}.

Inductive State : Type := UNDEFINED | LOADING | READY | ERROR.

(** The errors of the compositor.  A constructor stands for the message
    of the [Error] thrown and carries the values the message interpolates. *)
Inductive Error : Type :=
| AcceptsOneToThreeSources
| BandCountMismatch (sourceIndex got expected : nat)
| ExtentMismatch (sourceIndex : nat) (got expected : option (list num))
| OriginMismatch (sourceIndex : nat) (got expected : option (list num))
| TileSizeMismatch (sourceIndex : nat)
| ResolutionMismatch (sourceIndex : nat) (got expected : list jv)
| ExpectedGrayscaleRGBorRGBA (samplesPerPixel : option nat)
| ExpectedSingleBand
| TypeError
| Rejected (reason : string).

Section WithRegistry.

(** The projection registry, [get] of [ol/proj.js]. *)
Context {Projection : Type} (getProjection : string -> option Projection).

(** The fields of a [GeoTIFFSource].  [sourceImagery_] is created by
    [new Array(numSources)]: a slot is [None] until [configure_] fills
    it.  [loader] records that [setLoader] was called. *)
Record GeoTIFFSource : Type := {
  state : State;
  tileGrid : option TileGrid;
  projection : option Projection;
  sourceInfo_ : list SourceInfo;
  sourceImagery_ : list (option (list GeoTIFFImage));
  samplesPerPixel_ : option nat;
  error_ : option Error;
  loader : bool;
}.

Definition setState (s : State) (this : GeoTIFFSource) : GeoTIFFSource :=
  {| state := s; tileGrid := tileGrid this; projection := projection this;
     sourceInfo_ := sourceInfo_ this; sourceImagery_ := sourceImagery_ this;
     samplesPerPixel_ := samplesPerPixel_ this; error_ := error_ this;
     loader := loader this |}.

Definition set_error (e : Error) (this : GeoTIFFSource) : GeoTIFFSource :=
  {| state := state this; tileGrid := tileGrid this;
     projection := projection this; sourceInfo_ := sourceInfo_ this;
     sourceImagery_ := sourceImagery_ this;
     samplesPerPixel_ := samplesPerPixel_ this; error_ := Some e;
     loader := loader this |}.

Definition set_sourceImagery (i : nat) (images : list GeoTIFFImage)
    (this : GeoTIFFSource) : GeoTIFFSource :=
  {| state := state this; tileGrid := tileGrid this;
     projection := projection this; sourceInfo_ := sourceInfo_ this;
     sourceImagery_ := <[i := Some images]> (sourceImagery_ this);
     samplesPerPixel_ := samplesPerPixel_ this; error_ := error_ this;
     loader := loader this |}.

Definition set_projection (p : option Projection) (this : GeoTIFFSource)
    : GeoTIFFSource :=
  {| state := state this; tileGrid := tileGrid this; projection := p;
     sourceInfo_ := sourceInfo_ this; sourceImagery_ := sourceImagery_ this;
     samplesPerPixel_ := samplesPerPixel_ this; error_ := error_ this;
     loader := loader this |}.

(** The three assignments that end [configure_], before [setState]. *)
Definition set_configured (spp : option nat) (g : TileGrid)
    (this : GeoTIFFSource) : GeoTIFFSource :=
  {| state := state this; tileGrid := Some g; projection := projection this;
     sourceInfo_ := sourceInfo_ this; sourceImagery_ := sourceImagery_ this;
     samplesPerPixel_ := spp; error_ := error_ this; loader := true |}.

Definition Cmd (A : Type) : Type := Eff.M GeoTIFFSource Error A.

(** *** [assertEqual] *)

(** Whether [assertEqual(expected, got, message)] returns instead of
    throwing.  On an array it compares the lengths, then the elements in
    order; on anything else it is [expected === got]. *)
Fixpoint assertEqual_passes (expected got : jv) : bool :=
  match expected with
  | Arr es =>
      match got with
      | Arr gs =>
          Nat.eqb (length es) (length gs) &&
          (fix elements (es gs : list jv) : bool :=
             match es, gs with
             | e :: es', g :: gs' => assertEqual_passes e g && elements es' gs'
             | e :: es', [] => assertEqual_passes e Undefined && elements es' []
             | [], _ => true
             end) es gs
      | _ => false
      end
  | Num a =>
      match got with
      | Num b => eqb a b
      | _ => false
      end
  | Undefined =>
      match got with
      | Undefined => true
      | _ => false
      end
  end.

Definition assertEqual (expected got : jv) (message : Error) : Cmd unit :=
  if assertEqual_passes expected got then Eff.ret tt else Eff.throw message.

(** *** [getMinforDataType], [getMaxforDataType] *)

(** The argument is [sourceSamples[sourceIndex][0]], [undefined] when the
    source has no band. *)
Definition getMinforDataType (array : option TypedArray) : num :=
  match kind <$> array with
  | Some Int8Array => of_Z (-128)
  | Some Int16Array => of_Z (-32768)
  | Some Int32Array => of_Z (-2147483648)
  | Some Float32Array => Fin (12 # 10 ^ 39)
  | _ => of_Z 0
  end.

Definition getMaxforDataType (array : option TypedArray) : num :=
  match kind <$> array with
  | Some Int8Array => of_Z 127
  | Some Uint8Array => of_Z 255
  | Some Uint8ClampedArray => of_Z 255
  | Some Int16Array => of_Z 32767
  | Some Uint16Array => of_Z 65535
  | Some Int32Array => of_Z 2147483647
  | Some Uint32Array => of_Z 4294967295
  | Some Float32Array => Fin (inject_Z (34 * 10 ^ 37))
  | _ => of_Z 255
  end.

(** *** The constructor *)

(** The fields as the constructor initialises them. *)
Definition initial (sources : list SourceInfo) : GeoTIFFSource :=
  {| state := LOADING; tileGrid := None; projection := None;
     sourceInfo_ := sources;
     sourceImagery_ := replicate (length sources) None;
     samplesPerPixel_ := None; error_ := None; loader := false |}.

(** The synchronous part of the constructor: the check of the number of
    sources, then the fields. *)
Definition constructor (sources : list SourceInfo) : Error + GeoTIFFSource :=
  let numSources := length sources in
  if negb ((0 <? numSources) && (numSources <? 4)) then
    inl AcceptsOneToThreeSources
  else inr (initial sources).

(** *** [configure_] *)

(** [!x] is false for a number other than 0 and for an array. *)
Definition truthy (o : option nat) : bool :=
  match o with
  | Some (S _) => true
  | _ => false
  end.

(** The variables declared at the top of [configure_]. *)
Record Locals : Type := {
  l_extent : option (list num);
  l_origin : option (list num);
  l_tileSizes : option (list jv);
  l_resolutions : option (list jv);
  l_samplesPerPixel : option nat;
}.

(** The variables declared in the body of the loop over the sources. *)
Record SourceLocals : Type := {
  sourceExtent : option (list num);
  sourceOrigin : option (list num);
  sourceTileSizes : list jv;
  sourceResolutions : list jv;
}.

(** The body of the loop over the images of one source. *)
Definition image_step (sourceIndex imageCount imageIndex : nat)
    (image : GeoTIFFImage) (acc : option nat * SourceLocals)
    : Cmd (option nat * SourceLocals) :=
  let samplesPerPixel := acc.1 in
  let sl := acc.2 in
  let imageSamplesPerPixel := getSamplesPerPixel image in
  let* samplesPerPixel' :=
    (if negb (truthy samplesPerPixel) then Eff.ret (Some imageSamplesPerPixel)
     else
       assertEqual (jv_of_nat samplesPerPixel) (Num (of_nat imageSamplesPerPixel))
         (BandCountMismatch sourceIndex imageSamplesPerPixel
            (default 0 samplesPerPixel)) ;;;
       Eff.ret samplesPerPixel) in
  let level := imageCount - (imageIndex + 1) in
  let tileSize := Arr [Num (getTileWidth image); Num (getTileHeight image)] in
  Eff.ret
    (samplesPerPixel',
     {| sourceExtent :=
          match sourceExtent sl with
          | None => Some (getBoundingBox image)
          | Some e => Some e
          end;
        sourceOrigin :=
          match sourceOrigin sl with
          | None => Some (take 2 (getOrigin image))
          | Some o => Some o
          end;
        sourceResolutions :=
          <[level := Num (getResolutionX image)]> (sourceResolutions sl);
        sourceTileSizes :=
          <[level := tileSize]> (sourceTileSizes sl) |}).

(** The body of the loop over the sources. *)
Definition source_step (sourceIndex : nat) (images : list GeoTIFFImage)
    (loc : Locals) : Cmd Locals :=
  let imageCount := length images in
  let* r := Eff.fold_array images (image_step sourceIndex imageCount)
         (l_samplesPerPixel loc,
          {| sourceExtent := None; sourceOrigin := None;
             sourceTileSizes := replicate imageCount Undefined;
             sourceResolutions := replicate imageCount Undefined |}) in
  let sl := r.2 in
  let* extent' :=
    match l_extent loc with
    | None => Eff.ret (sourceExtent sl)
    | Some e =>
        assertEqual (jv_of_array (Some e)) (jv_of_array (sourceExtent sl))
          (ExtentMismatch sourceIndex (sourceExtent sl) (Some e)) ;;;
        Eff.ret (Some e)
    end in
  let* origin' :=
    match l_origin loc with
    | None => Eff.ret (sourceOrigin sl)
    | Some o =>
        assertEqual (jv_of_array (Some o)) (jv_of_array (sourceOrigin sl))
          (OriginMismatch sourceIndex (sourceOrigin sl) (Some o)) ;;;
        Eff.ret (Some o)
    end in
  let* tileSizes' :=
    match l_tileSizes loc with
    | None => Eff.ret (sourceTileSizes sl)
    | Some t =>
        assertEqual (Arr t) (Arr (sourceTileSizes sl))
          (TileSizeMismatch sourceIndex) ;;;
        Eff.ret t
    end in
  let* resolutions' :=
    match l_resolutions loc with
    | None => Eff.ret (sourceResolutions sl)
    | Some rs =>
        assertEqual (Arr rs) (Arr (sourceResolutions sl))
          (ResolutionMismatch sourceIndex (sourceResolutions sl) rs) ;;;
        Eff.ret rs
    end in
  Eff.modify (set_sourceImagery sourceIndex (reverse images)) ;;;
  Eff.ret {| l_extent := extent'; l_origin := origin';
             l_tileSizes := Some tileSizes';
             l_resolutions := Some resolutions';
             l_samplesPerPixel := r.1 |}.

(** [a || b] on two geo key codes. *)
Definition or_code (a b : option nat) : option nat :=
  if truthy a then a else b.

(** The derivation of the projection from the geo keys of
    [sources[0][0]].  [images.reverse()] has reversed [sources[0]] in
    place by then, so that image is the last one enumerated. *)
Definition derive_projection (sources : list (list GeoTIFFImage)) : Cmd unit :=
  let* this := Eff.get in
  match projection this with
  | Some _ => Eff.ret tt
  | None =>
      match head sources with
      | None => Eff.throw TypeError
      | Some images =>
          match head (reverse images) with
          | None => Eff.throw TypeError
          | Some firstImage =>
              match geoKeys firstImage with
              | None => Eff.ret tt
              | Some keys =>
                  let code := or_code (ProjectedCSTypeGeoKey keys)
                                (GeographicTypeGeoKey keys) in
                  if truthy code then
                    Eff.modify
                      (set_projection
                         (getProjection ("EPSG:" +:+ pretty (default 0 code))))
                  else Eff.ret tt
              end
          end
      end
  end.

(** The band-count policy. *)
Definition check_bands (sourceCount : nat) (samplesPerPixel : option nat)
    : Cmd unit :=
  if sourceCount =? 1 then
    match samplesPerPixel with
    | Some 1 | Some 3 | Some 4 => Eff.ret tt
    | _ => Eff.throw (ExpectedGrayscaleRGBorRGBA samplesPerPixel)
    end
  else
    match samplesPerPixel with
    | Some 1 => Eff.ret tt
    | _ => Eff.throw ExpectedSingleBand
    end.

Definition configure_ (sources : list (list GeoTIFFImage)) : Cmd unit :=
  let sourceCount := length sources in
  let* loc := Eff.fold_array sources source_step
           {| l_extent := None; l_origin := None; l_tileSizes := None;
              l_resolutions := None; l_samplesPerPixel := None |} in
  derive_projection sources ;;;
  check_bands sourceCount (l_samplesPerPixel loc) ;;;
  Eff.modify
    (set_configured (l_samplesPerPixel loc)
       {| extent := l_extent loc; origin := l_origin loc;
          resolutions := default [] (l_resolutions loc);
          tileSizes := default [] (l_tileSizes loc) |}) ;;;
  Eff.modify (setState READY).

(** The continuation of the constructor,
    [Promise.all(requests).then(sources => self.configure_(sources))
       .catch(error => { self.error_ = error; self.setState(ERROR) })],
    run when the requests have settled: [inr] with the images of every
    source, [inl] with the reason of the first rejection. *)
Definition on_settled (outcome : Error + list (list GeoTIFFImage)) : Cmd unit :=
  Eff.try_catch
    (match outcome with
     | inr sources => configure_ sources
     | inl reason => Eff.throw reason
     end)
    (fun error =>
       Eff.modify (set_error error) ;;; Eff.modify (setState ERROR)).

Definition getError (this : GeoTIFFSource) : option Error := error_ this.

(** *** [loadTile_] *)

(** [sourceSamples[sourceIndex][sampleIndex][pixelIndex]], [undefined]
    beyond the end of the band.  [readRasters] resolves to one array per
    band and [Promise.all] to one such list per source, so the band is
    there for [sourceIndex < sourceCount] and
    [sampleIndex < samplesPerPixel]. *)
Definition sample (sourceSamples : list (list TypedArray))
    (sourceIndex sampleIndex pixelIndex : nat) : option num :=
  match sourceSamples !! sourceIndex with
  | Some bands =>
      match bands !! sampleIndex with
      | Some band => elems band !! pixelIndex
      | None => None
      end
  | None => None
  end.

(** The first loop of [loadTile_]: does a source configure [nodata]? *)
Definition addAlpha_of (sourceInfo : list SourceInfo) (sourceCount : nat)
    : bool :=
  Eff.for_each sourceCount
    (fun sourceIndex addAlpha =>
       match sourceInfo !! sourceIndex with
       | Some source => if nodata source is Some _ then true else addAlpha
       | None => addAlpha
       end)
    false.

Definition additionalBands_of (addAlpha : bool)
    (sourceCount samplesPerPixel : nat) : nat :=
  if addAlpha then
    if (sourceCount =? 1) && (samplesPerPixel =? 1) then 3
    else if (sourceCount =? 2) && (samplesPerPixel =? 1) then 2
    else 1
  else 0.

Definition minOf (source : SourceInfo) (bands : option (list TypedArray))
    : num :=
  match min source with
  | Some m => m
  | None => getMinforDataType (bands ≫= head)
  end.

Definition maxOf (source : SourceInfo) (bands : option (list TypedArray))
    : num :=
  match max source with
  | Some m => m
  | None => getMaxforDataType (bands ≫= head)
  end.

Definition gainOf (min max : num) : num := div (of_Z 255) (sub max min).
Definition biasOf (min gain : num) : num := mul (neg min) gain.

(** [gain * sourceValue + bias] for a sample of [source]. *)
Definition rescale (source : SourceInfo) (bands : option (list TypedArray))
    (sourceValue : option num) : num :=
  let min := minOf source bands in
  let max := maxOf source bands in
  let gain := gainOf min max in
  let bias := biasOf min gain in
  add (mul gain (ToNumber sourceValue)) bias.

Section Compose.

(** The variables of [loadTile_] that the callback of
    [Promise.all(requests).then] closes over, and its argument. *)
Variable sourceInfo : list SourceInfo.
Variables sourceCount samplesPerPixel additionalBands bandCount : nat.
Variable addAlpha : bool.
Variable sourceSamples : list (list TypedArray).

(** The body of the loop over [sampleIndex]; the state is the output
    array and the variable [transparent]. *)
Definition sample_step (source : SourceInfo)
    (pixelIndex sourceIndex sampleOffset sampleIndex : nat)
    (st : list Z * bool) : list Z * bool :=
  let data := st.1 in
  let transparent := st.2 in
  let sourceValue := sample sourceSamples sourceIndex sampleIndex pixelIndex in
  let value :=
    ToUint8Clamp (rescale source (sourceSamples !! sourceIndex) sourceValue) in
  if negb addAlpha then
    (<[sampleOffset + sampleIndex := value]> data, transparent)
  else if strict_neq sourceValue (nodata source) then
    let data := <[sampleOffset + sampleIndex := value]> data in
    let data :=
      if additionalBands =? 3 then
        <[sampleOffset + sampleIndex + 2 := value]>
          (<[sampleOffset + sampleIndex + 1 := value]> data)
      else data in
    (data, false)
  else (data, transparent).

(** The body of the loop over [sourceIndex]. *)
Definition source_pass (pixelIndex sourceOffset sourceIndex : nat)
    (st : list Z * bool) : list Z * bool :=
  match sourceInfo !! sourceIndex with
  | Some source =>
      let sampleOffset := sourceOffset + sourceIndex * samplesPerPixel in
      let st :=
        Eff.for_each samplesPerPixel
          (sample_step source pixelIndex sourceIndex sampleOffset) st in
      if addAlpha && negb st.2 then (<[sampleOffset + 3 := 255%Z]> st.1, st.2)
      else st
  | None => st
  end.

(** The body of the loop over [pixelIndex]. *)
Definition pixel_pass (pixelIndex : nat) (data : list Z) : list Z :=
  let transparent := addAlpha in
  let sourceOffset := pixelIndex * bandCount in
  (Eff.for_each sourceCount (source_pass pixelIndex sourceOffset)
     (data, transparent)).1.

Definition compose (pixelCount dataLength : nat) : list Z :=
  Eff.for_each pixelCount pixel_pass (replicate dataLength 0%Z).

End Compose.

(** [loadTile_(z, x, y)] from the point where the reads have resolved:
    [size] is [toSize(this.tileGrid.getTileSize(z))] and [sourceSamples]
    the value [Promise.all(requests)] resolves to.  With
    [samplesPerPixel_] still [undefined] the lengths are [NaN], the
    array is empty and no loop body runs. *)
Definition loadTile_ (this : GeoTIFFSource) (size : nat * nat)
    (sourceSamples : list (list TypedArray)) : list Z :=
  let sourceCount := length (sourceImagery_ this) in
  let sourceInfo := sourceInfo_ this in
  let addAlpha := addAlpha_of sourceInfo sourceCount in
  match samplesPerPixel_ this with
  | Some samplesPerPixel =>
      let additionalBands :=
        additionalBands_of addAlpha sourceCount samplesPerPixel in
      let bandCount := samplesPerPixel * sourceCount + additionalBands in
      let pixelCount := size.1 * size.2 in
      let dataLength := pixelCount * bandCount in
      compose sourceInfo sourceCount samplesPerPixel additionalBands
        bandCount addAlpha sourceSamples pixelCount dataLength
  | None => []
  end.

(** *** Statements of the specification about the tiles *)

(** The byte that the store of the rescaled sample leaves in the output
    array. *)
Definition stored_byte (sourceSamples : list (list TypedArray))
    (source : SourceInfo) (sourceIndex sampleIndex pixelIndex : nat) : Z :=
  ToUint8Clamp
    (rescale source (sourceSamples !! sourceIndex)
       (sample sourceSamples sourceIndex sampleIndex pixelIndex)).

(** The sample is the [nodata] value of its source. *)
Definition is_nodata (sourceSamples : list (list TypedArray))
    (source : SourceInfo) (sourceIndex sampleIndex pixelIndex : nat) : bool :=
  negb (strict_neq (sample sourceSamples sourceIndex sampleIndex pixelIndex)
          (nodata source)).

(** Every sample of the pixel is the [nodata] value of the single
    source. *)
Definition transparent_pixel (sourceSamples : list (list TypedArray))
    (source : SourceInfo) (samplesPerPixel pixelIndex : nat) : bool :=
  forallb (fun sampleIndex => is_nodata sourceSamples source 0 sampleIndex pixelIndex)
    (seq 0 samplesPerPixel).

(** The decoder answered with one list of bands per source and one band
    per sample of a pixel. *)
Definition well_formed_samples (sourceCount samplesPerPixel : nat)
    (sourceSamples : list (list TypedArray)) : Prop :=
  length sourceSamples = sourceCount /\
  Forall (fun bands => length bands = samplesPerPixel) sourceSamples.

(** The number of bands of a pixel of the tiles of [this]. *)
Definition bandCount_of (this : GeoTIFFSource) (samplesPerPixel : nat) : nat :=
  let sourceCount := length (sourceImagery_ this) in
  samplesPerPixel * sourceCount +
  additionalBands_of (addAlpha_of (sourceInfo_ this) sourceCount)
    sourceCount samplesPerPixel.

(** The source is as a configuration leaves it: one slot of imagery per
    source, 1 to 3 sources, and a band count the policy accepts. *)
Definition is_configured (this : GeoTIFFSource) (samplesPerPixel : nat) : Prop :=
  samplesPerPixel_ this = Some samplesPerPixel /\
  length (sourceImagery_ this) = length (sourceInfo_ this) /\
  1 <= length (sourceInfo_ this) <= 3 /\
  (if length (sourceInfo_ this) =? 1
   then samplesPerPixel = 1 \/ samplesPerPixel = 3 \/ samplesPerPixel = 4
   else samplesPerPixel = 1).

(** For every tile of a source of which a source at least configures
    [nodata], and every pixel: a raw sample that is the [nodata] value
    of its source leaves its value channel and the alpha band of the
    pixel at 0; and the alpha band of a pixel none of whose samples is
    the [nodata] value is 255.  The alpha band is the last band of the
    pixel. *)
Definition nodata_alpha_claim : Prop :=
  forall (this : GeoTIFFSource) (samplesPerPixel : nat) (size : nat * nat)
         (sourceSamples : list (list TypedArray)) (pixelIndex : nat),
    is_configured this samplesPerPixel ->
    well_formed_samples (length (sourceInfo_ this)) samplesPerPixel
      sourceSamples ->
    addAlpha_of (sourceInfo_ this) (length (sourceImagery_ this)) = true ->
    pixelIndex < size.1 * size.2 ->
    let data := loadTile_ this size sourceSamples in
    let bandCount := bandCount_of this samplesPerPixel in
    let alpha := data !! (pixelIndex * bandCount + (bandCount - 1)) in
    (forall sourceIndex source sampleIndex sentinel,
       sourceInfo_ this !! sourceIndex = Some source ->
       sampleIndex < samplesPerPixel ->
       nodata source = Some sentinel ->
       is_nodata sourceSamples source sourceIndex sampleIndex pixelIndex = true ->
       alpha = Some 0%Z /\
       data !! (pixelIndex * bandCount + sourceIndex * samplesPerPixel
                + sampleIndex) = Some 0%Z) /\
    ((forall sourceIndex source sampleIndex,
        sourceInfo_ this !! sourceIndex = Some source ->
        sampleIndex < samplesPerPixel ->
        is_nodata sourceSamples source sourceIndex sampleIndex pixelIndex
        = false) ->
     alpha = Some 255%Z).

(** *** Statements of the specification about the configuration *)

(** [configure_] returns instead of throwing. *)
Definition accepted (sources : list (list GeoTIFFImage))
    (this : GeoTIFFSource) : Prop :=
  (configure_ sources this).2 = inr tt.

(** Every image has [s] samples per pixel. *)
Definition bands_are (s : nat) (images : list GeoTIFFImage) : Prop :=
  Forall (fun image => getSamplesPerPixel image = s) images.

(** Every image has a sample per pixel at least. *)
Definition has_bands (images : list GeoTIFFImage) : Prop :=
  Forall (fun image => 1 <= getSamplesPerPixel image) images.

(** What the variable [samplesPerPixel] of [configure_] knows about the
    images read so far. *)
Definition spp_seen (o : option nat) (seen : list GeoTIFFImage) : Prop :=
  match o with
  | None => seen = []
  | Some s => 1 <= s /\ bands_are s seen
  end.

(** The errors of a mismatch between sources or between the images of a
    source. *)
Definition consistency_error (e : Error) : Prop :=
  match e with
  | BandCountMismatch _ _ _ | ExtentMismatch _ _ _ | OriginMismatch _ _ _
  | TileSizeMismatch _ | ResolutionMismatch _ _ _ => True
  | _ => False
  end.

(** When the configuration detects a mismatch, the error leaves the
    operation as an exception and is not swallowed into the ERROR state
    with a captured error. *)
Definition mismatch_propagates_claim : Prop :=
  forall (this : GeoTIFFSource) (sources : list (list GeoTIFFImage))
         (e : Error),
    consistency_error e ->
    (configure_ sources this).2 = inl e ->
    let settled := on_settled (inr sources) this in
    settled.2 = inl e /\
    ~ (state settled.1 = ERROR /\ getError settled.1 = Some e).

End WithRegistry.

(** *** Sample inputs *)

(** A registry that knows no projection. *)
Definition no_projection (code : string) : option string := None.

Definition source_info (min max nodata : option num) : SourceInfo :=
  {| url := "https://data.example.org/scene.tif"; overviews := None;
     min := min; max := max; nodata := nodata |}.

(** An image of [bands] samples per pixel over the square of side
    [side]. *)
Definition square_image (bands : nat) (side : Z) : GeoTIFFImage :=
  {| getSamplesPerPixel := bands;
     getBoundingBox := [of_Z 0; of_Z 0; of_Z side; of_Z side];
     getOrigin := [of_Z 0; of_Z side; of_Z 0];
     getResolutionX := of_Z 1;
     getTileWidth := of_Z 256; getTileHeight := of_Z 256;
     geoKeys := None |}.

(** [square_image 1 512] with another origin, another resolution, and
    other tiles. *)
Definition moved_image : GeoTIFFImage :=
  {| getSamplesPerPixel := 1;
     getBoundingBox := [of_Z 0; of_Z 0; of_Z 512; of_Z 512];
     getOrigin := [of_Z 16; of_Z 512; of_Z 0];
     getResolutionX := of_Z 1;
     getTileWidth := of_Z 256; getTileHeight := of_Z 256;
     geoKeys := None |}.

Definition resampled_image : GeoTIFFImage :=
  {| getSamplesPerPixel := 1;
     getBoundingBox := [of_Z 0; of_Z 0; of_Z 512; of_Z 512];
     getOrigin := [of_Z 0; of_Z 512; of_Z 0];
     getResolutionX := of_Z 2;
     getTileWidth := of_Z 256; getTileHeight := of_Z 256;
     geoKeys := None |}.

Definition retiled_image : GeoTIFFImage :=
  {| getSamplesPerPixel := 1;
     getBoundingBox := [of_Z 0; of_Z 0; of_Z 512; of_Z 512];
     getOrigin := [of_Z 0; of_Z 512; of_Z 0];
     getResolutionX := of_Z 1;
     getTileWidth := of_Z 512; getTileHeight := of_Z 512;
     geoKeys := None |}.

(** The source in which the requests for [images] settle, for two source
    descriptions without bounds. *)
Definition settled_pair (images : list (list GeoTIFFImage))
    : GeoTIFFSource (Projection := string) :=
  (on_settled no_projection (inr images)
     (initial [source_info None None None; source_info None None None])).1.

(** The source that the constructor and the configuration make of source
    descriptions [infos] whose images are [images]. *)
Definition configured (infos : list SourceInfo)
    (images : list (list GeoTIFFImage)) : GeoTIFFSource :=
  (on_settled no_projection (inr images) (initial infos)).1.

(** A band of unsigned bytes. *)
Definition bytes (values : list Z) : TypedArray :=
  {| kind := Uint8Array; elems := of_Z <$> values |}.

(** A pixel of three bands of which the first is the [nodata] value 0,
    and a pixel whose three bands are. *)
Definition rgb_with_nodata : GeoTIFFSource (Projection := string) :=
  configured [source_info None None (Some (of_Z 0))] [[square_image 3 512]].

End GeoTIFF.

(** ** The per-tile texture binding: [src/ol/webgl/TileTexture.js] *)

Module TileTexture.
Import JsNum.

(** *** Data *)

Inductive TileState : Type := IDLE | LOADING | LOADED | ERROR | EMPTY.

Definition TileState_eqb (a b : TileState) : bool :=
  match a, b with
  | IDLE, IDLE | LOADING, LOADING | LOADED, LOADED | ERROR, ERROR
  | EMPTY, EMPTY => true
  | _, _ => false
  end.

(** The classes [uploadTile_] tells apart with [instanceof]; a data tile
    carries [tile.getData().byteLength]. *)
Inductive TileKind : Type :=
| ImageTile
| DataTile (byteLength : nat)
| OtherTile.

Inductive Format : Type := LUMINANCE | RGB | RGBA.

Inductive TexParam : Type := TEXTURE_WRAP_S | TEXTURE_WRAP_T | TEXTURE_MIN_FILTER.
Inductive TexValue : Type := CLAMP_TO_EDGE | LINEAR.

(** What a [texImage2D] call with explicit dimensions uploads: the
    constant [blank] of the module or the data of the tile. *)
Inductive Pixels : Type := Blank | TileData.

(** The calls made on the WebGL context and on the helper, as they are
    logged. *)
Inductive GLCall : Type :=
| flushBufferData
| createTexture
| bindTexture
| texParameteri (pname : TexParam) (value : TexValue)
| texImage2D_image (format : Format)
| texImage2D_pixels (format : Format) (width height : nat) (pixels : Pixels)
| deleteBuffer
| deleteTexture.

Inductive Error : Type :=
| UnsupportedBytesPerPixel (bytesPerPixel : num)
| UnsupportedTileType.

(** The listeners of the [change] event of the tile: the bound
    [handleTileChange_] of the texture, or one of another object. *)
Inductive Listener : Type :=
| handleTileChange_bound
| other_listener (id : nat).

Definition Listener_eqb (a b : Listener) : bool :=
  match a, b with
  | handleTileChange_bound, handleTileChange_bound => true
  | other_listener i, other_listener j => i =? j
  | _, _ => false
  end.

(** The tile, the fields of the [TileTexture] over it, and what the
    texture has done so far: the calls on the context, oldest first, and
    the number of [change] events it dispatched to its own listeners. *)
Record World : Type := {
  tile_kind : TileKind;
  tile_state : TileState;
  tile_listeners : list Listener;
  size : nat * nat;
  loaded : bool;
  gl_calls : list GLCall;
  dispatched : nat;
}.

Definition Cmd (A : Type) : Type := Eff.M World Error A.

Definition set_tile_state (s : TileState) (w : World) : World :=
  {| tile_kind := tile_kind w; tile_state := s;
     tile_listeners := tile_listeners w; size := size w; loaded := loaded w;
     gl_calls := gl_calls w; dispatched := dispatched w |}.

Definition set_tile_listeners (ls : list Listener) (w : World) : World :=
  {| tile_kind := tile_kind w; tile_state := tile_state w;
     tile_listeners := ls; size := size w; loaded := loaded w;
     gl_calls := gl_calls w; dispatched := dispatched w |}.

Definition set_loaded (b : bool) (w : World) : World :=
  {| tile_kind := tile_kind w; tile_state := tile_state w;
     tile_listeners := tile_listeners w; size := size w; loaded := b;
     gl_calls := gl_calls w; dispatched := dispatched w |}.

Definition log_call (c : GLCall) (w : World) : World :=
  {| tile_kind := tile_kind w; tile_state := tile_state w;
     tile_listeners := tile_listeners w; size := size w; loaded := loaded w;
     gl_calls := gl_calls w ++ [c]; dispatched := dispatched w |}.

Definition count_dispatch (w : World) : World :=
  {| tile_kind := tile_kind w; tile_state := tile_state w;
     tile_listeners := tile_listeners w; size := size w; loaded := loaded w;
     gl_calls := gl_calls w; dispatched := S (dispatched w) |}.

Definition gl (c : GLCall) : Cmd unit := Eff.modify (log_call c).

(** *** The event target *)

(** Modelled from the spec: the event target class [ol/events/Target.js],
    which the tile and the texture extend, is not among the sources.  The
    texture "subscribes" to the change notification of the tile with
    [addEventListener]: the listener is added to those of the tile, once
    however often it is added, and stays until it is removed. *)
Definition addEventListener (l : Listener) (ls : list Listener) : list Listener :=
  if existsb (Listener_eqb l) ls then ls else ls ++ [l].

(** Modelled from the spec: [removeEventListener] of the same class, by
    which "the subscription is cancelled"; it is "a no-op if already
    removed". *)
Definition removeEventListener (l : Listener) (ls : list Listener)
    : list Listener :=
  filter (fun l' => Listener_eqb l l' = false) ls.

(** *** The upload functions *)

Definition bindAndConfigure : Cmd unit :=
  gl bindTexture ;;;
  gl (texParameteri TEXTURE_WRAP_S CLAMP_TO_EDGE) ;;;
  gl (texParameteri TEXTURE_WRAP_T CLAMP_TO_EDGE) ;;;
  gl (texParameteri TEXTURE_MIN_FILTER LINEAR).

Definition uploadImageTexture : Cmd unit :=
  bindAndConfigure ;;;
  gl (texImage2D_image RGBA).

Definition uploadDataTexture (size : nat * nat) (byteLength : nat) : Cmd unit :=
  bindAndConfigure ;;;
  let bytesPerPixel := div (of_nat byteLength) (of_nat (size.1 * size.2)) in
  let* format :=
    if eqb bytesPerPixel (of_Z 1) then Eff.ret LUMINANCE
    else if eqb bytesPerPixel (of_Z 3) then Eff.ret RGB
    else if eqb bytesPerPixel (of_Z 4) then Eff.ret RGBA
    else Eff.throw (UnsupportedBytesPerPixel bytesPerPixel) in
  gl (texImage2D_pixels format size.1 size.2 TileData).

Definition uploadBlankTexture : Cmd unit :=
  gl bindTexture ;;;
  gl (texImage2D_pixels RGBA 1 1 Blank).

(** *** The class *)

Definition uploadTile_ : Cmd unit :=
  let* this := Eff.get in
  match tile_kind this with
  | ImageTile => uploadImageTexture
  | DataTile byteLength => uploadDataTexture (size this) byteLength
  | OtherTile => Eff.throw UnsupportedTileType
  end.

(** The world a constructor call starts from: a tile of some class, in
    some state, with the listeners of other objects. *)
Definition before_construction (k : TileKind) (s : TileState)
    (others : list nat) (size : nat * nat) : World :=
  {| tile_kind := k; tile_state := s;
     tile_listeners := other_listener <$> others; size := size;
     loaded := false; gl_calls := []; dispatched := 0 |}.

Definition constructor : Cmd unit :=
  let* w := Eff.get in
  Eff.modify (set_loaded (TileState_eqb (tile_state w) LOADED)) ;;;
  gl flushBufferData ;;;
  gl createTexture ;;;
  let* this := Eff.get in
  if loaded this then uploadTile_
  else
    uploadBlankTexture ;;;
    Eff.modify
      (fun w => set_tile_listeners
                  (addEventListener handleTileChange_bound (tile_listeners w)) w).

Definition handleTileChange_ : Cmd unit :=
  let* this := Eff.get in
  if TileState_eqb (tile_state this) LOADED then
    Eff.modify (set_loaded true) ;;;
    uploadTile_ ;;;
    Eff.modify count_dispatch
  else Eff.ret tt.

Definition disposeInternal : Cmd unit :=
  gl deleteBuffer ;;;
  gl deleteTexture ;;;
  Eff.modify
    (fun w => set_tile_listeners
                (removeEventListener handleTileChange_bound (tile_listeners w)) w).

(** *** The environment *)

(** Modelled from the spec: [dispatchEvent] of the same class, the "change
    notification" of the tile.  The listeners registered at that time are
    called in order; an exception of one ends the dispatch. *)
Fixpoint call_listeners (ls : list Listener) : Cmd unit :=
  match ls with
  | [] => Eff.ret tt
  | handleTileChange_bound :: ls' => handleTileChange_ ;;; call_listeners ls'
  | other_listener _ :: ls' => call_listeners ls'
  end.

(** What can happen to a texture after its construction: the tile moves
    to a state and notifies its listeners, or the texture is disposed. *)
Inductive Event : Type :=
| TileChange (s : TileState)
| Dispose.

Definition handle (ev : Event) : Cmd unit :=
  match ev with
  | TileChange s =>
      Eff.modify (set_tile_state s) ;;;
      let* w := Eff.get in
      call_listeners (tile_listeners w)
  | Dispose => disposeInternal
  end.

(** Every event is a task of its own of the event loop: an exception ends
    that task and the world stays as the task left it. *)
Definition run (evs : list Event) (w : World) : World :=
  fold_left (fun w ev => (handle ev w).1) evs w.

(** *** Counting uploads *)

Definition is_placeholder_upload (c : GLCall) : bool :=
  match c with
  | texImage2D_pixels RGBA 1 1 Blank => true
  | _ => false
  end.

Definition is_full_upload (c : GLCall) : bool :=
  match c with
  | texImage2D_image _ => true
  | texImage2D_pixels _ _ _ TileData => true
  | _ => false
  end.

Definition count_calls (p : GLCall -> bool) (w : World) : nat :=
  length (filter (fun c => p c = true) (gl_calls w)).

Definition placeholder_uploads : World -> nat := count_calls is_placeholder_upload.
Definition full_uploads : World -> nat := count_calls is_full_upload.

(** A tile whose upload does not throw: an image tile, or a data tile of
    1, 3 or 4 bytes per pixel. *)
Definition uploadable (k : TileKind) (size : nat * nat) : Prop :=
  match k with
  | ImageTile => True
  | DataTile byteLength =>
      0 < size.1 * size.2 /\
      (byteLength = 1 * (size.1 * size.2) \/
       byteLength = 3 * (size.1 * size.2) \/
       byteLength = 4 * (size.1 * size.2))
  | OtherTile => False
  end.

(** The [TileChange LOADED] events of a trace up to its first [Dispose]. *)
Fixpoint loaded_notifications (evs : list Event) : nat :=
  match evs with
  | [] => 0
  | Dispose :: _ => 0
  | TileChange LOADED :: evs' => S (loaded_notifications evs')
  | TileChange _ :: evs' => loaded_notifications evs'
  end.

(** The registrations of the handler of the texture among listeners. *)
Definition registrations (ls : list Listener) : nat :=
  length (filter (fun l => Listener_eqb handleTileChange_bound l = true) ls).

(** [w'] has the tile, the size, the listeners and the placeholder uploads
    of [w]. *)
Definition same_tile (w w' : World) : Prop :=
  tile_kind w' = tile_kind w /\ size w' = size w /\
  tile_listeners w' = tile_listeners w /\
  placeholder_uploads w' = placeholder_uploads w.

(** From [w] to [w'] there were [n] full uploads, each followed by a
    change notification of the texture. *)
Definition uploaded (n : nat) (w w' : World) : Prop :=
  full_uploads w' = full_uploads w + n /\ dispatched w' = dispatched w + n.

(** *** Statements of the specification about the texture *)

(** The texture as its constructor leaves it. *)
Definition constructed (k : TileKind) (s : TileState) (others : list nat)
    (size : nat * nat) : World :=
  (constructor (before_construction k s others size)).1.

(** For every texture constructed over a tile that is not yet loaded:
    the construction performs one placeholder upload and no full upload;
    after the notification that the tile is loaded there is one full
    upload and one change notification of the texture, whatever
    notifications of the tile follow; and after a disposal that comes
    first there is no upload. *)
Definition lifecycle_claim : Prop :=
  forall (k : TileKind) (s : TileState) (others : list nat) (size : nat * nat),
    s <> LOADED ->
    let w0 := constructed k s others size in
    placeholder_uploads w0 = 1 /\
    full_uploads w0 = 0 /\
    (forall further : list TileState,
       let w := run (TileChange LOADED :: (TileChange <$> further)) w0 in
       full_uploads w = 1 /\ dispatched w = 1) /\
    (forall later : list TileState,
       full_uploads (run (Dispose :: (TileChange <$> later)) w0) = 0).

End TileTexture.

(** ** The tile matrix set resolver: [src/ol/source/OGCMapTile.js] *)

Module OGCMapTile.
Import JsNum.

(** *** Data *)

Record Link : Type := {
  rel : string;
  href : string;
  type : string;
}.

Record TileMatrixSetLink : Type := {
  tileMatrixSet : string;
  tileMatrixSetURI : string;
}.

Record TilesInfo : Type := {
  name : string;
  links : list Link;
  tileMatrixSetLinks : list TileMatrixSetLink;
}.

Record TileMatrix : Type := {
  identifier : string;
  scaleDenominator : num;
  topLeftCorner : list num;
  matrixWidth : num;
  matrixHeight : num;
  tileWidth : num;
  tileHeight : num;
}.

Record TileMatrixSet : Type := {
  title : string;
  set_identifier : string;
  supportedCRS : string;
  tileMatrix : list TileMatrix;
}.

(** What the resolver reads of a projection. *)
Record Projection : Type := {
  getAxisOrientation : string;
  getMetersPerUnit : num;
}.

(** The options passed to [new TileGrid].  An origin is an array whose
    elements can be [undefined]. *)
Record TileGrid : Type := {
  origins : list (list (option num));
  resolutions : list num;
  sizes : list (list num);
  tileSizes : list (list num);
}.

Inductive State : Type := UNDEFINED | LOADING | READY | ERROR.

(** An [XMLHttpRequest] that was sent: [GET] of a URL with an [Accept]
    header. *)
Record Request : Type := {
  request_url : string;
  accept : string;
}.

(** A value of the substitution context: a string, an integer or
    [undefined]. *)
Inductive jsval : Type :=
| VUndefined
| VString (s : string)
| VInt (z : Z).

(** [ToString] *)
Definition to_string (v : jsval) : string :=
  match v with
  | VUndefined => "undefined"
  | VString s => s
  | VInt z => pretty z
  end.

(** The variables the tile URL function closes over. *)
Record UrlClosure : Type := {
  c_tileMatrixSetId : string;
  c_tileUrlTemplate : option string;
  c_context : option (gmap string jsval);
  c_matrices : list TileMatrix;
}.

(** The fields of the source, the requests it has sent and the errors it
    has written to the console, oldest first. *)
Record OGCMapTile : Type := {
  state : State;
  projection : option Projection;
  this_tileMatrixSet : string;
  tileUrlTemplate : option string;
  context : option (gmap string jsval);
  tileGrid : option TileGrid;
  tileUrlFunction : option UrlClosure;
  requests : list Request;
  console : list string;
}.

Definition setState (s : State) (this : OGCMapTile) : OGCMapTile :=
  {| state := s; projection := projection this;
     this_tileMatrixSet := this_tileMatrixSet this;
     tileUrlTemplate := tileUrlTemplate this; context := context this;
     tileGrid := tileGrid this; tileUrlFunction := tileUrlFunction this;
     requests := requests this; console := console this |}.

Definition console_error (message : string) (this : OGCMapTile) : OGCMapTile :=
  {| state := state this; projection := projection this;
     this_tileMatrixSet := this_tileMatrixSet this;
     tileUrlTemplate := tileUrlTemplate this; context := context this;
     tileGrid := tileGrid this; tileUrlFunction := tileUrlFunction this;
     requests := requests this; console := console this ++ [message] |}.

Definition set_tileUrlTemplate (t : string) (this : OGCMapTile) : OGCMapTile :=
  {| state := state this; projection := projection this;
     this_tileMatrixSet := this_tileMatrixSet this;
     tileUrlTemplate := Some t; context := context this;
     tileGrid := tileGrid this; tileUrlFunction := tileUrlFunction this;
     requests := requests this; console := console this |}.

Definition send (r : Request) (this : OGCMapTile) : OGCMapTile :=
  {| state := state this; projection := projection this;
     this_tileMatrixSet := this_tileMatrixSet this;
     tileUrlTemplate := tileUrlTemplate this; context := context this;
     tileGrid := tileGrid this; tileUrlFunction := tileUrlFunction this;
     requests := requests this ++ [r]; console := console this |}.

Definition set_resolved (g : TileGrid) (f : UrlClosure) (this : OGCMapTile)
    : OGCMapTile :=
  {| state := state this; projection := projection this;
     this_tileMatrixSet := this_tileMatrixSet this;
     tileUrlTemplate := tileUrlTemplate this; context := context this;
     tileGrid := Some g; tileUrlFunction := Some f;
     requests := requests this; console := console this |}.

Definition get_json (url : string) : Request :=
  {| request_url := url; accept := "application/json" |}.

(** *** The constructor and the first fetch *)

Definition loadTilesInfo (url : string) (this : OGCMapTile) : OGCMapTile :=
  send (get_json url) this.

(** [options.projection], [options.tileMatrixSet], [options.context] and
    [options.url]. *)
Definition constructor (projection : option Projection) (tileMatrixSet : string)
    (context : option (gmap string jsval)) (url : string) : OGCMapTile :=
  loadTilesInfo url
    {| state := LOADING; projection := projection;
       this_tileMatrixSet := tileMatrixSet; tileUrlTemplate := None;
       context := context; tileGrid := None; tileUrlFunction := None;
       requests := []; console := [] |}.

(** [handleError(error)]: the argument is the message of the error. *)
Definition handleError (message : string) (this : OGCMapTile) : OGCMapTile :=
  setState ERROR (console_error message this).

(** *** The tileset description *)

(** The loop over [info.links]: the [href] of the first link whose [rel]
    is ["item"]. *)
Fixpoint find_item (links : list Link) : option string :=
  match links with
  | [] => None
  | link :: links' =>
      if String.eqb (rel link) "item" then Some (href link)
      else find_item links'
  end.

(** The loop over [info.tileMatrixSetLinks]: the URI of the first
    candidate for the requested id. *)
Fixpoint find_tileMatrixSetURI (id : string)
    (tileMatrixSetLinks : list TileMatrixSetLink) : option string :=
  match tileMatrixSetLinks with
  | [] => None
  | candidate :: candidates =>
      if String.eqb (tileMatrixSet candidate) id
      then Some (tileMatrixSetURI candidate)
      else find_tileMatrixSetURI id candidates
  end.

(** [!s] on a string or [undefined]: true for [undefined] and for the
    empty string. *)
Definition falsy (s : option string) : bool :=
  match s with
  | None => true
  | Some s => String.eqb s EmptyString
  end.

Definition handleTilesInfoResponse (info : TilesInfo) (this : OGCMapTile)
    : OGCMapTile :=
  let tileUrlTemplate := find_item (links info) in
  if falsy tileUrlTemplate then
    handleError "could not find item link" this
  else
    let this := set_tileUrlTemplate (default EmptyString tileUrlTemplate) this in
    let tileMatrixSetURI :=
      find_tileMatrixSetURI (this_tileMatrixSet this) (tileMatrixSetLinks info) in
    if falsy tileMatrixSetURI then
      handleError
        ("could not find tileMatrixSet: " +:+ this_tileMatrixSet this) this
    else
      send (get_json (default EmptyString tileMatrixSetURI)) this.

(** [0] for a [file://] URL, or a status from 200 to 299. *)
Definition status_ok (status : nat) : bool :=
  (status =? 0) || ((200 <=? status) && (status <? 300)).

(** [onTilesInfoLoad]: [status] is [client.status] and [parsed] the
    outcome of [JSON.parse(client.responseText)], [inl] with the message
    of the error it throws. *)
Definition onTilesInfoLoad (status : nat) (parsed : string + TilesInfo)
    (this : OGCMapTile) : OGCMapTile :=
  if status_ok status then
    match parsed with
    | inl err => handleError err this
    | inr response => handleTilesInfoResponse response this
    end
  else
    handleError ("unexpected status for tiles info: " +:+ pretty status) this.

Definition onTilesInfoError (this : OGCMapTile) : OGCMapTile :=
  handleError "client error loading tiles info" this.

Definition onTilesTileMatrixSetError (this : OGCMapTile) : OGCMapTile :=
  handleError "client error loading tile matrix set" this.

(** *** The tile URL function *)

(** [\w] *)
Definition is_word_char (c : ascii) : bool :=
  let n := nat_of_ascii c in
  ((48 <=? n) && (n <=? 57)) || ((65 <=? n) && (n <=? 90)) ||
  ((97 <=? n) && (n <=? 122)) || (n =? 95).

Definition is_char (c : ascii) (s : string) : bool := String.eqb (String c EmptyString) s.

(** [template.replace(/\{(\w+?)\}/g, (m, p) => f(p))], as a scan from left
    to right.  [pending] is [Some p] when an opening brace followed by the
    word characters [p] has been read and the match is still open.  A
    match that fails gives its characters back unchanged; since a word
    character starts no match, the scan goes on from the character that
    made it fail. *)
Fixpoint replace_from (f : string -> string) (pending : option string)
    (s : string) : string :=
  match s with
  | EmptyString =>
      match pending with
      | None => EmptyString
      | Some p => "{" +:+ p
      end
  | String c s' =>
      match pending with
      | None =>
          if is_char c "{" then replace_from f (Some EmptyString) s'
          else String c (replace_from f None s')
      | Some p =>
          if is_word_char c then replace_from f (Some (p +:+ String c EmptyString)) s'
          else if is_char c "}" && negb (String.eqb p EmptyString) then
            f p +:+ replace_from f None s'
          else if is_char c "{" then "{" +:+ p +:+ replace_from f (Some EmptyString) s'
          else "{" +:+ p +:+ String c (replace_from f None s')
      end
  end.

Definition replace_placeholders (f : string -> string) (template : string)
    : string :=
  replace_from f None template.

(** Modelled from the spec: [assign] of [ol/obj.js] is not among the
    sources.  It adds the "caller-supplied static key/value context" to the
    substitution values; it has the name and the argument order of
    [Object.assign], target first: every key of [source] is written to
    [target] with the value it has in [source], every other key of
    [target] keeps its value, and a [source] that is [null] changes
    nothing. *)
Definition assign (target : gmap string jsval)
    (source : option (gmap string jsval)) : gmap string jsval :=
  match source with
  | Some source => source ∪ target
  | None => target
  end.

(** A tile coordinate [[z, x, y]]. *)
Definition TileCoord : Type := Z * Z * Z.

(** [matrices[tileCoord[0]]] *)
Definition matrix_at (matrices : list TileMatrix) (z : Z) : option TileMatrix :=
  if (z <? 0)%Z then None else matrices !! Z.to_nat z.

(** The object literal of the tile URL function. *)
Definition localContext_of (tileMatrixSetId : string) (matrix : TileMatrix)
    (tileCoord : TileCoord) : gmap string jsval :=
  <["tileRow" := VInt tileCoord.2]>
    (<["tileCol" := VInt tileCoord.1.2]>
       (<["tileMatrix" := VString (identifier matrix)]>
          (<["tileMatrixSetId" := VString tileMatrixSetId]> ∅))).

(** [localContext[p]]; the members an object inherits from
    [Object.prototype] are not modelled. *)
Definition property (o : gmap string jsval) (p : string) : jsval :=
  default VUndefined (o !! p).

(** What a call of the tile URL function does: it returns a URL or
    [undefined], or throws a [TypeError]. *)
Inductive UrlResult : Type :=
| Url (url : string)
| NoUrl
| ThrowsTypeError.

(** The function passed to [setTileUrlFunction]; [tileCoord] is [None]
    for a falsy argument. *)
Definition tile_url (cl : UrlClosure) (tileCoord : option TileCoord) : UrlResult :=
  match tileCoord with
  | None => NoUrl
  | Some tileCoord =>
      match matrix_at (c_matrices cl) tileCoord.1.1 with
      | None => ThrowsTypeError
      | Some matrix =>
          let localContext :=
            assign (localContext_of (c_tileMatrixSetId cl) matrix tileCoord)
              (c_context cl) in
          match c_tileUrlTemplate cl with
          | None => ThrowsTypeError
          | Some tileUrlTemplate =>
              Url (replace_placeholders
                     (fun p => to_string (property localContext p))
                     tileUrlTemplate)
          end
      end
  end.

(** *** The tile matrix set definition *)

Section WithRegistry.

(** The projection registry, [get] of [ol/proj.js]. *)
Variable getProjection : string -> option Projection.

(** [projection.getAxisOrientation().substr(0, 2) !== 'en'] *)
Definition backwards_of (projection : Projection) : bool :=
  negb (String.eqb (substring 0 2 (getAxisOrientation projection)) "en").

(** [origins[i]] *)
Definition origin_of (backwards : bool) (matrix : TileMatrix)
    : list (option num) :=
  let origin := topLeftCorner matrix in
  if backwards then [origin !! 1; origin !! 0] else Some <$> origin.

(** [resolutions[i]] *)
Definition resolution_of (metersPerUnit : num) (matrix : TileMatrix) : num :=
  div (mul (scaleDenominator matrix) (Fin (28 # 100000))) metersPerUnit.

(** The arrays filled by the loop over [matrices]: slot [i] of each is
    computed from [matrices[i]] alone. *)
Definition grid_of (projection : Projection) (matrices : list TileMatrix)
    : TileGrid :=
  let backwards := backwards_of projection in
  let metersPerUnit := getMetersPerUnit projection in
  {| origins := origin_of backwards <$> matrices;
     resolutions := resolution_of metersPerUnit <$> matrices;
     sizes := (fun matrix => [matrixWidth matrix; matrixHeight matrix])
                <$> matrices;
     tileSizes := (fun matrix => [tileWidth matrix; tileHeight matrix])
                    <$> matrices |}.

(** The projection of the source or, failing that, the one registered
    for the [supportedCRS] of the definition. *)
Definition resolve_projection (tileMatrixSet : TileMatrixSet)
    (this : OGCMapTile) : option Projection :=
  match projection this with
  | Some p => Some p
  | None => getProjection (supportedCRS tileMatrixSet)
  end.

Definition handleTileMatrixSetResponse (tileMatrixSet : TileMatrixSet)
    (this : OGCMapTile) : OGCMapTile :=
  match resolve_projection tileMatrixSet this with
  | None =>
      handleError ("Unsupported CRS: " +:+ supportedCRS tileMatrixSet) this
  | Some projection =>
      let matrices := tileMatrix tileMatrixSet in
      let tileGrid := grid_of projection matrices in
      let closure :=
        {| c_tileMatrixSetId := this_tileMatrixSet this;
           c_tileUrlTemplate := tileUrlTemplate this;
           c_context := context this;
           c_matrices := matrices |} in
      setState READY (set_resolved tileGrid closure this)
  end.

Definition onTilesTileMatrixSetLoad (status : nat)
    (parsed : string + TileMatrixSet) (this : OGCMapTile) : OGCMapTile :=
  if status_ok status then
    match parsed with
    | inl err => handleError err this
    | inr response => handleTileMatrixSetResponse response this
    end
  else
    handleError
      ("Unexpected status for tile matrix set: " +:+ pretty status) this.

End WithRegistry.

(** *** Statements of the specification about the resolver *)

(** [id] occurs in [message]. *)
Fixpoint occurs_in (id message : string) : bool :=
  String.prefix id message ||
  match message with
  | EmptyString => false
  | String _ message' => occurs_in id message'
  end.

(** No link of the tileset is for the matrix set [id]. *)
Definition no_link_for (id : string) (info : TilesInfo) : Prop :=
  forall l, l ∈ tileMatrixSetLinks info -> tileMatrixSet l <> id.

(** For every tileset response whose [tileMatrixSetLinks] contains no
    entry matching the requested id, the resolver transitions to the
    ERROR state with an error message naming the requested id, and the
    second metadata fetch is never issued. *)
Definition unknown_matrix_set_claim : Prop :=
  forall (info : TilesInfo) (this : OGCMapTile),
    no_link_for (this_tileMatrixSet this) info ->
    let this' := handleTilesInfoResponse info this in
    state this' = ERROR /\
    requests this' = requests this /\
    exists message,
      console this' = console this ++ [message] /\
      occurs_in (this_tileMatrixSet this) message = true.

(** A name a placeholder can hold: one or more word characters. *)
Fixpoint all_word (s : string) : bool :=
  match s with
  | EmptyString => true
  | String c s' => is_word_char c && all_word s'
  end.

Definition placeholder_name (k : string) : Prop :=
  k <> EmptyString /\ all_word k = true.

(** No opening brace in [s]. *)
Fixpoint no_brace (s : string) : bool :=
  match s with
  | EmptyString => true
  | String c s' => negb (is_char c "{") && no_brace s'
  end.

(** A template cut into its parts: text without an opening brace, and
    placeholders. *)
Inductive Segment : Type :=
| Text (t : string)
| Placeholder (k : string).

(** The template that the parts spell. *)
Fixpoint template_of (segments : list Segment) : string :=
  match segments with
  | [] => EmptyString
  | Text t :: rest => t +:+ template_of rest
  | Placeholder k :: rest => "{" +:+ k +:+ "}" +:+ template_of rest
  end.

(** The parts with every placeholder [k] replaced by [f k]. *)
Fixpoint render (f : string -> string) (segments : list Segment) : string :=
  match segments with
  | [] => EmptyString
  | Text t :: rest => t +:+ render f rest
  | Placeholder k :: rest => f k +:+ render f rest
  end.

Definition well_formed_segment (segment : Segment) : Prop :=
  match segment with
  | Text t => no_brace t = true
  | Placeholder k => placeholder_name k
  end.

(** *** Sample inputs *)

(** Concrete inputs for the examples: the quad tree of Web Mercator, cut
    to three levels, and a geographic projection whose axes are (north,
    east). *)
Definition web_mercator : Projection :=
  {| getAxisOrientation := "enu"; getMetersPerUnit := of_Z 1 |}.

Definition geographic_neu : Projection :=
  {| getAxisOrientation := "neu"; getMetersPerUnit := Fin (11131949 # 100) |}.

Definition quad_matrix (id : string) (scale : Q) : TileMatrix :=
  {| identifier := id; scaleDenominator := Fin scale;
     topLeftCorner := [Fin (-2003750834 # 100); Fin (2003750834 # 100)];
     matrixWidth := of_Z 1; matrixHeight := of_Z 1;
     tileWidth := of_Z 256; tileHeight := of_Z 256 |}.

Definition quad : TileMatrixSet :=
  {| title := "Google Maps Compatible for the World";
     set_identifier := "WebMercatorQuad";
     supportedCRS := "http://www.opengis.net/def/crs/EPSG/0/3857";
     tileMatrix :=
       [quad_matrix "0" (5590822640287 # 10000);
        quad_matrix "1" (2795411320143 # 10000);
        quad_matrix "2" (1397705660072 # 10000)] |}.

Definition no_registry (crs : string) : option Projection := None.

Definition resolving (projection : Projection) : OGCMapTile :=
  set_tileUrlTemplate "tiles/{tileMatrixSetId}/{tileMatrix}/{tileRow}/{tileCol}"
    (constructor (Some projection) "WebMercatorQuad" None
       "https://maps.example.org/tiles").

Definition tileset_without_links : TilesInfo :=
  {| name := "countries"; links := []; tileMatrixSetLinks := [] |}.

Definition tileset_without_quad : TilesInfo :=
  {| name := "countries";
     links := [{| rel := "item"; href := "tiles/{tileMatrix}/{tileRow}/{tileCol}";
                  type := "image/png" |}];
     tileMatrixSetLinks :=
       [{| tileMatrixSet := "WorldCRS84Quad";
           tileMatrixSetURI := "https://maps.example.org/tileMatrixSets/WorldCRS84Quad" |}] |}.

Definition loading : OGCMapTile :=
  constructor None "WebMercatorQuad" None "https://maps.example.org/tiles".

(** The description of a tileset with the quad tree of Web Mercator. *)
Definition tileset_with_quad : TilesInfo :=
  {| name := "countries";
     links := [{| rel := "self"; href := "https://maps.example.org/tiles";
                  type := "application/json" |};
               {| rel := "item";
                  href := "{tileMatrixSetId}/{tileMatrix}/{tileCol}/{tileRow}";
                  type := "image/png" |}];
     tileMatrixSetLinks :=
       [{| tileMatrixSet := "WebMercatorQuad";
           tileMatrixSetURI :=
             "https://maps.example.org/tileMatrixSets/WebMercatorQuad" |}] |}.

(** A registry that knows Web Mercator. *)
Definition mercator_registry (crs : string) : option Projection :=
  if String.eqb crs "http://www.opengis.net/def/crs/EPSG/0/3857"
  then Some web_mercator else None.

(** The source after both responses. *)
Definition resolved : OGCMapTile :=
  onTilesTileMatrixSetLoad mercator_registry 200 (inr quad)
    (onTilesInfoLoad 200 (inr tileset_with_quad) loading).

Definition styled_closure : UrlClosure :=
  {| c_tileMatrixSetId := "WebMercatorQuad";
     c_tileUrlTemplate :=
       Some "tiles/{tileCol}/{tileMatrix}/{tileRow}?style={styleId}";
     c_context :=
       Some (<["tileCol" := VInt 7]> (<["styleId" := VString "polygon"]> ∅));
     c_matrices := tileMatrix quad |}.

End OGCMapTile.

(** ** Terms and sample inputs of the further properties *)

Module GeoTIFFTerms.
Import JsNum GeoTIFF.

(** No number of the value is [NaN]. *)
Fixpoint nan_free (v : jv) : bool :=
  match v with
  | Num NaN => false
  | Num _ => true
  | Arr l => forallb nan_free l
  | Undefined => true
  end.

(** [this'] is [this] but for the imagery it stores, and for a projection
    where [this] has none. *)
Definition same_settings {Projection : Type}
    (this this' : GeoTIFFSource (Projection := Projection)) : Prop :=
  state this' = state this /\ tileGrid this' = tileGrid this /\
  sourceInfo_ this' = sourceInfo_ this /\
  samplesPerPixel_ this' = samplesPerPixel_ this /\
  error_ this' = error_ this /\ loader this' = loader this /\
  length (sourceImagery_ this') = length (sourceImagery_ this) /\
  (forall p, projection this = Some p -> projection this' = Some p).

(** The tile size and the resolution that [configure_] records for an
    image. *)
Definition tile_size_of (image : GeoTIFFImage) : jv :=
  Arr [Num (getTileWidth image); Num (getTileHeight image)].

Definition resolution_of (image : GeoTIFFImage) : jv :=
  Num (getResolutionX image).

(** What the loop of [configure_] over the sources stores, from source
    [i] on: the images of every source, reversed, in the slot of the
    source. *)
Fixpoint store_imagery (i : nat) (sources : list (list GeoTIFFImage))
    (imagery : list (option (list GeoTIFFImage)))
    : list (option (list GeoTIFFImage)) :=
  match sources with
  | [] => imagery
  | images :: sources' =>
      store_imagery (S i) sources' (<[i := Some (reverse images)]> imagery)
  end.

End GeoTIFFTerms.

Module GeoTIFFSamples.
Import JsNum GeoTIFF.

(** A source of two images: the full resolution and an overview. *)
Definition pyramid : list GeoTIFFImage := [square_image 1 512; resampled_image].

(** Two sources with the same pyramid, and the source descriptions for
    them. *)
Definition two_pyramids : list (list GeoTIFFImage) := [pyramid; pyramid].

Definition two_infos : list SourceInfo :=
  [source_info None None None; source_info None None None].

(** Two sources of one band whose [nodata] value is 0. *)
Definition two_with_nodata : GeoTIFFSource (Projection := string) :=
  configured [source_info None None (Some (of_Z 0));
              source_info None None (Some (of_Z 0))]
    [[square_image 1 512]; [square_image 1 512]].

(** Two sources of one band without a [nodata] value. *)
Definition two_without_nodata : GeoTIFFSource (Projection := string) :=
  configured two_infos [[square_image 1 512]; [square_image 1 512]].

(** An overview that carries the geo keys of a projected coordinate
    system, and the source it is the last image of. *)
Definition keyed_overview : GeoTIFFImage :=
  {| getSamplesPerPixel := 1;
     getBoundingBox := [of_Z 0; of_Z 0; of_Z 512; of_Z 512];
     getOrigin := [of_Z 0; of_Z 512; of_Z 0];
     getResolutionX := of_Z 2;
     getTileWidth := of_Z 256; getTileHeight := of_Z 256;
     geoKeys := Some {| ProjectedCSTypeGeoKey := Some 3857;
                        GeographicTypeGeoKey := Some 4326 |} |}.

Definition keyed_pyramid : list GeoTIFFImage := [square_image 1 512; keyed_overview].

(** A registry that knows every code under its own name. *)
Definition echo_registry (code : string) : option string := Some code.

End GeoTIFFSamples.

Module TileTextureTerms.
Import TileTexture.

(** From [w] to [w'] no tile and no placeholder was uploaded and the
    texture notified nobody; the tile is the same, and a texture that
    was marked as loaded still is. *)
Definition nothing_uploaded (w w' : World) : Prop :=
  tile_kind w' = tile_kind w /\ size w' = size w /\
  full_uploads w' = full_uploads w /\
  placeholder_uploads w' = placeholder_uploads w /\
  dispatched w' = dispatched w /\
  (loaded w = true -> loaded w' = true).

End TileTextureTerms.

Module OGCMapTileTerms.
Import OGCMapTile.

(** No closing brace in [s]. *)
Fixpoint no_close (s : string) : bool :=
  match s with
  | EmptyString => true
  | String c s' => negb (is_char c "}") && no_close s'
  end.

(** The text that replaces the placeholder [k] when the caller gave no
    context: the values of the object literal of the tile URL function,
    and [undefined] for any other name. *)
Definition computed_value (tileMatrixSetId : string) (matrix : TileMatrix)
    (tileCoord : TileCoord) (k : string) : string :=
  if String.eqb k "tileMatrixSetId" then tileMatrixSetId
  else if String.eqb k "tileMatrix" then identifier matrix
  else if String.eqb k "tileCol" then pretty tileCoord.1.2
  else if String.eqb k "tileRow" then pretty tileCoord.2
  else "undefined".

End OGCMapTileTerms.

(** * Properties *)

(** ** The monad *)

Module EffFacts.
Import Eff.

Lemma bind_inr {St E A B} (c : M St E A) (k : A -> M St E B) s s' b :
  bind c k s = (s', inr b) ->
  exists s1 a, c s = (s1, inr a) /\ k a s1 = (s', inr b).
Proof.
  unfold bind. destruct (c s) as [s1 [e|a]]; [discriminate|]. eauto.
Qed.

Lemma bind_ok {St E A B} (c : M St E A) (k : A -> M St E B) s s1 a :
  c s = (s1, inr a) -> bind c k s = k a s1.
Proof. unfold bind. intros ->. reflexivity. Qed.

Lemma bind_throw {St E A B} (c : M St E A) (k : A -> M St E B) s s1 e :
  c s = (s1, inl e) -> bind c k s = (s1, inl e).
Proof. unfold bind. intros ->. reflexivity. Qed.

Lemma for_each_S {A} (n : nat) (body : nat -> A -> A) (a : A) :
  for_each (S n) body a = body n (for_each n body a).
Proof.
  unfold for_each. rewrite seq_S, fold_left_app. reflexivity.
Qed.

(** A property kept by every iteration is kept by the loop. *)
Lemma for_each_invariant {A} (P : A -> Prop) (n : nat) (body : nat -> A -> A) a :
  P a -> (forall i x, i < n -> P x -> P (body i x)) -> P (for_each n body a).
Proof.
  intros Ha Hstep. induction n as [|n IH]; [exact Ha|].
  rewrite for_each_S. apply Hstep; [lia|]. apply IH.
  intros i x Hi. apply Hstep. lia.
Qed.

(** What iteration [i] establishes and the later iterations keep holds
    after the loop. *)
Lemma for_each_after {A} (P : A -> Prop) (body : nat -> A -> A) (a : A) (i : nat) :
  forall n,
    i < n ->
    P (body i (for_each i body a)) ->
    (forall j x, i < j < n -> P x -> P (body j x)) ->
    P (for_each n body a).
Proof.
  induction n as [|n IH]; intros Hi Hat Hkeep; [lia|].
  rewrite for_each_S. destruct (decide (i = n)) as [->|Hne]; [exact Hat|].
  apply Hkeep; [lia|]. apply IH; [lia | exact Hat |].
  intros j x Hj. apply Hkeep. lia.
Qed.

End EffFacts.

(** ** Numbers *)

Module JsNumFacts.
Import JsNum.

Lemma eqb_of_nat (a b : nat) : eqb (of_nat a) (of_nat b) = Nat.eqb a b.
Proof.
  unfold eqb, of_nat, of_Z.
  destruct (Nat.eqb_spec a b) as [->|Hne].
  - apply Qeq_bool_iff. reflexivity.
  - destruct (Qeq_bool _ _) eqn:Heq; [|reflexivity].
    apply Qeq_bool_iff in Heq. unfold Qeq in Heq. simpl in Heq.
    exfalso. lia.
Qed.

Lemma ltb_Fin (x y : Q) : ltb (Fin x) (Fin y) = true <-> (x < y)%Q.
Proof.
  unfold ltb. destruct (Qle_bool y x) eqn:Hle; simpl.
  - apply Qle_bool_iff in Hle. split; [discriminate|].
    intros Hlt. exfalso. exact (Qlt_not_le _ _ Hlt Hle).
  - split; [|reflexivity]. intros _. apply Qnot_le_lt.
    intros Hle'. apply Qle_bool_iff in Hle'. congruence.
Qed.

End JsNumFacts.

(** ** The raster compositor *)

Module GeoTIFFFacts.
Import JsNum JsNumFacts Eff EffFacts GeoTIFF.

Section Configuration.

Context {Projection : Type} (getProjection : string -> option Projection).

Abbreviation Source := (GeoTIFFSource (Projection := Projection)).

(** *** C7: the number of sources *)

(** C7. The constructor throws, before anything else happens, exactly
    when it is given no source or four and more; with one, two or three
    sources it returns a source in the LOADING state. *)
Theorem constructor_source_count (sources : list SourceInfo) :
  match constructor (Projection := Projection) sources with
  | inl e =>
      e = AcceptsOneToThreeSources /\
      (length sources = 0 \/ 4 <= length sources)
  | inr this =>
      1 <= length sources <= 3 /\
      state this = LOADING /\ sourceInfo_ this = sources /\
      length (sourceImagery_ this) = length sources
  end.
Proof.
  unfold constructor.
  destruct (Nat.ltb_spec 0 (length sources)) as [H0|H0];
    destruct (Nat.ltb_spec (length sources) 4) as [H4|H4]; cbn [andb negb].
  - cbn [initial state sourceInfo_ sourceImagery_]. rewrite length_replicate.
    repeat split; lia.
  - split; [reflexivity | lia].
  - split; [reflexivity | lia].
  - split; [reflexivity | lia].
Qed.

(** *** C8: the band-count policy *)

Lemma assertEqual_nat (s t : nat) (message : Error) (this : Source) :
  assertEqual (jv_of_nat (Some s)) (Num (of_nat t)) message this
  = if s =? t then (this, inr tt) else (this, inl message).
Proof.
  unfold assertEqual, jv_of_nat. cbn [assertEqual_passes]. rewrite eqb_of_nat.
  destruct (s =? t); reflexivity.
Qed.

Lemma image_step_inv sourceIndex imageCount imageIndex image o sl
    (this this' : Source) o' sl' seen :
  1 <= getSamplesPerPixel image ->
  spp_seen o seen ->
  image_step sourceIndex imageCount imageIndex image (o, sl) this
  = (this', inr (o', sl')) ->
  this' = this /\ spp_seen o' (seen ++ [image]).
Proof.
  intros Hpos Hseen. unfold image_step. cbn [fst snd].
  destruct o as [[|s]|]; cbn [truthy negb].
  - destruct Hseen as [Hs _]. lia.
  - destruct Hseen as [Hs Hall].
    unfold bind at 1. unfold bind at 1. rewrite assertEqual_nat.
    destruct (Nat.eqb_spec (S s) (getSamplesPerPixel image)) as [Heq|Hne];
      [|discriminate].
    unfold ret. intros [= <- <- _]. split; [reflexivity|].
    split; [exact Hs|]. apply Forall_app. split; [exact Hall|].
    constructor; [congruence | constructor].
  - unfold bind, ret. intros [= <- <- _]. split; [reflexivity|].
    simpl in Hseen. subst seen. split; [exact Hpos|].
    constructor; [reflexivity | constructor].
Qed.

Lemma image_loop_inv sourceIndex imageCount images :
  forall imageIndex o sl (this this' : Source) o' sl' seen,
    has_bands images ->
    spp_seen o seen ->
    fold_from imageIndex images (image_step sourceIndex imageCount) (o, sl) this
    = (this', inr (o', sl')) ->
    this' = this /\ spp_seen o' (seen ++ images).
Proof.
  induction images as [|image images IH];
    intros imageIndex o sl this this' o' sl' seen Hpos Hseen.
  - simpl. unfold ret. intros [= <- <- _]. rewrite app_nil_r. auto.
  - cbn [fold_from]. intros Hrun.
    apply bind_inr in Hrun as (this1 & [o1 sl1] & Hstep & Hrest).
    inversion Hpos as [|? ? Hp Hps]; subst.
    destruct (image_step_inv _ _ _ _ _ _ _ _ _ _ _ Hp Hseen Hstep) as [-> Hseen1].
    destruct (IH _ _ _ _ _ _ _ _ Hps Hseen1 Hrest) as [-> Hseen2].
    split; [reflexivity|]. rewrite <- app_assoc in Hseen2. exact Hseen2.
Qed.

Lemma source_step_inv sourceIndex images loc (this this' : Source) loc' seen :
  has_bands images ->
  spp_seen (l_samplesPerPixel loc) seen ->
  source_step sourceIndex images loc this = (this', inr loc') ->
  spp_seen (l_samplesPerPixel loc') (seen ++ images).
Proof.
  intros Hpos Hseen Hrun. unfold source_step, fold_array in Hrun.
  apply bind_inr in Hrun as (this1 & [o1 sl1] & Hloop & Hrun).
  destruct (image_loop_inv _ _ _ _ _ _ _ _ _ _ _ Hpos Hseen Hloop) as [_ Hseen1].
  repeat (apply bind_inr in Hrun as (? & ? & _ & Hrun)).
  unfold ret in Hrun. injection Hrun as _ <-. exact Hseen1.
Qed.

Lemma sources_loop_inv sources :
  forall sourceIndex loc (this this' : Source) loc' seen,
    Forall has_bands sources ->
    spp_seen (l_samplesPerPixel loc) seen ->
    fold_from sourceIndex sources source_step loc this = (this', inr loc') ->
    spp_seen (l_samplesPerPixel loc') (seen ++ concat sources).
Proof.
  induction sources as [|images sources IH];
    intros sourceIndex loc this this' loc' seen Hpos Hseen.
  - simpl. unfold ret. intros [= _ <-]. rewrite app_nil_r. exact Hseen.
  - cbn [fold_from concat]. intros Hrun.
    apply bind_inr in Hrun as (this1 & loc1 & Hstep & Hrest).
    inversion Hpos as [|? ? Hp Hps]; subst.
    pose proof (source_step_inv _ _ _ _ _ _ _ Hp Hseen Hstep) as Hseen1.
    rewrite app_assoc. exact (IH _ _ _ _ _ _ Hps Hseen1 Hrest).
Qed.

Lemma check_bands_inr sourceCount o (this this' : Source) :
  check_bands sourceCount o this = (this', inr tt) ->
  (sourceCount = 1 /\ (o = Some 1 \/ o = Some 3 \/ o = Some 4)) \/
  (sourceCount <> 1 /\ o = Some 1).
Proof.
  unfold check_bands.
  destruct (Nat.eqb_spec sourceCount 1) as [->|Hne].
  - destruct o as [[|[|[|[|[|s]]]]]|]; try discriminate; intros _; left; auto.
  - destruct o as [[|[|s]]|]; try discriminate. intros _. right. auto.
Qed.

(** What acceptance says about the bands of the images. *)
Lemma accepted_bands sources (this : Source) :
  Forall has_bands sources ->
  accepted getProjection sources this ->
  exists s,
    bands_are s (concat sources) /\
    ((length sources = 1 /\ (s = 1 \/ s = 3 \/ s = 4)) \/
     (length sources <> 1 /\ s = 1)).
Proof.
  intros Hpos Hacc. unfold accepted in Hacc.
  destruct (configure_ getProjection sources this) as [this' r] eqn:Hrun.
  simpl in Hacc. subst r. unfold configure_, fold_array in Hrun.
  apply bind_inr in Hrun as (this1 & loc & Hloop & Hrun).
  apply bind_inr in Hrun as (this2 & [] & _ & Hrun).
  apply bind_inr in Hrun as (this3 & [] & Hcheck & _).
  assert (Hseen : spp_seen (l_samplesPerPixel loc) ([] ++ concat sources)).
  { eapply sources_loop_inv; [exact Hpos | | exact Hloop]. reflexivity. }
  cbn [app] in Hseen.
  apply check_bands_inr in Hcheck as [[Hn Ho]|[Hn Ho]].
  - destruct Ho as [Ho|[Ho|Ho]]; rewrite Ho in Hseen; destruct Hseen as [_ Hall];
      eexists; (split; [exact Hall|]); left; auto.
  - rewrite Ho in Hseen. destruct Hseen as [_ Hall].
    exists 1. split; [exact Hall|]. right. auto.
Qed.

(** Images that agree on a band count [s] pass the loop over the
    images. *)
Lemma image_loop_accepts sourceIndex imageCount s images :
  forall imageIndex o sl (this : Source),
    1 <= s ->
    bands_are s images ->
    o = None \/ o = Some s ->
    exists o' sl',
      fold_from imageIndex images (image_step sourceIndex imageCount) (o, sl) this
      = (this, inr (o', sl')) /\
      (o' = None \/ o' = Some s) /\ (images <> [] -> o' = Some s).
Proof.
  induction images as [|image images IH]; intros imageIndex o sl this Hs Hall Ho.
  - exists o, sl. split; [reflexivity|]. split; [exact Ho | congruence].
  - apply Forall_cons in Hall as [Himage Himages].
    cbn [fold_from].
    assert (Hstep : exists sl1,
              image_step sourceIndex imageCount imageIndex image (o, sl) this
              = (this, inr (Some s, sl1))).
    { unfold image_step. cbn [fst snd]. rewrite Himage.
      destruct Ho as [->| ->].
      - cbn [truthy negb]. unfold bind, ret. eexists. reflexivity.
      - destruct s as [|s]; [lia|].
        cbn [truthy negb]. unfold bind at 1. unfold bind at 1.
        rewrite assertEqual_nat, Nat.eqb_refl. unfold bind, ret.
        eexists. reflexivity. }
    destruct Hstep as [sl1 Hstep]. rewrite (bind_ok _ _ _ _ _ Hstep).
    destruct (IH (S imageIndex) (Some s) sl1 this Hs
                Himages (or_intror eq_refl)) as (o' & sl' & Hrun & Ho' & Hne).
    exists o', sl'. split; [exact Hrun|]. split; [exact Ho'|]. intros _.
    destruct images as [|image' images]; [|apply Hne; discriminate].
    simpl in Hrun. unfold ret in Hrun. congruence.
Qed.

Lemma derive_projection_returns images sources (this : Source) :
  images <> [] ->
  exists this', derive_projection getProjection (images :: sources) this
                = (this', inr tt).
Proof.
  intros Hne. unfold derive_projection, bind, get.
  destruct (projection this); [eexists; reflexivity|].
  cbn [head]. destruct (head (reverse images)) as [firstImage|] eqn:Hhead.
  - destruct (geoKeys firstImage) as [keys|]; [|eexists; reflexivity].
    destruct (truthy _); eexists; reflexivity.
  - exfalso. apply Hne. apply head_None in Hhead.
    apply (f_equal reverse) in Hhead. rewrite reverse_involutive in Hhead.
    exact Hhead.
Qed.

(** The first source passes the comparisons between sources: there is
    nothing to compare it to. *)
Lemma first_source_step sourceIndex s images (this : Source) :
  1 <= s ->
  images <> [] ->
  bands_are s images ->
  exists loc',
    source_step sourceIndex images
      {| l_extent := None; l_origin := None; l_tileSizes := None;
         l_resolutions := None; l_samplesPerPixel := None |} this
    = (set_sourceImagery sourceIndex (reverse images) this, inr loc') /\
    l_samplesPerPixel loc' = Some s.
Proof.
  intros Hs Hne Hall. unfold source_step, fold_array.
  edestruct (image_loop_accepts sourceIndex (length images) s images 0 None) as
    (o' & sl' & Hloop & _ & Ho'); [exact Hs | exact Hall | left; reflexivity |].
  rewrite (bind_ok _ _ _ _ _ Hloop).
  cbn [l_extent l_origin l_tileSizes l_resolutions l_samplesPerPixel fst snd].
  unfold bind, ret, modify. eexists. split; [reflexivity|].
  cbn [l_samplesPerPixel]. apply Ho'. exact Hne.
Qed.

(** A single source whose images agree on 1, 3 or 4 bands is
    configured: [configure_] returns, and leaves the source READY with
    that band count. *)
Lemma single_source_accepted s images (this : Source) :
  s = 1 \/ s = 3 \/ s = 4 ->
  images <> [] ->
  bands_are s images ->
  exists this',
    configure_ getProjection [images] this = (this', inr tt) /\
    state this' = READY /\ samplesPerPixel_ this' = Some s.
Proof.
  intros Hs Hne Hall. unfold configure_, fold_array. cbn [fold_from].
  destruct (first_source_step 0 s images this) as (loc' & Hstep & Hspp);
    [lia | exact Hne | exact Hall |].
  rewrite (bind_ok _ _ _ _ _ (bind_ok _ _ _ _ _ Hstep)).
  cbn [fold_from]. rewrite Hspp.
  destruct (derive_projection_returns images []
              (set_sourceImagery 0 (reverse images) this) Hne)
    as [this2 Hproj].
  rewrite (bind_ok _ _ _ _ _ Hproj).
  assert (Hcheck : check_bands (length [images]) (Some s) this2 = (this2, inr tt)).
  { destruct Hs as [->|[->| ->]]; reflexivity. }
  rewrite (bind_ok _ _ _ _ _ Hcheck).
  eexists. split; [reflexivity|]. split; reflexivity.
Qed.


(** *** C9: what becomes of an error of the configuration *)

(** C9, as the code has it.  An error that [configure_] throws, a
    mismatch between sources among them, leaves [configure_] as an
    exception and is caught by the continuation of the constructor,
    which stores it in [error_], where [getError] finds it, and moves
    the source to the ERROR state; the continuation itself returns. *)
Theorem configuration_error_is_captured
    (sources : list (list GeoTIFFImage)) (this : Source) (e : Error) :
  (configure_ getProjection sources this).2 = inl e ->
  let settled := on_settled getProjection (inr sources) this in
  settled.2 = inr tt /\
  state settled.1 = ERROR /\
  getError settled.1 = Some e.
Proof.
  intros Hthrow settled. subst settled. unfold on_settled, try_catch.
  destruct (configure_ getProjection sources this) as [this' r].
  simpl in Hthrow. subst r. repeat split.
Qed.

End Configuration.

(** *** Examples of the configuration *)

Example one_source_is_accepted :
  exists this, constructor (Projection := string) [source_info None None None]
               = inr this.
Proof. eexists. reflexivity. Qed.

Example four_sources_are_rejected :
  constructor (Projection := string)
    (replicate 4 (source_info None None None))
  = inl AcceptsOneToThreeSources.
Proof. reflexivity. Qed.


Example two_band_source_is_rejected :
  (configure_ no_projection [[square_image 2 512]]
     (initial [source_info None None None])).2
  = inl (ExpectedGrayscaleRGBorRGBA (Some 2)).
Proof. reflexivity. Qed.

Example rgb_sources_are_rejected :
  (configure_ no_projection [[square_image 3 512]; [square_image 3 512]]
     (initial [source_info None None None; source_info None None None])).2
  = inl ExpectedSingleBand.
Proof. reflexivity. Qed.

(** Two single-band sources over different extents. *)
Example extent_mismatch_is_detected :
  (configure_ no_projection [[square_image 1 512]; [square_image 1 1024]]
     (initial [source_info None None None; source_info None None None])).2
  = inl (ExtentMismatch 1
           (Some [of_Z 0; of_Z 0; of_Z 1024; of_Z 1024])
           (Some [of_Z 0; of_Z 0; of_Z 512; of_Z 512])).
Proof. reflexivity. Qed.

Lemma configuration_error_is_captured_witness :
  let settled :=
    on_settled no_projection
      (inr [[square_image 1 512]; [square_image 1 1024]])
      (initial [source_info None None None; source_info None None None]) in
  settled.2 = inr tt /\
  state settled.1 = ERROR /\
  getError settled.1
  = Some (ExtentMismatch 1
            (Some [of_Z 0; of_Z 0; of_Z 1024; of_Z 1024])
            (Some [of_Z 0; of_Z 0; of_Z 512; of_Z 512])).
Proof.
  exact (configuration_error_is_captured no_projection _ _ _
           extent_mismatch_is_detected).
Defined.

(** Every kind of mismatch ends the same way. *)
Example origin_mismatch_is_captured :
  state (settled_pair [[square_image 1 512]; [moved_image]]) = ERROR /\
  getError (settled_pair [[square_image 1 512]; [moved_image]])
  = Some (OriginMismatch 1 (Some [of_Z 16; of_Z 512]) (Some [of_Z 0; of_Z 512])).
Proof. split; reflexivity. Qed.

Example resolution_mismatch_is_captured :
  state (settled_pair [[square_image 1 512]; [resampled_image]]) = ERROR /\
  getError (settled_pair [[square_image 1 512]; [resampled_image]])
  = Some (ResolutionMismatch 1 [Num (of_Z 2)] [Num (of_Z 1)]).
Proof. split; reflexivity. Qed.

Example tile_size_mismatch_is_captured :
  state (settled_pair [[square_image 1 512]; [retiled_image]]) = ERROR /\
  getError (settled_pair [[square_image 1 512]; [retiled_image]])
  = Some (TileSizeMismatch 1).
Proof. split; reflexivity. Qed.

Example band_count_mismatch_is_captured :
  state (settled_pair [[square_image 1 512]; [square_image 3 512]]) = ERROR /\
  getError (settled_pair [[square_image 1 512]; [square_image 3 512]])
  = Some (BandCountMismatch 1 3 1).
Proof. split; reflexivity. Qed.

(** A rejected request ends there too. *)
Example rejection_is_captured :
  let settled :=
    on_settled no_projection (inl (Rejected "404"))
      (initial [source_info None None None]) in
  settled.2 = inr tt /\ state settled.1 = ERROR /\
  getError settled.1 = Some (Rejected "404").
Proof. repeat split. Qed.

(** C9 does not hold as stated: the mismatch of two extents ends in the
    ERROR state with the error captured, and no exception leaves the
    continuation of the constructor. *)
Lemma mismatch_propagates_claim_fails :
  ~ mismatch_propagates_claim no_projection.
Proof.
  intros Hclaim.
  destruct (Hclaim (initial [source_info None None None; source_info None None None])
              [[square_image 1 512]; [square_image 1 1024]]
              (ExtentMismatch 1
                 (Some [of_Z 0; of_Z 0; of_Z 1024; of_Z 1024])
                 (Some [of_Z 0; of_Z 0; of_Z 512; of_Z 512])))
    as [Hescapes _]; [exact I | reflexivity |].
  vm_compute in Hescapes. discriminate.
Qed.

End GeoTIFFFacts.

(** ** The tiles of the raster compositor *)

Module GeoTIFFTileFacts.
Import JsNum JsNumFacts Eff EffFacts GeoTIFF.

Section Compose.

Variable sourceInfo : list SourceInfo.
Variables sourceCount samplesPerPixel additionalBands bandCount : nat.
Variable addAlpha : bool.
Variable sourceSamples : list (list TypedArray).

Abbreviation sample_step' :=
  (sample_step additionalBands addAlpha sourceSamples).
Abbreviation source_pass' :=
  (source_pass sourceInfo samplesPerPixel additionalBands addAlpha sourceSamples).
Abbreviation pixel_pass' :=
  (pixel_pass sourceInfo sourceCount samplesPerPixel additionalBands bandCount
     addAlpha sourceSamples).

Abbreviation stored := (stored_byte sourceSamples).
Abbreviation nodata_at := (is_nodata sourceSamples).

(** **** The loop over the samples *)

Lemma sample_step_length source p s off k st :
  length (sample_step' source p s off k st).1 = length st.1.
Proof.
  unfold sample_step. destruct addAlpha; cbn [negb fst].
  - destruct (strict_neq _ _); [|reflexivity].
    destruct (additionalBands =? 3); cbn [fst]; rewrite ?length_insert; reflexivity.
  - apply length_insert.
Qed.

Lemma sample_step_below source p s off k st j :
  j < off + k ->
  (sample_step' source p s off k st).1 !! j = st.1 !! j.
Proof.
  intros Hj. unfold sample_step. destruct addAlpha; cbn [negb fst].
  - destruct (strict_neq _ _); [|reflexivity].
    destruct (additionalBands =? 3); cbn [fst];
      rewrite ?list_lookup_insert_ne by lia; reflexivity.
  - rewrite list_lookup_insert_ne by lia. reflexivity.
Qed.

Lemma sample_step_stores source p s off k st :
  off + k < length st.1 ->
  addAlpha = false \/ nodata_at source s k p = false ->
  (sample_step' source p s off k st).1 !! (off + k) = Some (stored source s k p).
Proof.
  intros Hlen Hcond. unfold sample_step.
  destruct addAlpha; cbn [negb fst].
  - destruct Hcond as [Hcond|Hcond]; [discriminate|].
    apply negb_false_iff in Hcond. rewrite Hcond.
    destruct (additionalBands =? 3); cbn [fst];
      rewrite ?list_lookup_insert_ne by lia;
      rewrite list_lookup_insert_eq by lia; reflexivity.
  - rewrite list_lookup_insert_eq by lia. reflexivity.
Qed.

Lemma sample_loop_length source p s off n st :
  length (for_each n (sample_step' source p s off) st).1 = length st.1.
Proof.
  apply (for_each_invariant (fun x => length x.1 = length st.1)); [reflexivity|].
  intros i x _ Hx. rewrite sample_step_length. exact Hx.
Qed.

Lemma sample_loop_below source p s off n st j :
  j < off ->
  (for_each n (sample_step' source p s off) st).1 !! j = st.1 !! j.
Proof.
  intros Hj.
  apply (for_each_invariant (fun x => x.1 !! j = st.1 !! j)); [reflexivity|].
  intros i x _ Hx. rewrite sample_step_below by lia. exact Hx.
Qed.

Lemma sample_loop_stores source p s off n k st :
  k < n ->
  off + k < length st.1 ->
  addAlpha = false \/ nodata_at source s k p = false ->
  (for_each n (sample_step' source p s off) st).1 !! (off + k)
  = Some (stored source s k p).
Proof.
  intros Hk Hlen Hcond.
  apply (for_each_after (fun x => x.1 !! (off + k) = Some (stored source s k p))
           _ _ k); [exact Hk | |].
  - apply sample_step_stores; [|exact Hcond].
    rewrite sample_loop_length. exact Hlen.
  - intros j x Hj Hx. rewrite sample_step_below by lia. exact Hx.
Qed.

(** **** The loop over the sources *)

Lemma source_pass_length p so s st :
  length (source_pass' p so s st).1 = length st.1.
Proof.
  unfold source_pass. destruct (sourceInfo !! s) as [source|]; [|reflexivity].
  destruct (addAlpha && negb _); cbn [fst];
    rewrite ?length_insert; apply sample_loop_length.
Qed.

Lemma source_pass_below p so s st j :
  j < so + s * samplesPerPixel ->
  (source_pass' p so s st).1 !! j = st.1 !! j.
Proof.
  intros Hj. unfold source_pass.
  destruct (sourceInfo !! s) as [source|]; [|reflexivity].
  destruct (addAlpha && negb _); cbn [fst];
    rewrite ?list_lookup_insert_ne by lia; apply sample_loop_below; exact Hj.
Qed.

(** The store of a sample survives the rest of the pass of its source,
    unless the opacity written at offset 3 lands on it. *)
Lemma source_pass_stores p so s source k st :
  sourceInfo !! s = Some source ->
  k < samplesPerPixel ->
  so + s * samplesPerPixel + k < length st.1 ->
  addAlpha = false \/ (nodata_at source s k p = false /\ k <> 3) ->
  (source_pass' p so s st).1 !! (so + s * samplesPerPixel + k)
  = Some (stored source s k p).
Proof.
  intros Hs Hk Hlen Hcond. unfold source_pass. rewrite Hs.
  assert (Hloop :
    (for_each samplesPerPixel
       (sample_step' source p s (so + s * samplesPerPixel)) st).1
      !! (so + s * samplesPerPixel + k) = Some (stored source s k p)).
  { apply sample_loop_stores; [exact Hk | exact Hlen |].
    destruct Hcond as [Ha|[Hn _]]; auto. }
  destruct Hcond as [->|[_ Hk3]]; cbn [andb]; [exact Hloop|].
  destruct (addAlpha && negb _); cbn [fst]; [|exact Hloop].
  rewrite list_lookup_insert_ne by lia. exact Hloop.
Qed.

Lemma source_loop_length p so n st :
  length (for_each n (source_pass' p so) st).1 = length st.1.
Proof.
  apply (for_each_invariant (fun x => length x.1 = length st.1)); [reflexivity|].
  intros i x _ Hx. rewrite source_pass_length. exact Hx.
Qed.

Lemma source_loop_below p so n st j :
  j < so ->
  (for_each n (source_pass' p so) st).1 !! j = st.1 !! j.
Proof.
  intros Hj.
  apply (for_each_invariant (fun x => x.1 !! j = st.1 !! j)); [reflexivity|].
  intros i x _ Hx. rewrite source_pass_below by lia. exact Hx.
Qed.

Lemma source_loop_stores p so n s source k st :
  s < n ->
  sourceInfo !! s = Some source ->
  k < samplesPerPixel ->
  so + s * samplesPerPixel + k < length st.1 ->
  addAlpha = false \/ (nodata_at source s k p = false /\ k <> 3) ->
  (for_each n (source_pass' p so) st).1 !! (so + s * samplesPerPixel + k)
  = Some (stored source s k p).
Proof.
  intros Hn Hs Hk Hlen Hcond.
  apply (for_each_after
           (fun x => x.1 !! (so + s * samplesPerPixel + k)
                     = Some (stored source s k p)) _ _ s);
    [exact Hn | |].
  - apply source_pass_stores; try assumption.
    rewrite source_loop_length. exact Hlen.
  - intros j x Hj Hx. rewrite source_pass_below by nia. exact Hx.
Qed.

(** **** The loop over the pixels *)

Lemma pixel_pass_length p data :
  length (pixel_pass' p data) = length data.
Proof. unfold pixel_pass. apply source_loop_length. Qed.

Lemma pixel_pass_below p data j :
  j < p * bandCount -> pixel_pass' p data !! j = data !! j.
Proof. intros Hj. unfold pixel_pass. apply source_loop_below. exact Hj. Qed.

Lemma compose_length pixelCount dataLength :
  length (compose sourceInfo sourceCount samplesPerPixel additionalBands
            bandCount addAlpha sourceSamples pixelCount dataLength)
  = dataLength.
Proof.
  unfold compose.
  apply (for_each_invariant (fun x => length x = dataLength));
    [apply length_replicate|].
  intros i x _ Hx. rewrite pixel_pass_length. exact Hx.
Qed.

Lemma pixel_loop_length n data :
  length (for_each n pixel_pass' data) = length data.
Proof.
  apply (for_each_invariant (fun x => length x = length data)); [reflexivity|].
  intros i x _ Hx. rewrite pixel_pass_length. exact Hx.
Qed.

(** A sample that is stored is found in the tile, at the place of its
    pixel, source and band. *)
Lemma compose_stores pixelCount p s source k :
  samplesPerPixel * sourceCount <= bandCount ->
  p < pixelCount ->
  s < sourceCount ->
  sourceInfo !! s = Some source ->
  k < samplesPerPixel ->
  addAlpha = false \/ (nodata_at source s k p = false /\ k <> 3) ->
  compose sourceInfo sourceCount samplesPerPixel additionalBands bandCount
    addAlpha sourceSamples pixelCount (pixelCount * bandCount)
    !! (p * bandCount + s * samplesPerPixel + k)
  = Some (stored source s k p).
Proof.
  intros Hbands Hp Hs Hsource Hk Hcond. unfold compose.
  assert (Hin : s * samplesPerPixel + k < bandCount) by nia.
  apply (for_each_after
           (fun x => x !! (p * bandCount + s * samplesPerPixel + k)
                     = Some (stored source s k p)) _ _ p);
    [exact Hp | |].
  - unfold pixel_pass. apply source_loop_stores; try assumption.
    cbn [fst]. rewrite pixel_loop_length, length_replicate. nia.
  - intros j x Hj Hx. rewrite pixel_pass_below by nia. exact Hx.
Qed.

End Compose.

(** *** Pixels that do not overlap *)

Section IndependentPixels.

(** A pass over the pixels that, at pixel [p], reads and writes the four
    bytes of [p] only. *)
Variable pass : nat -> list Z -> list Z.

Hypothesis pass_length : forall p d, length (pass p d) = length d.

Hypothesis pass_outside :
  forall p d j, j < p * 4 \/ p * 4 + 4 <= j -> pass p d !! j = d !! j.

Hypothesis pass_local :
  forall p d d',
    length d = length d' ->
    p * 4 + 4 <= length d ->
    (forall c, c < 4 -> d !! (p * 4 + c) = d' !! (p * 4 + c)) ->
    forall c, c < 4 -> pass p d !! (p * 4 + c) = pass p d' !! (p * 4 + c).

Lemma passes_length (n : nat) (d : list Z) :
  length (for_each n pass d) = length d.
Proof.
  apply (for_each_invariant (fun x => length x = length d)); [reflexivity|].
  intros i x _ Hx. rewrite pass_length. exact Hx.
Qed.

Lemma passes_ahead (n : nat) (d : list Z) (j : nat) :
  n * 4 <= j -> for_each n pass d !! j = d !! j.
Proof.
  intros Hj.
  apply (for_each_invariant (fun x => x !! j = d !! j)); [reflexivity|].
  intros i x Hi Hx. rewrite pass_outside by lia. exact Hx.
Qed.

(** The bytes of a pixel are those its own pass writes. *)
Lemma independent_pixels (d : list Z) :
  forall n p c,
    p < n -> c < 4 -> n * 4 <= length d ->
    for_each n pass d !! (p * 4 + c) = pass p d !! (p * 4 + c).
Proof.
  induction n as [|n IH]; intros p c Hp Hc Hlen; [lia|].
  rewrite for_each_S. destruct (decide (p = n)) as [->|Hne].
  - apply pass_local; [apply passes_length | rewrite passes_length; lia | | exact Hc].
    intros c' Hc'. apply passes_ahead. lia.
  - rewrite pass_outside by lia. apply IH; lia.
Qed.

End IndependentPixels.

(** *** A single source with a [nodata] value *)

Section SingleSource.

Variable source : SourceInfo.
Variable sourceSamples : list (list TypedArray).

Abbreviation stored1 := (stored_byte sourceSamples source 0).
Abbreviation nodata1 := (is_nodata sourceSamples source 0).

Ltac lookup_inserts :=
  repeat first
    [ rewrite list_lookup_insert_ne by lia
    | rewrite list_lookup_insert_eq by (rewrite ?length_insert; lia) ].

(** The pass over a pixel of a single band: the four bytes of the pixel
    are written when the sample is not the [nodata] value. *)
Lemma gray_pixel_pass (p : nat) (data : list Z) :
  pixel_pass [source] 1 1 3 4 true sourceSamples p data
  = if nodata1 0 p then data
    else <[p * 4 + 3 := 255%Z]>
           (<[p * 4 + 2 := stored1 0 p]>
              (<[p * 4 + 1 := stored1 0 p]>
                 (<[p * 4 := stored1 0 p]> data))).
Proof.
  unfold pixel_pass, for_each. cbn [seq fold_left]. unfold source_pass.
  cbn [lookup list_lookup]. unfold for_each. cbn [seq fold_left].
  unfold sample_step, is_nodata, stored_byte. cbn [negb fst snd Nat.eqb].
  destruct (strict_neq _ _); cbn [negb fst snd andb]; [|reflexivity].
  repeat f_equal; lia.
Qed.

(** The pass over a pixel of three bands: a band is written when its
    sample is not the [nodata] value, and the opacity when a band
    was. *)
Lemma rgb_pixel_pass (p : nat) (data : list Z) :
  pixel_pass [source] 1 3 1 4 true sourceSamples p data
  = let write k (d : list Z) :=
      if nodata1 k p then d else <[p * 4 + k := stored1 k p]> d in
    let data' := write 2 (write 1 (write 0 data)) in
    if nodata1 0 p && nodata1 1 p && nodata1 2 p then data'
    else <[p * 4 + 3 := 255%Z]> data'.
Proof.
  unfold pixel_pass, for_each. cbn [seq fold_left]. unfold source_pass.
  cbn [lookup list_lookup]. unfold for_each. cbn [seq fold_left].
  unfold sample_step, is_nodata, stored_byte. cbn [negb fst snd Nat.eqb].
  replace (p * 4 + 0 * 3) with (p * 4) by lia.
  replace (p * 4 + 0) with (p * 4) by lia.
  destruct (strict_neq (sample sourceSamples 0 0 p) _);
    destruct (strict_neq (sample sourceSamples 0 1 p) _);
    destruct (strict_neq (sample sourceSamples 0 2 p) _);
    cbn [negb fst snd andb]; reflexivity.
Qed.

Lemma gray_pass_length p d :
  length (pixel_pass [source] 1 1 3 4 true sourceSamples p d) = length d.
Proof. apply pixel_pass_length. Qed.

Lemma gray_pass_outside p d j :
  j < p * 4 \/ p * 4 + 4 <= j ->
  pixel_pass [source] 1 1 3 4 true sourceSamples p d !! j = d !! j.
Proof.
  intros Hj. rewrite gray_pixel_pass. destruct (nodata1 0 p); [reflexivity|].
  lookup_inserts. reflexivity.
Qed.

Lemma gray_pass_local p d d' :
  length d = length d' ->
  p * 4 + 4 <= length d ->
  (forall c, c < 4 -> d !! (p * 4 + c) = d' !! (p * 4 + c)) ->
  forall c, c < 4 ->
    pixel_pass [source] 1 1 3 4 true sourceSamples p d !! (p * 4 + c)
    = pixel_pass [source] 1 1 3 4 true sourceSamples p d' !! (p * 4 + c).
Proof.
  intros Hlen Hin Hsame c Hc. rewrite !gray_pixel_pass.
  destruct (nodata1 0 p); [apply Hsame; exact Hc|].
  destruct c as [|[|[|[|c]]]]; try lia;
    replace (p * 4 + 0) with (p * 4) by lia; lookup_inserts; reflexivity.
Qed.

Lemma rgb_pass_length p d :
  length (pixel_pass [source] 1 3 1 4 true sourceSamples p d) = length d.
Proof. apply pixel_pass_length. Qed.

Lemma rgb_pass_outside p d j :
  j < p * 4 \/ p * 4 + 4 <= j ->
  pixel_pass [source] 1 3 1 4 true sourceSamples p d !! j = d !! j.
Proof.
  intros Hj. rewrite rgb_pixel_pass. cbv beta zeta.
  destruct (nodata1 0 p), (nodata1 1 p), (nodata1 2 p); cbn [andb];
    lookup_inserts; reflexivity.
Qed.

Lemma rgb_pass_local p d d' :
  length d = length d' ->
  p * 4 + 4 <= length d ->
  (forall c, c < 4 -> d !! (p * 4 + c) = d' !! (p * 4 + c)) ->
  forall c, c < 4 ->
    pixel_pass [source] 1 3 1 4 true sourceSamples p d !! (p * 4 + c)
    = pixel_pass [source] 1 3 1 4 true sourceSamples p d' !! (p * 4 + c).
Proof.
  intros Hlen Hin Hsame c Hc. rewrite !rgb_pixel_pass. cbv beta zeta.
  pose proof (Hsame 0 ltac:(lia)) as H0.
  pose proof (Hsame 1 ltac:(lia)) as H1.
  pose proof (Hsame 2 ltac:(lia)) as H2.
  pose proof (Hsame 3 ltac:(lia)) as H3.
  destruct (nodata1 0 p), (nodata1 1 p), (nodata1 2 p); cbn [andb];
    destruct c as [|[|[|[|c]]]]; try lia;
    lookup_inserts; assumption || reflexivity.
Qed.

End SingleSource.

Ltac lookup_inserts_in H :=
  repeat first
    [ rewrite list_lookup_insert_ne in H by lia
    | rewrite list_lookup_insert_eq in H by (rewrite ?length_insert; lia) ].

(** *** The tiles of a source *)

Section Tiles.

Context {Projection : Type}.

Abbreviation Source := (GeoTIFFSource (Projection := Projection)).

Lemma loadTile_compose (this : Source) (spp : nat) (size : nat * nat)
    (sourceSamples : list (list TypedArray)) :
  samplesPerPixel_ this = Some spp ->
  let sourceCount := length (sourceImagery_ this) in
  let addAlpha := addAlpha_of (sourceInfo_ this) sourceCount in
  loadTile_ this size sourceSamples
  = compose (sourceInfo_ this) sourceCount spp
      (additionalBands_of addAlpha sourceCount spp)
      (bandCount_of this spp) addAlpha sourceSamples
      (size.1 * size.2) (size.1 * size.2 * bandCount_of this spp).
Proof. intros Hspp. unfold loadTile_. rewrite Hspp. reflexivity. Qed.


Lemma addAlpha_single (source : SourceInfo) (n : num) :
  nodata source = Some n -> addAlpha_of [source] 1 = true.
Proof.
  intros Hn. unfold addAlpha_of, for_each. cbn. rewrite Hn. reflexivity.
Qed.


End Tiles.

(** *** Examples of tiles *)


Example rescale_full_range :
  exists q,
    rescale (source_info (Some (of_Z 0)) (Some (of_Z 255)) None)
      (Some [bytes [128%Z]]) (Some (of_Z 128)) = Fin q /\ (q == 128)%Q.
Proof. eexists. split; [reflexivity | vm_compute; reflexivity]. Qed.

Example rescale_below_range :
  exists q,
    rescale (source_info (Some (of_Z 100)) (Some (of_Z 200)) None)
      (Some [bytes [0%Z]]) (Some (of_Z 0)) = Fin q /\ (q == -255)%Q.
Proof. eexists. split; [reflexivity | vm_compute; reflexivity]. Qed.

(** Signed bytes without configured bounds: -128 is stored as 0 and 127
    as 255. *)
Example signed_bytes_natural_range :
  loadTile_ (configured [source_info None None None] [[square_image 1 512]])
    (2, 1) [[ {| kind := Int8Array; elems := [of_Z (-128); of_Z 127] |} ]]
  = [0; 255]%Z.
Proof. reflexivity. Qed.

Example rgb_with_nodata_tile :
  loadTile_ rgb_with_nodata (2, 1)
    [[bytes [0; 0]%Z; bytes [5; 0]%Z; bytes [5; 0]%Z]]
  = [0; 5; 5; 255; 0; 0; 0; 0]%Z.
Proof. reflexivity. Qed.



(** With two sources the opacity of the second is written three bytes
    after its own sample, in the next pixel: the second pixel below has
    only [nodata] samples, and its first byte is 255. *)
Example opacity_of_second_source_lands_in_next_pixel :
  loadTile_
    (configured [source_info None None (Some (of_Z 0));
                 source_info None None (Some (of_Z 0))]
       [[square_image 1 512]; [square_image 1 512]])
    (2, 1) [[bytes [5; 0]%Z]; [bytes [5; 0]%Z]]
  = [5; 5; 0; 255; 255; 0; 0; 0]%Z.
Proof. reflexivity. Qed.

(** With four bands the opacity is written over the fourth band, and the
    fifth byte of the pixel stays 0. *)
Example opacity_overwrites_fourth_band :
  loadTile_
    (configured [source_info None None (Some (of_Z 0))] [[square_image 4 512]])
    (1, 1) [[bytes [1%Z]; bytes [2%Z]; bytes [3%Z]; bytes [4%Z]]]
  = [1; 2; 3; 255; 0]%Z.
Proof. reflexivity. Qed.

End GeoTIFFTileFacts.

(** ** The per-tile texture binding *)

Module TileTextureFacts.
Import JsNum JsNumFacts Eff EffFacts TileTexture.

(** *** Counting the calls *)

Lemma count_calls_log (p : GLCall -> bool) (c : GLCall) (w : World) :
  count_calls p (log_call c w) = count_calls p w + (if p c then 1 else 0).
Proof.
  unfold count_calls, log_call. cbn [gl_calls].
  rewrite filter_app, length_app. f_equal.
  cbn [filter list_filter]. destruct (decide (p c = true)) as [->|Hc]; [reflexivity|].
  destruct (p c); [congruence | reflexivity].
Qed.

(** The bytes per pixel of a data tile of [c] bytes for each of [n > 0]
    pixels. *)
Lemma bytesPerPixel_exact (c n : nat) :
  0 < n ->
  exists q, div (of_nat (c * n)) (of_nat n) = Fin q /\ (q == inject_Z (Z.of_nat c))%Q.
Proof.
  intros Hn. unfold div, of_nat, of_Z.
  assert (Hnz : ~ (inject_Z (Z.of_nat n) == 0)%Q).
  { unfold Qeq. simpl. lia. }
  destruct (Qeq_bool (inject_Z (Z.of_nat n)) 0) eqn:E.
  - apply Qeq_bool_iff in E. contradiction.
  - eexists. split; [reflexivity|].
    rewrite Nat2Z.inj_mul, inject_Z_mult. field. exact Hnz.
Qed.

Lemma eqb_Fin_int (q : Q) (a b : Z) :
  (q == inject_Z a)%Q -> eqb (Fin q) (of_Z b) = Z.eqb a b.
Proof.
  intros Hq. unfold eqb, of_Z.
  destruct (Z.eqb_spec a b) as [->|Hne].
  - apply Qeq_bool_iff. exact Hq.
  - destruct (Qeq_bool q (inject_Z b)) eqn:E; [|reflexivity].
    apply Qeq_bool_iff in E. rewrite Hq in E.
    unfold Qeq in E. simpl in E. exfalso. lia.
Qed.

Lemma data_upload_is_no_placeholder (format : Format) (width height : nat) :
  is_placeholder_upload (texImage2D_pixels format width height TileData) = false.
Proof. destruct format, width as [|[|?]], height as [|[|?]]; reflexivity. Qed.

(** *** The upload of a tile *)

(** The upload of an uploadable tile returns; it is one full upload and
    touches nothing but the log of calls. *)
Lemma uploadTile_uploadable (w : World) :
  uploadable (tile_kind w) (size w) ->
  exists w',
    uploadTile_ w = (w', inr tt) /\
    full_uploads w' = S (full_uploads w) /\
    placeholder_uploads w' = placeholder_uploads w /\
    tile_kind w' = tile_kind w /\ size w' = size w /\
    tile_state w' = tile_state w /\ tile_listeners w' = tile_listeners w /\
    dispatched w' = dispatched w /\ loaded w' = loaded w.
Proof.
  intros Hup. unfold uploadTile_, bind, get.
  destruct (tile_kind w) as [|byteLength|] eqn:Hk; [| |destruct Hup].
  - eexists. split; [reflexivity|].
    unfold full_uploads, placeholder_uploads.
    rewrite !count_calls_log. cbn. rewrite Hk. repeat split; lia.
  - destruct Hup as [Hn Hbytes].
    assert (Hfmt : exists format,
              (if eqb (div (of_nat byteLength) (of_nat ((size w).1 * (size w).2)))
                    (of_Z 1)
               then ret LUMINANCE
               else if eqb (div (of_nat byteLength)
                              (of_nat ((size w).1 * (size w).2))) (of_Z 3)
               then ret RGB
               else if eqb (div (of_nat byteLength)
                              (of_nat ((size w).1 * (size w).2))) (of_Z 4)
               then ret RGBA
               else throw (UnsupportedBytesPerPixel
                             (div (of_nat byteLength)
                                (of_nat ((size w).1 * (size w).2)))))
              = (ret format : Cmd Format)).
    { destruct Hbytes as [->|[->| ->]];
        [destruct (bytesPerPixel_exact 1 _ Hn) as (q & -> & Hq)
        |destruct (bytesPerPixel_exact 3 _ Hn) as (q & -> & Hq)
        |destruct (bytesPerPixel_exact 4 _ Hn) as (q & -> & Hq)];
        rewrite !(eqb_Fin_int _ _ _ Hq); cbn; eexists; reflexivity. }
    destruct Hfmt as [format Hfmt].
    unfold uploadDataTexture, bind. cbn [bindAndConfigure].
    rewrite Hfmt.
    eexists. split; [reflexivity|].
    unfold full_uploads, placeholder_uploads.
    rewrite !count_calls_log, data_upload_is_no_placeholder. cbn. rewrite Hk.
    repeat split; lia.
Qed.

Lemma registrations_handler (ls : list Listener) :
  registrations (handleTileChange_bound :: ls) = S (registrations ls).
Proof. reflexivity. Qed.

Lemma registrations_other (id : nat) (ls : list Listener) :
  registrations (other_listener id :: ls) = registrations ls.
Proof. reflexivity. Qed.

(** *** The handler *)

Lemma handleTileChange_loaded (w : World) :
  uploadable (tile_kind w) (size w) ->
  tile_state w = LOADED ->
  exists w',
    handleTileChange_ w = (w', inr tt) /\
    same_tile w w' /\ uploaded 1 w w' /\ tile_state w' = LOADED.
Proof.
  intros Hup Hstate. unfold handleTileChange_, bind at 1, get.
  rewrite Hstate. cbn [TileState_eqb].
  destruct (uploadTile_uploadable (set_loaded true w) Hup)
    as (w1 & Hrun & Hfull & Hblank & Hkind & Hsize & Hst & Hls & Hdis & _).
  unfold bind at 1. unfold modify at 1. unfold bind at 1. rewrite Hrun.
  eexists. split; [reflexivity|].
  unfold same_tile, uploaded, full_uploads, placeholder_uploads, count_calls
    in *.
  cbn in *. rewrite Hkind, Hsize, Hls, Hblank, Hfull, Hdis, Hst.
  repeat split; try lia. exact Hstate.
Qed.

Lemma handleTileChange_pending (w : World) :
  tile_state w <> LOADED -> handleTileChange_ w = (w, inr tt).
Proof.
  intros Hstate. unfold handleTileChange_, bind, get.
  destruct (tile_state w); try reflexivity. congruence.
Qed.

(** A dispatch of the tile runs the handler once for every registration
    of it, and the handler uploads when the tile is loaded. *)
Lemma call_listeners_uploads (ls : list Listener) :
  forall w : World,
    uploadable (tile_kind w) (size w) ->
    exists w',
      call_listeners ls w = (w', inr tt) /\
      same_tile w w' /\ tile_state w' = tile_state w /\
      uploaded (if TileState_eqb (tile_state w) LOADED then registrations ls else 0)
        w w'.
Proof.
  induction ls as [|l ls IH]; intros w Hup.
  - exists w. split; [reflexivity|].
    unfold same_tile, uploaded. destruct (TileState_eqb _ _); cbn; repeat split; lia.
  - destruct l as [|id].
    + cbn [call_listeners].
      destruct (TileState_eqb (tile_state w) LOADED) eqn:Hstate.
      * assert (Hloaded : tile_state w = LOADED)
          by (destruct (tile_state w); try discriminate; reflexivity).
        destruct (handleTileChange_loaded w Hup Hloaded)
          as (w1 & Hrun & (Hk & Hs & Hl & Hb) & [Hf Hd] & Hst).
        rewrite (bind_ok _ _ _ _ _ Hrun).
        destruct (IH w1) as (w' & Hrest & (Hk' & Hs' & Hl' & Hb') & Hst' & [Hf' Hd']).
        { rewrite Hk, Hs. exact Hup. }
        exists w'. split; [exact Hrest|].
        rewrite Hst in Hf', Hd'. cbn [TileState_eqb] in Hf', Hd'.
        rewrite registrations_handler.
        unfold same_tile, uploaded in *.
        repeat split; try congruence; lia.
      * assert (Hpending : tile_state w <> LOADED)
          by (intros E; rewrite E in Hstate; discriminate).
        rewrite (bind_ok _ _ _ _ _ (handleTileChange_pending w Hpending)).
        destruct (IH w Hup) as (w' & Hrest & Hsame & Hst' & Hupl).
        rewrite Hstate in Hupl. exists w'. auto.
    + cbn [call_listeners]. rewrite registrations_other.
      destruct (IH w Hup) as (w' & Hrest & Hsame & Hst' & Hupl).
      exists w'. split; [exact Hrest|]. split; [exact Hsame|].
      split; [exact Hst'|]. exact Hupl.
Qed.

(** *** The events *)

Lemma handle_TileChange (s : TileState) (w : World) :
  uploadable (tile_kind w) (size w) ->
  same_tile w (handle (TileChange s) w).1 /\
  uploaded (if TileState_eqb s LOADED then registrations (tile_listeners w) else 0)
    w (handle (TileChange s) w).1.
Proof.
  intros Hup.
  assert (Hh : handle (TileChange s) w
               = call_listeners (tile_listeners w) (set_tile_state s w))
    by reflexivity.
  destruct (call_listeners_uploads (tile_listeners w) (set_tile_state s w) Hup)
    as (w' & Hrun & Hsame & _ & Hupl).
  rewrite Hh, Hrun. cbn [fst]. split; [exact Hsame | exact Hupl].
Qed.

Lemma removeEventListener_registrations (ls : list Listener) :
  registrations (removeEventListener handleTileChange_bound ls) = 0.
Proof.
  unfold registrations, removeEventListener.
  induction ls as [|l ls IH]; [reflexivity|].
  destruct l as [|id]; cbn; [exact IH|].
  rewrite decide_True by reflexivity. cbn. exact IH.
Qed.

Lemma handle_Dispose (w : World) :
  let w' := (handle Dispose w).1 in
  tile_kind w' = tile_kind w /\ size w' = size w /\
  registrations (tile_listeners w') = 0 /\
  placeholder_uploads w' = placeholder_uploads w /\
  uploaded 0 w w'.
Proof.
  intros w'.
  assert (Hh : w' = set_tile_listeners
                      (removeEventListener handleTileChange_bound (tile_listeners w))
                      (log_call deleteTexture (log_call deleteBuffer w)))
    by reflexivity.
  rewrite Hh. clear Hh w'.
  unfold uploaded, placeholder_uploads, full_uploads.
  change (count_calls ?p (set_tile_listeners ?ls ?x)) with (count_calls p x).
  rewrite !count_calls_log. cbn [set_tile_listeners tile_listeners].
  rewrite removeEventListener_registrations. cbn. repeat split; lia.
Qed.

(** Once the handler is not registered, no event uploads. *)
Lemma run_unregistered (evs : list Event) :
  forall w : World,
    uploadable (tile_kind w) (size w) ->
    registrations (tile_listeners w) = 0 ->
    placeholder_uploads (run evs w) = placeholder_uploads w /\
    uploaded 0 w (run evs w).
Proof.
  induction evs as [|ev evs IH]; intros w Hup Hreg.
  - unfold uploaded. cbn. repeat split; lia.
  - unfold run. cbn [fold_left]. fold (run evs (handle ev w).1).
    destruct ev as [s|].
    + destruct (handle_TileChange s w Hup) as [(Hk & Hs & Hl & Hb) [Hf Hd]].
      rewrite Hreg in Hf, Hd.
      destruct (IH (handle (TileChange s) w).1) as (Hb' & Hf' & Hd').
      { rewrite Hk, Hs. exact Hup. }
      { rewrite Hl. exact Hreg. }
      unfold uploaded. destruct (TileState_eqb s LOADED); repeat split; lia.
    + destruct (handle_Dispose w) as (Hk & Hs & Hr & Hb & Hf & Hd).
      destruct (IH (handle Dispose w).1) as (Hb' & Hf' & Hd').
      { rewrite Hk, Hs. exact Hup. }
      { exact Hr. }
      unfold uploaded. repeat split; lia.
Qed.

(** While the handler is registered once, every notification that the
    tile is loaded uploads once. *)
Lemma run_registered (evs : list Event) :
  forall w : World,
    uploadable (tile_kind w) (size w) ->
    registrations (tile_listeners w) = 1 ->
    placeholder_uploads (run evs w) = placeholder_uploads w /\
    uploaded (loaded_notifications evs) w (run evs w).
Proof.
  induction evs as [|ev evs IH]; intros w Hup Hreg.
  - unfold uploaded. cbn. repeat split; lia.
  - unfold run. cbn [fold_left]. fold (run evs (handle ev w).1).
    destruct ev as [s|].
    + destruct (handle_TileChange s w Hup) as [(Hk & Hs & Hl & Hb) [Hf Hd]].
      rewrite Hreg in Hf, Hd.
      destruct (IH (handle (TileChange s) w).1) as (Hb' & Hf' & Hd').
      { rewrite Hk, Hs. exact Hup. }
      { rewrite Hl. exact Hreg. }
      unfold uploaded. destruct s; cbn in *; repeat split; lia.
    + destruct (handle_Dispose w) as (Hk & Hs & Hr & Hb & Hf & Hd).
      destruct (run_unregistered evs (handle Dispose w).1) as (Hb' & Hf' & Hd').
      { rewrite Hk, Hs. exact Hup. }
      { exact Hr. }
      unfold uploaded. cbn [loaded_notifications]. repeat split; lia.
Qed.

(** *** The constructor *)

Lemma addEventListener_others (others : list nat) :
  addEventListener handleTileChange_bound (other_listener <$> others)
  = (other_listener <$> others) ++ [handleTileChange_bound].
Proof.
  unfold addEventListener.
  replace (existsb (Listener_eqb handleTileChange_bound) (other_listener <$> others))
    with false; [reflexivity|].
  induction others as [|id others IH]; [reflexivity | exact IH].
Qed.

Lemma registrations_others (others : list nat) :
  registrations ((other_listener <$> others) ++ [handleTileChange_bound]) = 1.
Proof.
  induction others as [|id others IH]; [reflexivity|].
  change (registrations (other_listener id ::
            ((other_listener <$> others) ++ [handleTileChange_bound])) = 1).
  rewrite registrations_other. exact IH.
Qed.

(** The constructor over a tile that is not loaded uploads the
    placeholder and registers the handler. *)
Lemma constructed_pending (k : TileKind) (s : TileState) (others : list nat)
    (size : nat * nat) :
  s <> LOADED ->
  let w0 := constructed k s others size in
  tile_kind w0 = k /\ TileTexture.size w0 = size /\
  registrations (tile_listeners w0) = 1 /\
  placeholder_uploads w0 = 1 /\ full_uploads w0 = 0 /\ dispatched w0 = 0 /\
  loaded w0 = false.
Proof.
  intros Hs w0.
  assert (Hw0 : w0 =
    set_tile_listeners
      (addEventListener handleTileChange_bound (other_listener <$> others))
      (log_call (texImage2D_pixels RGBA 1 1 Blank)
         (log_call bindTexture
            (log_call createTexture
               (log_call flushBufferData
                  (set_loaded false (before_construction k s others size))))))).
  { subst w0. unfold constructed, constructor, bind at 1, get at 1.
    cbn [before_construction tile_state].
    destruct s; try reflexivity. congruence. }
  rewrite Hw0. cbn [set_tile_listeners tile_listeners tile_kind TileTexture.size
                    log_call set_loaded before_construction dispatched loaded].
  rewrite addEventListener_others, registrations_others.
  repeat split.
Qed.

(** C3, as the code has it.  Over a tile that is not loaded and that can
    be uploaded (an image tile, or a data tile of 1, 3 or 4 bytes per
    pixel), the constructor uploads the placeholder once and the tile
    never.  After any sequence of events, the placeholder has been
    uploaded once, and the full uploads, each followed by one change
    notification of the texture, are as many as the notifications that
    found the tile loaded before the texture was disposed: the handler
    stays registered until then.  So the first such notification gives
    one upload and one change notification, a second one gives a second
    upload, and after a disposal that comes first there is none. *)
Theorem texture_lifecycle (k : TileKind) (s : TileState) (others : list nat)
    (size : nat * nat) (evs : list Event) :
  s <> LOADED ->
  uploadable k size ->
  let w0 := constructed k s others size in
  placeholder_uploads w0 = 1 /\
  full_uploads w0 = 0 /\
  placeholder_uploads (run evs w0) = 1 /\
  full_uploads (run evs w0) = loaded_notifications evs /\
  dispatched (run evs w0) = loaded_notifications evs /\
  (full_uploads (run [TileChange LOADED] w0) = 1 /\
   dispatched (run [TileChange LOADED] w0) = 1) /\
  full_uploads (run (Dispose :: evs) w0) = 0.
Proof.
  intros Hs Hup w0.
  destruct (constructed_pending k s others size Hs)
    as (Hk & Hsize & Hreg & Hblank & Hfull & Hdis & _).
  fold w0 in Hk, Hsize, Hreg, Hblank, Hfull, Hdis.
  assert (Hup0 : uploadable (tile_kind w0) (TileTexture.size w0))
    by (rewrite Hk, Hsize; exact Hup).
  assert (Hrun : forall evs',
            placeholder_uploads (run evs' w0) = 1 /\
            full_uploads (run evs' w0) = loaded_notifications evs' /\
            dispatched (run evs' w0) = loaded_notifications evs').
  { intros evs'. destruct (run_registered evs' w0 Hup0 Hreg) as (Hb & Hf & Hd).
    repeat split; lia. }
  split; [exact Hblank|]. split; [exact Hfull|].
  destruct (Hrun evs) as (Hb & Hf & Hd).
  split; [exact Hb|]. split; [exact Hf|]. split; [exact Hd|].
  split.
  - destruct (Hrun [TileChange LOADED]) as (_ & Hf1 & Hd1). split; assumption.
  - destruct (Hrun (Dispose :: evs)) as (_ & Hf0 & _). exact Hf0.
Qed.

Lemma texture_lifecycle_witness :
  uploadable (DataTile 16) (2, 2) /\
  let w0 := constructed (DataTile 16) IDLE [7] (2, 2) in
  let evs := [TileChange LOADING; TileChange LOADED; Dispose; TileChange LOADED] in
  placeholder_uploads w0 = 1 /\
  full_uploads w0 = 0 /\
  placeholder_uploads (run evs w0) = 1 /\
  full_uploads (run evs w0) = 1 /\
  dispatched (run evs w0) = 1 /\
  (full_uploads (run [TileChange LOADED] w0) = 1 /\
   dispatched (run [TileChange LOADED] w0) = 1) /\
  full_uploads (run (Dispose :: evs) w0) = 0.
Proof.
  assert (Hup : uploadable (DataTile 16) (2, 2)).
  { split; [cbn; lia | right; right; reflexivity]. }
  split; [exact Hup|].
  apply (texture_lifecycle (DataTile 16) IDLE [7] (2, 2)
           [TileChange LOADING; TileChange LOADED; Dispose; TileChange LOADED]);
    [discriminate | exact Hup].
Defined.

(** C3 does not hold as stated: the handler is not removed when it has
    run, and a second notification of a loaded tile uploads the tile a
    second time. *)
Lemma lifecycle_claim_fails : ~ lifecycle_claim.
Proof.
  intros Hclaim.
  destruct (Hclaim ImageTile IDLE [] (256, 256)) as (_ & _ & Honce & _);
    [discriminate|].
  destruct (Honce [LOADED]) as [Hfull _].
  vm_compute in Hfull. discriminate.
Qed.

Example second_notification_uploads_again :
  let w := run [TileChange LOADED; TileChange LOADED]
             (constructed ImageTile IDLE [] (256, 256)) in
  full_uploads w = 2 /\ dispatched w = 2.
Proof. split; reflexivity. Qed.

(** A data tile of two bytes per pixel is never uploaded: the upload
    throws. *)
Example unsupported_tile_is_not_uploaded :
  let w0 := constructed (DataTile 8) IDLE [] (2, 2) in
  (handle (TileChange LOADED) w0).2 = inl (UnsupportedBytesPerPixel (Fin (8 # 4))) /\
  full_uploads (run [TileChange LOADED] w0) = 0.
Proof. split; reflexivity. Qed.

End TileTextureFacts.

(** ** The tile matrix set resolver *)

Module OGCMapTileFacts.
Import JsNum JsNumFacts OGCMapTile.

(** *** The derived grid *)

Section Grid.

Variable getProjection : string -> option Projection.

Lemma handleTileMatrixSetResponse_resolved tileMatrixSet this projection :
  resolve_projection getProjection tileMatrixSet this = Some projection ->
  let this' := handleTileMatrixSetResponse getProjection tileMatrixSet this in
  state this' = READY /\
  tileGrid this' = Some (grid_of projection (tileMatrix tileMatrixSet)).
Proof.
  intros Hp. unfold handleTileMatrixSetResponse. rewrite Hp. simpl. auto.
Qed.

(** Scaling by the positive constant and dividing by a positive number
    of meters per unit keeps the strict order of two scale
    denominators. *)
Lemma resolution_of_lt (m : Q) (a b : TileMatrix) :
  (0 < m)%Q ->
  ltb (scaleDenominator b) (scaleDenominator a) = true ->
  ltb (resolution_of (Fin m) b) (resolution_of (Fin m) a) = true.
Proof.
  intros Hm Hlt. unfold resolution_of.
  assert (Hm0 : Qeq_bool m 0 = false).
  { destruct (Qeq_bool m 0) eqn:E; [|reflexivity].
    apply Qeq_bool_iff in E. rewrite E in Hm. exfalso.
    exact (Qlt_irrefl _ Hm). }
  assert (Hm1 : Qle_bool 0 m = true).
  { apply Qle_bool_iff. apply Qlt_le_weak. exact Hm. }
  destruct (scaleDenominator a) as [x| | |], (scaleDenominator b) as [y| | |];
    simpl in Hlt; try discriminate; simpl; rewrite ?Hm0, ?Hm1; try reflexivity.
  apply ltb_Fin. apply ltb_Fin in Hlt.
  unfold Qdiv. apply Qmult_lt_compat_r.
  - apply Qinv_lt_0_compat. exact Hm.
  - apply Qmult_lt_compat_r; [reflexivity | exact Hlt].
Qed.



End Grid.



(** *** The tileset description *)

Lemma find_tileMatrixSetURI_unknown (id : string)
    (tileMatrixSetLinks : list TileMatrixSetLink) :
  (forall l, l ∈ tileMatrixSetLinks -> tileMatrixSet l <> id) ->
  find_tileMatrixSetURI id tileMatrixSetLinks = None.
Proof.
  induction tileMatrixSetLinks as [|candidate candidates IH]; intros Hno;
    [reflexivity|].
  simpl. destruct (String.eqb_spec (tileMatrixSet candidate) id) as [Heq|_].
  - exfalso. apply (Hno candidate); [left | exact Heq].
  - apply IH. intros l Hl. apply Hno. right. exact Hl.
Qed.

Lemma prefix_refl (s : string) : String.prefix s s = true.
Proof.
  induction s as [|c s IH]; [reflexivity|]. simpl.
  destruct (Ascii.ascii_dec c c); [exact IH | congruence].
Qed.

Lemma occurs_in_prefix (id message : string) :
  String.prefix id message = true -> occurs_in id message = true.
Proof. intros H. destruct message; cbn [occurs_in]; rewrite H; reflexivity. Qed.

Lemma occurs_in_app (id pre : string) : occurs_in id (pre +:+ id) = true.
Proof.
  induction pre as [|c pre IH].
  - apply occurs_in_prefix. apply prefix_refl.
  - change (occurs_in id (String c (pre +:+ id)) = true).
    cbn [occurs_in]. rewrite IH. apply orb_true_r.
Qed.

(** C6, as the code has it.  When no link of the tileset is for the
    requested matrix set, the resolver ends in the ERROR state and sends
    no request; the error it logs is the one for the first check that
    fails: if the tileset has an item link with a template, the message
    names the requested id, otherwise the message is the one for the
    missing item link. *)
Theorem unknown_matrix_set_is_an_error (info : TilesInfo) (this : OGCMapTile) :
  no_link_for (this_tileMatrixSet this) info ->
  let this' := handleTilesInfoResponse info this in
  state this' = ERROR /\
  requests this' = requests this /\
  (falsy (find_item (links info)) = false ->
   console this' =
     console this ++ ["could not find tileMatrixSet: " +:+ this_tileMatrixSet this] /\
   occurs_in (this_tileMatrixSet this)
     ("could not find tileMatrixSet: " +:+ this_tileMatrixSet this) = true) /\
  (falsy (find_item (links info)) = true ->
   console this' = console this ++ ["could not find item link"]).
Proof.
  intros Hno this'. subst this'. unfold handleTilesInfoResponse.
  destruct (falsy (find_item (links info))) eqn:Hitem.
  - split; [reflexivity|]. split; [reflexivity|].
    split; [discriminate|]. intros _. reflexivity.
  - cbn [this_tileMatrixSet set_tileUrlTemplate].
    rewrite (find_tileMatrixSetURI_unknown _ _ Hno). cbn [falsy].
    split; [reflexivity|]. split; [reflexivity|].
    split; [|discriminate]. intros _. split; [reflexivity|].
    apply occurs_in_app.
Qed.

Lemma unknown_matrix_set_is_an_error_witness :
  no_link_for (this_tileMatrixSet loading) tileset_without_quad /\
  state (handleTilesInfoResponse tileset_without_quad loading) = ERROR /\
  requests (handleTilesInfoResponse tileset_without_quad loading)
    = requests loading /\
  console (handleTilesInfoResponse tileset_without_quad loading)
    = ["could not find tileMatrixSet: WebMercatorQuad"].
Proof.
  assert (Hno : no_link_for (this_tileMatrixSet loading) tileset_without_quad).
  { intros l Hl. apply list_elem_of_In in Hl. simpl in Hl.
    destruct Hl as [<-|[]]. discriminate. }
  split; [exact Hno|].
  destruct (unknown_matrix_set_is_an_error tileset_without_quad loading Hno)
    as (Hstate & Hreq & Hnamed & _).
  split; [exact Hstate|]. split; [exact Hreq|].
  exact (proj1 (Hnamed eq_refl)).
Defined.

(** C6 does not hold as stated: a tileset without an item link is
    rejected for that, and the message does not name the matrix set. *)
Lemma unknown_matrix_set_claim_fails : ~ unknown_matrix_set_claim.
Proof.
  intros Hclaim.
  destruct (Hclaim tileset_without_links loading) as (_ & _ & message & Hc & Hm).
  { intros l Hl. apply list_elem_of_In in Hl. destruct Hl. }
  simpl in Hc. injection Hc as <-. vm_compute in Hm. discriminate.
Qed.

(** *** The tile URL function *)

Lemma append_assoc (a b c : string) : (a +:+ b) +:+ c = a +:+ (b +:+ c).
Proof.
  induction a as [|x a IH]; [reflexivity|].
  change (String x ((a +:+ b) +:+ c) = String x (a +:+ b +:+ c)).
  rewrite IH. reflexivity.
Qed.

Lemma append_empty (a : string) : a +:+ EmptyString = a.
Proof.
  induction a as [|x a IH]; [reflexivity|].
  change (String x (a +:+ EmptyString) = String x a). rewrite IH. reflexivity.
Qed.

(** Text without an opening brace is copied. *)
Lemma replace_from_plain (f : string -> string) (pre t : string) :
  no_brace pre = true ->
  replace_from f None (pre +:+ t) = pre +:+ replace_from f None t.
Proof.
  induction pre as [|c pre IH]; intros Hpre; [reflexivity|].
  simpl in Hpre. apply andb_true_iff in Hpre as [Hc Hpre].
  apply negb_true_iff in Hc.
  change (replace_from f None (String c (pre +:+ t))
          = String c (pre +:+ replace_from f None t)).
  cbn [replace_from]. rewrite Hc, (IH Hpre). reflexivity.
Qed.

(** Word characters extend the open match. *)
Lemma replace_from_word (f : string -> string) (k p t : string) :
  all_word k = true ->
  replace_from f (Some p) (k +:+ t) = replace_from f (Some (p +:+ k)) t.
Proof.
  revert p. induction k as [|c k IH]; intros p Hk.
  - rewrite append_empty. reflexivity.
  - simpl in Hk. apply andb_true_iff in Hk as [Hc Hk].
    change (replace_from f (Some p) (String c (k +:+ t))
            = replace_from f (Some (p +:+ String c k)) t).
    cbn [replace_from]. rewrite Hc, (IH _ Hk), append_assoc. reflexivity.
Qed.

(** A closing brace after a name ends the match: the name is replaced. *)
Lemma replace_from_close (f : string -> string) (p t : string) :
  p <> EmptyString ->
  replace_from f (Some p) ("}" +:+ t) = f p +:+ replace_from f None t.
Proof.
  intros Hp. apply String.eqb_neq in Hp.
  change (replace_from f (Some p) (String "}" t) = f p +:+ replace_from f None t).
  cbn [replace_from]. rewrite Hp. reflexivity.
Qed.

Lemma replace_placeholder (f : string -> string) (pre k post : string) :
  no_brace pre = true -> placeholder_name k ->
  replace_placeholders f (pre +:+ "{" +:+ k +:+ "}" +:+ post)
  = pre +:+ f k +:+ replace_placeholders f post.
Proof.
  intros Hpre [Hk Hword]. unfold replace_placeholders.
  rewrite (replace_from_plain _ _ _ Hpre). f_equal.
  change (replace_from f (Some EmptyString) (k +:+ "}" +:+ post)
          = f k +:+ replace_from f None post).
  rewrite (replace_from_word _ _ _ _ Hword).
  change (EmptyString +:+ k) with k. apply replace_from_close. exact Hk.
Qed.

(** Every placeholder of a template is replaced by what the callback
    returns for its name; the text between placeholders is copied. *)
Lemma replace_segments (f : string -> string) (segments : list Segment) :
  Forall well_formed_segment segments ->
  replace_placeholders f (template_of segments) = render f segments.
Proof.
  induction segments as [|segment segments IH]; intros Hwf; [reflexivity|].
  apply Forall_cons in Hwf as [Hsegment Hwf].
  destruct segment as [t|k]; cbn [template_of render].
  - unfold replace_placeholders. rewrite (replace_from_plain _ _ _ Hsegment).
    f_equal. apply IH. exact Hwf.
  - pose proof (replace_placeholder f EmptyString k (template_of segments)
                  eq_refl Hsegment) as Hk.
    change (EmptyString +:+ "{" +:+ k +:+ "}" +:+ template_of segments)
      with ("{" +:+ k +:+ "}" +:+ template_of segments) in Hk.
    rewrite Hk. change (EmptyString +:+ ?x) with x. f_equal. apply IH. exact Hwf.
Qed.

(** A key of the caller's context keeps the caller's value in the merged
    object. *)
Lemma assign_context (target context : gmap string jsval) (k : string) (v : jsval) :
  context !! k = Some v -> property (assign target (Some context)) k = v.
Proof.
  intros Hk. unfold property, assign.
  rewrite (lookup_union_Some_l _ _ _ _ Hk). reflexivity.
Qed.

(** A key the caller's context lacks keeps the computed value. *)
Lemma assign_computed (target context : gmap string jsval) (k : string) :
  context !! k = None ->
  property (assign target (Some context)) k = property target k.
Proof.
  intros Hk. unfold property, assign. rewrite lookup_union_r; [reflexivity|exact Hk].
Qed.

(** The two responses resolve the source: it is READY, it has sent its two
    requests and logged nothing. *)
Example resolution_of_the_quad :
  state resolved = READY /\
  requests resolved
  = [get_json "https://maps.example.org/tiles";
     get_json "https://maps.example.org/tileMatrixSets/WebMercatorQuad"] /\
  console resolved = [].
Proof. repeat split. Qed.

(** The tile URL of column 3 and row 2 of the matrix ["2"]. *)
Example tile_url_of_the_quad :
  (fun f => tile_url f (Some (2, 3, 2)%Z)) <$> tileUrlFunction resolved
  = Some (Url "WebMercatorQuad/2/3/2").
Proof. reflexivity. Qed.

(** A falsy tile coordinate has no URL, and a level without a matrix
    throws. *)
Example tile_url_without_coordinate :
  (fun f => tile_url f None) <$> tileUrlFunction resolved = Some NoUrl.
Proof. reflexivity. Qed.

Example tile_url_of_unknown_level :
  (fun f => tile_url f (Some (3, 0, 0)%Z)) <$> tileUrlFunction resolved
  = Some ThrowsTypeError.
Proof. reflexivity. Qed.



End OGCMapTileFacts.

(** * Further properties of the code

    Properties of the same three files that their specification does
    not state: what [assertEqual] compares, what a configuration leaves
    of a source, how samples are rescaled, which tiles can be uploaded,
    and how the resolver goes from its two answers to the tile URLs. *)

(** ** What [assertEqual] compares *)

Module AssertEqualFacts.
Import JsNum JsNumFacts Eff EffFacts GeoTIFF GeoTIFFTerms.

(** Induction on a value, with the hypothesis for every element of an
    array. *)
Lemma jv_nested_ind (P : jv -> Prop) :
  (forall n, P (Num n)) ->
  (forall l, Forall P l -> P (Arr l)) ->
  P Undefined ->
  forall v, P v.
Proof.
  intros HNum HArr HUndef. fix IH 1. intros [n|l|].
  - apply HNum.
  - apply HArr. induction l as [|x l IHl]; constructor; [apply IH | exact IHl].
  - exact HUndef.
Qed.

(** Two arrays pass when they have the same length and their elements
    pass in pairs. *)
Lemma passes_Arr (es gs : list jv) :
  assertEqual_passes (Arr es) (Arr gs) = true <->
  Forall2 (fun e g => assertEqual_passes e g = true) es gs.
Proof.
  cbn [assertEqual_passes]. rewrite andb_true_iff, Nat.eqb_eq.
  revert gs. induction es as [|e es IH]; intros [|g gs]; cbn [length].
  - split; [constructor | auto].
  - split; [intros [? _]; discriminate | intros H; inversion H].
  - split; [intros [? _]; discriminate | intros H; inversion H].
  - rewrite andb_true_iff. split.
    + intros [Hlen [He Hes]]. constructor; [exact He|].
      apply IH. split; [lia | exact Hes].
    + intros H. inversion H as [|? ? ? ? He Hes]; subst.
      apply IH in Hes as [Hlen Hes]. split; [lia|]. split; assumption.
Qed.

Lemma eqb_sym (a b : num) : eqb a b = eqb b a.
Proof.
  destruct a as [x| | |], b as [y| | |]; try reflexivity. unfold eqb.
  destruct (Qeq_bool x y) eqn:E, (Qeq_bool y x) eqn:E'; try reflexivity.
  - apply Qeq_bool_iff in E. symmetry in E. apply Qeq_bool_iff in E. congruence.
  - apply Qeq_bool_iff in E'. symmetry in E'. apply Qeq_bool_iff in E'. congruence.
Qed.

Lemma eqb_trans (a b c : num) : eqb a b = true -> eqb b c = true -> eqb a c = true.
Proof.
  destruct a as [x| | |], b as [y| | |], c as [z| | |]; try discriminate;
    try reflexivity.
  unfold eqb. rewrite !Qeq_bool_iff. intros -> ->. reflexivity.
Qed.

Lemma passes_sym_true (a : jv) :
  forall b, assertEqual_passes a b = true -> assertEqual_passes b a = true.
Proof.
  induction a as [n|l IH|] using jv_nested_ind; intros [m|l'|]; try discriminate.
  - cbn [assertEqual_passes]. rewrite eqb_sym. auto.
  - rewrite !passes_Arr. intros H. revert l' H.
    induction IH as [|a l Ha _ IHl]; intros l' H; inversion H; subst;
      constructor; auto.
  - auto.
Qed.

Lemma passes_trans (a : jv) :
  forall b c,
    assertEqual_passes a b = true -> assertEqual_passes b c = true ->
    assertEqual_passes a c = true.
Proof.
  induction a as [n|l IH|] using jv_nested_ind; intros [m|l'|] [k|l''|];
    try discriminate; try reflexivity.
  - cbn [assertEqual_passes]. apply eqb_trans.
  - rewrite !passes_Arr. intros H H'. revert l' l'' H H'.
    induction IH as [|a l Ha _ IHl]; intros l' l'' H H';
      inversion H; subst; inversion H'; subst; constructor; eauto.
Qed.

(** X1.  [assertEqual] is symmetric and transitive: whether it throws does
    not depend on which of the two values is the expected one, and two
    values that each pass against a third pass against each other. *)
Theorem assertEqual_partial_equivalence (a b c : jv) :
  assertEqual_passes a b = assertEqual_passes b a /\
  (assertEqual_passes a b = true -> assertEqual_passes b c = true ->
   assertEqual_passes a c = true).
Proof.
  split; [|apply passes_trans].
  destruct (assertEqual_passes a b) eqn:Hab, (assertEqual_passes b a) eqn:Hba;
    try reflexivity.
  - apply passes_sym_true in Hab. congruence.
  - apply passes_sym_true in Hba. congruence.
Qed.

(** X2.  a value passes against itself exactly when it holds no [NaN]. *)
Theorem assertEqual_reflexive_without_NaN (v : jv) :
  assertEqual_passes v v = nan_free v.
Proof.
  induction v as [n|l IH|] using jv_nested_ind.
  - destruct n as [q| | |]; try reflexivity.
    cbn. apply Qeq_bool_iff. reflexivity.
  - cbn [nan_free].
    destruct (forallb nan_free l) eqn:Hall.
    + apply passes_Arr. rewrite forallb_forall in Hall.
      induction IH as [|a l Ha _ IHl]; constructor.
      * rewrite Ha. apply Hall. left. reflexivity.
      * apply IHl. intros x Hx. apply Hall. right. exact Hx.
    + destruct (assertEqual_passes (Arr l) (Arr l)) eqn:Hp; [|reflexivity].
      apply passes_Arr in Hp.
      assert (forallb nan_free l = true); [|congruence].
      apply forallb_forall. intros x Hx.
      induction IH as [|a l Ha _ IHl]; [destruct Hx|].
      inversion Hp; subst. cbn [forallb] in Hall.
      destruct Hx as [<-|Hx]; [congruence|].
      apply IHl; try assumption.
      destruct (nan_free a); [exact Hall|]. 
      exfalso. congruence.
  - reflexivity.
Qed.

End AssertEqualFacts.

(** ** What a configuration leaves of a source *)

Module ConfigurationFacts.
Import JsNum JsNumFacts Eff EffFacts GeoTIFF GeoTIFFTerms GeoTIFFSamples AssertEqualFacts.

Section Configuration.

Context {Projection : Type} (getProjection : string -> option Projection).

Abbreviation Source := (GeoTIFFSource (Projection := Projection)).

(** *** What the loops leave of [this] *)

Lemma assertEqual_state (e g : jv) (m : Error) (this : Source) :
  (assertEqual e g m this).1 = this.
Proof. unfold assertEqual. destruct (assertEqual_passes e g); reflexivity. Qed.

Lemma assertEqual_inr (e g : jv) (m : Error) (this this' : Source) u :
  assertEqual e g m this = (this', inr u) ->
  this' = this /\ assertEqual_passes e g = true.
Proof.
  unfold assertEqual. destruct (assertEqual_passes e g); [|discriminate].
  intros [= <- _]. auto.
Qed.

Lemma image_step_state sourceIndex imageCount imageIndex image acc (this : Source) :
  (image_step sourceIndex imageCount imageIndex image acc this).1 = this.
Proof.
  unfold image_step. destruct (truthy acc.1); cbn [negb].
  - unfold bind at 1. unfold bind at 1. unfold assertEqual.
    destruct (assertEqual_passes _ _); reflexivity.
  - reflexivity.
Qed.

Lemma image_loop_state sourceIndex imageCount images :
  forall imageIndex acc (this : Source),
    (fold_from imageIndex images (image_step sourceIndex imageCount) acc this).1
    = this.
Proof.
  induction images as [|image images IH]; intros imageIndex acc this;
    [reflexivity|].
  cbn [fold_from]. unfold bind.
  pose proof (image_step_state sourceIndex imageCount imageIndex image acc this)
    as Hstep.
  destruct (image_step _ _ _ _ _ _) as [this1 [e|acc1]]; cbn [fst] in Hstep;
    subst this1; [reflexivity | apply IH].
Qed.

(** *** The arrays of a source *)

Lemma drop_insert_here {A} (l : list A) (n : nat) (x : A) :
  n < length l -> drop n (<[n := x]> l) = x :: drop (S n) l.
Proof.
  intros Hn. rewrite (drop_S (<[n := x]> l) x n).
  - rewrite drop_insert_lt by lia. reflexivity.
  - apply list_lookup_insert_eq. exact Hn.
Qed.

Lemma image_step_inr sourceIndex imageCount imageIndex image o sl
    (this this' : Source) o' sl' :
  image_step sourceIndex imageCount imageIndex image (o, sl) this
  = (this', inr (o', sl')) ->
  sourceExtent sl' = Some (default (getBoundingBox image) (sourceExtent sl)) /\
  sourceOrigin sl' = Some (default (take 2 (getOrigin image)) (sourceOrigin sl)) /\
  sourceResolutions sl'
  = <[imageCount - (imageIndex + 1) := resolution_of image]> (sourceResolutions sl) /\
  sourceTileSizes sl'
  = <[imageCount - (imageIndex + 1) := tile_size_of image]> (sourceTileSizes sl).
Proof.
  unfold image_step. intros Hrun.
  apply bind_inr in Hrun as (this1 & o1 & _ & Hrun).
  unfold ret in Hrun. injection Hrun as _ _ <-.
  cbn [sourceExtent sourceOrigin sourceResolutions sourceTileSizes snd].
  destruct (sourceExtent sl), (sourceOrigin sl); repeat split.
Qed.

Lemma image_loop_inr sourceIndex imageCount images :
  forall imageIndex o sl (this this' : Source) o' sl',
    imageIndex + length images = imageCount ->
    length (sourceResolutions sl) = imageCount ->
    length (sourceTileSizes sl) = imageCount ->
    fold_from imageIndex images (image_step sourceIndex imageCount) (o, sl) this
    = (this', inr (o', sl')) ->
    sourceExtent sl'
    = match sourceExtent sl with
      | Some e => Some e
      | None => getBoundingBox <$> head images
      end /\
    sourceOrigin sl'
    = match sourceOrigin sl with
      | Some e => Some e
      | None => (fun image => take 2 (getOrigin image)) <$> head images
      end /\
    sourceResolutions sl'
    = reverse (resolution_of <$> images)
      ++ drop (length images) (sourceResolutions sl) /\
    sourceTileSizes sl'
    = reverse (tile_size_of <$> images)
      ++ drop (length images) (sourceTileSizes sl) /\
    (images = [] -> o' = o).
Proof.
  induction images as [|image images IH];
    intros imageIndex o sl this this' o' sl' Hn Hrs Hts Hrun.
  - cbn in Hrun. unfold ret in Hrun. injection Hrun as _ <- <-.
    cbn [head fmap list_fmap reverse length drop app].
    destruct (sourceExtent sl), (sourceOrigin sl); repeat split.
  - cbn [fold_from] in Hrun.
    apply bind_inr in Hrun as (this1 & [o1 sl1] & Hstep & Hrest).
    apply image_step_inr in Hstep as (He & Ho & Hr & Ht).
    cbn [length] in Hn.
    apply IH in Hrest as (He' & Ho' & Hr' & Ht' & _);
      [| lia | rewrite Hr, length_insert; exact Hrs
       | rewrite Ht, length_insert; exact Hts].
    replace (imageCount - (imageIndex + 1)) with (length images) in Hr, Ht by lia.
    rewrite He in He'. rewrite Ho in Ho'.
    split; [|split; [|split; [|split]]].
    + rewrite He'. cbn [head fmap option_fmap option_map].
      destruct (sourceExtent sl); reflexivity.
    + rewrite Ho'. cbn [head fmap option_fmap option_map].
      destruct (sourceOrigin sl); reflexivity.
    + rewrite Hr', Hr. cbn [fmap list_fmap length].
      rewrite reverse_cons, <- app_assoc. f_equal.
      rewrite drop_insert_here by lia. reflexivity.
    + rewrite Ht', Ht. cbn [fmap list_fmap length].
      rewrite reverse_cons, <- app_assoc. f_equal.
      rewrite drop_insert_here by lia. reflexivity.
    + discriminate.
Qed.

(** The arrays a source leaves in the variables of its loop. *)
Lemma image_loop_arrays sourceIndex images o (this this' : Source) o' sl' :
  fold_from 0 images (image_step sourceIndex (length images))
    (o, {| sourceExtent := None; sourceOrigin := None;
           sourceTileSizes := replicate (length images) Undefined;
           sourceResolutions := replicate (length images) Undefined |}) this
  = (this', inr (o', sl')) ->
  this' = this /\
  sourceExtent sl' = getBoundingBox <$> head images /\
  sourceOrigin sl' = (fun image => take 2 (getOrigin image)) <$> head images /\
  sourceResolutions sl' = reverse (resolution_of <$> images) /\
  sourceTileSizes sl' = reverse (tile_size_of <$> images) /\
  (images = [] -> o' = o).
Proof.
  intros Hrun.
  pose proof (image_loop_state sourceIndex (length images) images 0
                (o, {| sourceExtent := None; sourceOrigin := None;
                       sourceTileSizes := replicate (length images) Undefined;
                       sourceResolutions := replicate (length images) Undefined |})
                this) as Hstate.
  rewrite Hrun in Hstate. cbn [fst] in Hstate.
  apply image_loop_inr in Hrun as (He & Ho & Hr & Ht & Hspp);
    cbn [sourceResolutions sourceTileSizes]; rewrite ?length_replicate; try lia.
  cbn [sourceExtent sourceOrigin sourceResolutions sourceTileSizes] in *.
  rewrite drop_replicate, Nat.sub_diag in Hr, Ht. cbn [replicate] in Hr, Ht.
  rewrite app_nil_r in Hr, Ht. auto 10.
Qed.

(** What a source that passes the comparisons leaves: its imagery,
    reversed, in its slot, and the variables of [configure_] as the
    first source set them. *)
Lemma source_step_inr sourceIndex images loc (this this' : Source) loc' :
  source_step sourceIndex images loc this = (this', inr loc') ->
  this' = set_sourceImagery sourceIndex (reverse images) this /\
  l_extent loc'
  = match l_extent loc with
    | Some e => Some e
    | None => getBoundingBox <$> head images
    end /\
  l_origin loc'
  = match l_origin loc with
    | Some o => Some o
    | None => (fun image => take 2 (getOrigin image)) <$> head images
    end /\
  l_tileSizes loc'
  = Some (default (reverse (tile_size_of <$> images)) (l_tileSizes loc)) /\
  l_resolutions loc'
  = Some (default (reverse (resolution_of <$> images)) (l_resolutions loc)) /\
  (images = [] -> l_samplesPerPixel loc' = l_samplesPerPixel loc) /\
  (forall e, l_extent loc = Some e ->
     assertEqual_passes (jv_of_array (Some e))
       (jv_of_array (getBoundingBox <$> head images)) = true) /\
  (forall o, l_origin loc = Some o ->
     assertEqual_passes (jv_of_array (Some o))
       (jv_of_array ((fun image => take 2 (getOrigin image)) <$> head images))
     = true) /\
  (forall t, l_tileSizes loc = Some t ->
     assertEqual_passes (Arr t) (Arr (reverse (tile_size_of <$> images))) = true) /\
  (forall r, l_resolutions loc = Some r ->
     assertEqual_passes (Arr r) (Arr (reverse (resolution_of <$> images))) = true).
Proof.
  unfold source_step, fold_array. intros Hrun.
  apply bind_inr in Hrun as (this1 & [o1 sl1] & Hloop & Hrun).
  apply image_loop_arrays in Hloop as (-> & He & Ho & Hr & Ht & Hspp).
  cbn [fst snd] in Hrun.
  apply bind_inr in Hrun as (this2 & extent' & Hextent & Hrun).
  apply bind_inr in Hrun as (this3 & origin' & Horigin & Hrun).
  apply bind_inr in Hrun as (this4 & tileSizes' & Htiles & Hrun).
  apply bind_inr in Hrun as (this5 & resolutions' & Hres & Hrun).
  apply bind_inr in Hrun as (this6 & [] & Hstore & Hrun).
  unfold ret in Hrun. injection Hrun as <- <-.
  unfold modify in Hstore. injection Hstore as <-.
  cbn [l_extent l_origin l_tileSizes l_resolutions l_samplesPerPixel].
  assert (Hx : this2 = this /\ extent'
               = match l_extent loc with
                 | Some e => Some e
                 | None => getBoundingBox <$> head images
                 end /\
  (forall e, l_extent loc = Some e ->
                  assertEqual_passes (jv_of_array (Some e))
                    (jv_of_array (getBoundingBox <$> head images)) = true)).
  { destruct (l_extent loc) as [e|].
    - apply bind_inr in Hextent as (? & [] & Hassert & Hret).
      apply assertEqual_inr in Hassert as [-> Hpass].
      unfold ret in Hret. injection Hret as <- <-. rewrite He in Hpass.
      split; [reflexivity|]. split; [reflexivity|]. intros ? [= <-]. exact Hpass.
    - unfold ret in Hextent. injection Hextent as <- <-. rewrite He.
      split; [reflexivity|]. split; [reflexivity|]. discriminate. }
  destruct Hx as (-> & -> & Hxe).
  assert (Hy : this3 = this /\ origin'
               = match l_origin loc with
                 | Some o => Some o
                 | None => (fun image => take 2 (getOrigin image)) <$> head images
                 end /\
  (forall o, l_origin loc = Some o ->
                  assertEqual_passes (jv_of_array (Some o))
                    (jv_of_array ((fun image => take 2 (getOrigin image))
                                    <$> head images)) = true)).
  { destruct (l_origin loc) as [o|].
    - apply bind_inr in Horigin as (? & [] & Hassert & Hret).
      apply assertEqual_inr in Hassert as [-> Hpass].
      unfold ret in Hret. injection Hret as <- <-. rewrite Ho in Hpass.
      split; [reflexivity|]. split; [reflexivity|]. intros ? [= <-]. exact Hpass.
    - unfold ret in Horigin. injection Horigin as <- <-. rewrite Ho.
      split; [reflexivity|]. split; [reflexivity|]. discriminate. }
  destruct Hy as (-> & -> & Hyo).
  assert (Hz : this4 = this /\ tileSizes'
               = default (reverse (tile_size_of <$> images)) (l_tileSizes loc) /\
  (forall t, l_tileSizes loc = Some t ->
                  assertEqual_passes (Arr t)
                    (Arr (reverse (tile_size_of <$> images))) = true)).
  { destruct (l_tileSizes loc) as [t|].
    - apply bind_inr in Htiles as (? & [] & Hassert & Hret).
      apply assertEqual_inr in Hassert as [-> Hpass].
      unfold ret in Hret. injection Hret as <- <-. rewrite Ht in Hpass.
      split; [reflexivity|]. split; [reflexivity|]. intros ? [= <-]. exact Hpass.
    - unfold ret in Htiles. injection Htiles as <- <-. rewrite Ht.
      split; [reflexivity|]. split; [reflexivity|]. discriminate. }
  destruct Hz as (-> & -> & Hzt).
  assert (Hw : this5 = this /\ resolutions'
               = default (reverse (resolution_of <$> images)) (l_resolutions loc) /\
  (forall r, l_resolutions loc = Some r ->
                  assertEqual_passes (Arr r)
                    (Arr (reverse (resolution_of <$> images))) = true)).
  { destruct (l_resolutions loc) as [r|].
    - apply bind_inr in Hres as (? & [] & Hassert & Hret).
      apply assertEqual_inr in Hassert as [-> Hpass].
      unfold ret in Hret. injection Hret as <- <-. rewrite Hr in Hpass.
      split; [reflexivity|]. split; [reflexivity|]. intros ? [= <-]. exact Hpass.
    - unfold ret in Hres. injection Hres as <- <-. rewrite Hr.
      split; [reflexivity|]. split; [reflexivity|]. discriminate. }
  destruct Hw as (-> & -> & Hwr).
  auto 15.
Qed.

(** *** What a configuration keeps of [this] *)

Lemma same_settings_refl (this : Source) : same_settings this this.
Proof. unfold same_settings. auto 10. Qed.

Lemma same_settings_trans (a b c : Source) :
  same_settings a b -> same_settings b c -> same_settings a c.
Proof.
  unfold same_settings.
  intros (? & ? & ? & ? & ? & ? & ? & Hp) (? & ? & ? & ? & ? & ? & ? & Hq).
  repeat split; try congruence. intros p Ha. apply Hq, Hp, Ha.
Qed.

Lemma set_sourceImagery_settings i images (this : Source) :
  same_settings this (set_sourceImagery i images this).
Proof.
  unfold same_settings, set_sourceImagery. cbn. rewrite length_insert. auto 10.
Qed.

Lemma source_step_settings sourceIndex images loc (this : Source) :
  same_settings this (source_step sourceIndex images loc this).1.
Proof.
  unfold source_step, fold_array. unfold bind at 1.
  pose proof (image_loop_state sourceIndex (length images) images 0
                (l_samplesPerPixel loc,
                 {| sourceExtent := None; sourceOrigin := None;
                    sourceTileSizes := replicate (length images) Undefined;
                    sourceResolutions := replicate (length images) Undefined |})
                this) as Hstate.
  destruct (fold_from _ _ _ _ _) as [this1 [e|[o1 sl1]]]; cbn [fst] in Hstate;
    subst this1; [apply same_settings_refl|].
  unfold bind, assertEqual, ret, throw, modify.
  destruct (l_extent loc), (l_origin loc), (l_tileSizes loc), (l_resolutions loc);
    repeat match goal with
           | |- context [assertEqual_passes ?a ?b] =>
               destruct (assertEqual_passes a b)
           end;
    cbn [fst]; first [apply same_settings_refl | apply set_sourceImagery_settings].
Qed.

Lemma sources_loop_settings sources :
  forall sourceIndex loc (this : Source),
    same_settings this (fold_from sourceIndex sources source_step loc this).1.
Proof.
  induction sources as [|images sources IH]; intros sourceIndex loc this.
  - apply same_settings_refl.
  - cbn [fold_from]. unfold bind.
    pose proof (source_step_settings sourceIndex images loc this) as Hstep.
    destruct (source_step _ _ _ _) as [this1 [e|loc1]]; cbn [fst] in Hstep;
      [exact Hstep|].
    eapply same_settings_trans; [exact Hstep | apply IH].
Qed.

Lemma derive_projection_settings sources (this : Source) :
  same_settings this (derive_projection getProjection sources this).1.
Proof.
  unfold derive_projection, bind, get.
  destruct (projection this) as [p|] eqn:Hp; [apply same_settings_refl|].
  destruct (head sources) as [images|]; [|apply same_settings_refl].
  destruct (head (reverse images)) as [firstImage|]; [|apply same_settings_refl].
  destruct (geoKeys firstImage) as [keys|]; [|apply same_settings_refl].
  destruct (truthy _); [|apply same_settings_refl].
  unfold same_settings, modify, set_projection. cbn. rewrite Hp.
  repeat split. discriminate.
Qed.

Lemma check_bands_state sourceCount o (this : Source) :
  (check_bands sourceCount o this).1 = this.
Proof.
  unfold check_bands.
  destruct (sourceCount =? 1); destruct o as [[|[|[|[|[|?]]]]]|]; reflexivity.
Qed.

Lemma bind_inl {St E A B} (c : M St E A) (k : A -> M St E B) s s' e :
  bind c k s = (s', inl e) ->
  c s = (s', inl e) \/ exists s1 a, c s = (s1, inr a) /\ k a s1 = (s', inl e).
Proof.
  unfold bind. destruct (c s) as [s1 [e1|a]]; intros H;
    [injection H as -> ->; left; reflexivity | right; eauto].
Qed.

(** A configuration that throws has changed nothing but the imagery
    stored so far and, where there was none, the projection. *)
Lemma configure_throws_settings sources (this : Source) e :
  (configure_ getProjection sources this).2 = inl e ->
  same_settings this (configure_ getProjection sources this).1.
Proof.
  destruct (configure_ getProjection sources this) as [this' r] eqn:Hrun.
  cbn [fst snd]. intros ->. unfold configure_, fold_array in Hrun.
  pose proof (sources_loop_settings sources 0
                {| l_extent := None; l_origin := None; l_tileSizes := None;
                   l_resolutions := None; l_samplesPerPixel := None |} this)
    as Hloop.
  apply bind_inl in Hrun as [Hrun|(this1 & loc & Hrun & Hrest)];
    rewrite Hrun in Hloop; cbn [fst] in Hloop; [exact Hloop|].
  pose proof (derive_projection_settings sources this1) as Hproj.
  apply bind_inl in Hrest as [Hrest|(this2 & [] & Hrest & Hrest')];
    rewrite Hrest in Hproj; cbn [fst] in Hproj;
    [eapply same_settings_trans; eassumption|].
  pose proof (check_bands_state (length sources) (l_samplesPerPixel loc) this2)
    as Hcheck.
  apply bind_inl in Hrest' as [Hthrow|(this3 & [] & _ & Hrest'')].
  - rewrite Hthrow in Hcheck. cbn [fst] in Hcheck. subst this'.
    eapply same_settings_trans; eassumption.
  - unfold bind, modify in Hrest''. discriminate.
Qed.

(** *** What an accepted configuration has compared *)

Lemma passes_Arr_length (a b : list jv) :
  assertEqual_passes (Arr a) (Arr b) = true -> length a = length b.
Proof. intros H. apply passes_Arr in H. exact (Forall2_length _ _ _ H). Qed.

(** The sources after the first: each passes against the variables the
    first source set, and leaves them as they are. *)
Lemma sources_loop_inr sources :
  forall i loc (this this' : Source) loc' ts rs,
    l_tileSizes loc = Some ts -> l_resolutions loc = Some rs ->
    fold_from i sources source_step loc this = (this', inr loc') ->
    l_tileSizes loc' = Some ts /\ l_resolutions loc' = Some rs /\
    sourceImagery_ this' = store_imagery i sources (sourceImagery_ this) /\
    projection this' = projection this /\
    Forall (fun images =>
              assertEqual_passes (Arr ts) (Arr (reverse (tile_size_of <$> images)))
              = true /\
              assertEqual_passes (Arr rs) (Arr (reverse (resolution_of <$> images)))
              = true) sources /\
    (forall e, l_extent loc = Some e ->
       l_extent loc' = Some e /\
       Forall (fun images =>
                 assertEqual_passes (jv_of_array (Some e))
                   (jv_of_array (getBoundingBox <$> head images)) = true)
         sources) /\
    (forall o, l_origin loc = Some o ->
       l_origin loc' = Some o /\
       Forall (fun images =>
                 assertEqual_passes (jv_of_array (Some o))
                   (jv_of_array ((fun image => take 2 (getOrigin image))
                                   <$> head images)) = true)
         sources) /\
    (Forall (fun images => images = []) sources ->
     l_samplesPerPixel loc' = l_samplesPerPixel loc).
Proof.
  induction sources as [|images sources IH];
    intros i loc this this' loc' ts rs Hts Hrs Hrun.
  - cbn in Hrun. unfold ret in Hrun. injection Hrun as <- <-.
    cbn [store_imagery]. repeat split; auto.
  - cbn [fold_from] in Hrun.
    apply bind_inr in Hrun as (this1 & loc1 & Hstep & Hrest).
    apply source_step_inr in Hstep
      as (-> & He1 & Ho1 & Ht1 & Hr1 & Hspp1 & Hpe & Hpo & Hpt & Hpr).
    rewrite Hts in Ht1. rewrite Hrs in Hr1. cbn [default] in Ht1, Hr1.
    destruct (IH _ _ _ _ _ _ _ Ht1 Hr1 Hrest)
      as (Ht' & Hr' & Him & Hproj & Hall & Hext & Hori & Hspp).
    split; [exact Ht'|]. split; [exact Hr'|]. split; [exact Him|].
    split; [exact Hproj|]. split; [|split; [|split]].
    + constructor; [|exact Hall]. split; [apply Hpt | apply Hpr]; assumption.
    + intros e He. rewrite He in He1. destruct (Hext e He1) as [He' Hall'].
      split; [exact He'|]. constructor; [apply Hpe; exact He | exact Hall'].
    + intros o Ho. rewrite Ho in Ho1. destruct (Hori o Ho1) as [Ho' Hall'].
      split; [exact Ho'|]. constructor; [apply Hpo; exact Ho | exact Hall'].
    + intros Hempty. apply Forall_cons in Hempty as [Hnil Hempty].
      rewrite (Hspp Hempty). apply Hspp1. exact Hnil.
Qed.

(** The loop over the sources, from the first. *)
Lemma configure_loop_inr first rest (this this' : Source) loc' :
  fold_from 0 (first :: rest) source_step
    {| l_extent := None; l_origin := None; l_tileSizes := None;
       l_resolutions := None; l_samplesPerPixel := None |} this
  = (this', inr loc') ->
  l_tileSizes loc' = Some (reverse (tile_size_of <$> first)) /\
  l_resolutions loc' = Some (reverse (resolution_of <$> first)) /\
  sourceImagery_ this' = store_imagery 0 (first :: rest) (sourceImagery_ this) /\
  projection this' = projection this /\
  Forall (fun images =>
            assertEqual_passes (Arr (reverse (tile_size_of <$> first)))
              (Arr (reverse (tile_size_of <$> images))) = true /\
            assertEqual_passes (Arr (reverse (resolution_of <$> first)))
              (Arr (reverse (resolution_of <$> images))) = true) rest /\
  (forall image0, head first = Some image0 ->
     l_extent loc' = Some (getBoundingBox image0) /\
     l_origin loc' = Some (take 2 (getOrigin image0)) /\
     Forall (fun images =>
               assertEqual_passes (jv_of_array (Some (getBoundingBox image0)))
                 (jv_of_array (getBoundingBox <$> head images)) = true /\
               assertEqual_passes (jv_of_array (Some (take 2 (getOrigin image0))))
                 (jv_of_array ((fun image => take 2 (getOrigin image))
                                 <$> head images)) = true) rest) /\
  (first = [] -> l_samplesPerPixel loc' = None).
Proof.
  cbn [fold_from]. intros Hrun.
  apply bind_inr in Hrun as (this1 & loc1 & Hstep & Hrest).
  apply source_step_inr in Hstep
    as (-> & He1 & Ho1 & Ht1 & Hr1 & Hspp1 & _).
  cbn [l_extent l_origin l_tileSizes l_resolutions l_samplesPerPixel default]
    in He1, Ho1, Ht1, Hr1, Hspp1.
  destruct (sources_loop_inr _ _ _ _ _ _ _ _ Ht1 Hr1 Hrest)
    as (Ht' & Hr' & Him & Hproj & Hall & Hext & Hori & Hspp).
  split; [exact Ht'|]. split; [exact Hr'|]. split; [exact Him|].
  split; [exact Hproj|]. split; [exact Hall|]. split.
  - intros image0 Hhead. rewrite Hhead in He1, Ho1.
    destruct (Hext _ He1) as [He' Halle]. destruct (Hori _ Ho1) as [Ho' Hallo].
    split; [exact He'|]. split; [exact Ho'|].
    apply Forall_and. split; assumption.
  - intros ->. rewrite Hspp; [apply Hspp1; reflexivity|].
    apply (Forall_impl _ _ _ Hall). intros images [Hsizes _].
    apply passes_Arr_length in Hsizes.
    rewrite !length_reverse, !length_fmap in Hsizes. cbn in Hsizes.
    destruct images; [reflexivity | discriminate].
Qed.

(** The steps of a configuration that returns. *)
Lemma configure_inr sources (this this' : Source) :
  configure_ getProjection sources this = (this', inr tt) ->
  exists this1 this2 loc,
    fold_from 0 sources source_step
      {| l_extent := None; l_origin := None; l_tileSizes := None;
         l_resolutions := None; l_samplesPerPixel := None |} this
    = (this1, inr loc) /\
    derive_projection getProjection sources this1 = (this2, inr tt) /\
    check_bands (length sources) (l_samplesPerPixel loc) this2 = (this2, inr tt) /\
    this' = setState READY
              (set_configured (l_samplesPerPixel loc)
                 {| extent := l_extent loc; origin := l_origin loc;
                    resolutions := default [] (l_resolutions loc);
                    tileSizes := default [] (l_tileSizes loc) |} this2).
Proof.
  unfold configure_, fold_array. intros Hrun.
  apply bind_inr in Hrun as (this1 & loc & Hloop & Hrun).
  apply bind_inr in Hrun as (this2 & [] & Hproj & Hrun).
  apply bind_inr in Hrun as (this3 & [] & Hcheck & Hrun).
  pose proof (check_bands_state (length sources) (l_samplesPerPixel loc) this2)
    as Hstate.
  rewrite Hcheck in Hstate. cbn [fst] in Hstate. subst this3.
  cbv beta iota delta [bind modify] in Hrun. injection Hrun as <-.
  exists this1, this2, loc. auto.
Qed.

(** An accepted configuration has a first source with an image. *)
Lemma accepted_first_image first rest (this : Source) :
  accepted getProjection (first :: rest) this -> first <> [].
Proof.
  unfold accepted. intros Hacc ->.
  destruct (configure_ getProjection ([] :: rest) this) as [this' r] eqn:Hrun.
  cbn [snd] in Hacc. subst r.
  apply configure_inr in Hrun as (this1 & this2 & loc & Hloop & _ & Hcheck & _).
  apply configure_loop_inr in Hloop as (_ & _ & _ & _ & _ & _ & Hspp).
  rewrite (Hspp eq_refl) in Hcheck.
  apply GeoTIFFFacts.check_bands_inr in Hcheck as [[_ [H|[H|H]]]|[_ H]];
    discriminate.
Qed.

(** *** The imagery *)

Lemma store_imagery_before sources :
  forall i imagery j,
    j < i -> store_imagery i sources imagery !! j = imagery !! j.
Proof.
  induction sources as [|images sources IH]; intros i imagery j Hj;
    [reflexivity|].
  cbn [store_imagery]. rewrite IH by lia.
  apply list_lookup_insert_ne. lia.
Qed.

Lemma store_imagery_lookup sources :
  forall i imagery k images,
    sources !! k = Some images ->
    i + k < length imagery ->
    store_imagery i sources imagery !! (i + k) = Some (Some (reverse images)).
Proof.
  induction sources as [|first sources IH]; intros i imagery k images Hk Hlen;
    [discriminate|].
  cbn [store_imagery]. destruct k as [|k].
  - injection Hk as ->. rewrite store_imagery_before by lia.
    rewrite Nat.add_0_r. apply list_lookup_insert_eq. lia.
  - replace (i + S k) with (S i + k) by lia. apply IH; [exact Hk|].
    rewrite length_insert. lia.
Qed.

(** *** The source that a configuration leaves *)

(** X3.  an accepted configuration leaves the source READY with a loader,
    the imagery of every source stored from the last image to the first,
    and a tile grid read off the first source: the extent and the origin
    of its first image, and at level [z] the resolution and the tile size
    of the image stored at [z], so that the coarsest image is level 0. *)
Theorem configured_levels first rest (this : Source) :
  accepted getProjection (first :: rest) this ->
  let this' := (configure_ getProjection (first :: rest) this).1 in
  exists image0,
    head first = Some image0 /\
    state this' = READY /\ loader this' = true /\
    tileGrid this'
    = Some {| extent := Some (getBoundingBox image0);
              origin := Some (take 2 (getOrigin image0));
              resolutions := resolution_of <$> reverse first;
              tileSizes := tile_size_of <$> reverse first |} /\
    (forall i images,
       (first :: rest) !! i = Some images ->
       i < length (sourceImagery_ this) ->
       sourceImagery_ this' !! i = Some (Some (reverse images))).
Proof.
  intros Hacc this'. subst this'.
  pose proof (accepted_first_image _ _ _ Hacc) as Hne.
  unfold accepted in Hacc.
  destruct (configure_ getProjection (first :: rest) this) as [this' r] eqn:Hrun.
  cbn [fst snd] in *. subst r.
  apply configure_inr in Hrun as (this1 & this2 & loc & Hloop & Hproj & _ & ->).
  apply configure_loop_inr in Hloop as (Ht & Hr & Him & _ & _ & Hfirst & _).
  destruct first as [|image0 images0]; [congruence|].
  exists image0. split; [reflexivity|].
  destruct (Hfirst image0 eq_refl) as (He & Ho & _).
  split; [reflexivity|]. split; [reflexivity|]. split.
  - cbn [setState set_configured tileGrid]. rewrite He, Ho, Ht, Hr.
    cbn [default]. rewrite !fmap_reverse. reflexivity.
  - intros i images Hi Hlen.
    pose proof (derive_projection_settings (((image0 :: images0) :: rest)) this1)
      as Hsame.
    rewrite Hproj in Hsame. cbn [fst] in Hsame.
    cbn [setState set_configured sourceImagery_].
    assert (Himagery : sourceImagery_ this2 = sourceImagery_ this1).
    { clear -Hproj. unfold derive_projection, bind, get in Hproj.
      destruct (projection this1);
        [unfold ret in Hproj; injection Hproj as <-; reflexivity|].
      cbn [head] in Hproj. destruct (head (reverse (image0 :: images0)));
        [|discriminate].
      destruct (geoKeys g); [|unfold ret in Hproj; injection Hproj as <-; reflexivity].
      destruct (truthy _); unfold ret, modify in Hproj; injection Hproj as <-;
        reflexivity. }
    rewrite Himagery, Him.
    apply (store_imagery_lookup _ 0 _ i images Hi). exact Hlen.
Qed.

(** X4.  in an accepted configuration every source is a pyramid like the
    first: it has as many images, image by image the same resolution and
    the same tile size, and for its first image the same bounding box
    and the same origin. *)
Theorem accepted_sources_agree first rest (this : Source) :
  accepted getProjection (first :: rest) this ->
  first <> [] /\
  Forall (fun images =>
            length images = length first /\
            (forall z a b,
               first !! z = Some a -> images !! z = Some b ->
               eqb (getResolutionX a) (getResolutionX b) = true /\
               eqb (getTileWidth a) (getTileWidth b) = true /\
               eqb (getTileHeight a) (getTileHeight b) = true) /\
            (forall a b,
               head first = Some a -> head images = Some b ->
               assertEqual_passes (Arr (Num <$> getBoundingBox a))
                 (Arr (Num <$> getBoundingBox b)) = true /\
               assertEqual_passes (Arr (Num <$> take 2 (getOrigin a)))
                 (Arr (Num <$> take 2 (getOrigin b))) = true)) rest.
Proof.
  intros Hacc. pose proof (accepted_first_image _ _ _ Hacc) as Hne.
  split; [exact Hne|]. unfold accepted in Hacc.
  destruct (configure_ getProjection (first :: rest) this) as [this' r] eqn:Hrun.
  cbn [snd] in Hacc. subst r.
  apply configure_inr in Hrun as (this1 & this2 & loc & Hloop & _).
  apply configure_loop_inr in Hloop as (_ & _ & _ & _ & Hall & Hfirst & _).
  destruct first as [|image0 images0]; [congruence|].
  destruct (Hfirst image0 eq_refl) as (_ & _ & Hall0).
  eapply Forall_impl; [apply Forall_and; split; [exact Hall | exact Hall0]|].
  clear. cbv beta.
  intros images [[Hsizes Hres] [Hextent Horigin]].
  apply passes_Arr in Hsizes, Hres.
  apply Forall2_reverse in Hsizes, Hres. rewrite !reverse_involutive in Hsizes, Hres.
  apply Forall2_fmap in Hsizes, Hres.
  split; [symmetry; exact (Forall2_length _ _ _ Hres)|]. split.
  - intros z a b Ha Hb.
    pose proof (Forall2_lookup_lr _ _ _ _ _ _ Hres Ha Hb) as Hr.
    pose proof (Forall2_lookup_lr _ _ _ _ _ _ Hsizes Ha Hb) as Hs.
    cbn in Hr, Hs. rewrite andb_true_r in Hs.
    apply andb_true_iff in Hs as [Hw Hh]. auto.
  - intros a b [= <-] Hb. rewrite Hb in Hextent, Horigin. auto.
Qed.


(** The settings a configuration that returns has kept up to its last
    step. *)
Lemma configure_inr_settings sources (this this' : Source) :
  configure_ getProjection sources this = (this', inr tt) ->
  state this' = READY /\ loader this' = true /\
  error_ this' = error_ this /\ sourceInfo_ this' = sourceInfo_ this /\
  length (sourceImagery_ this') = length (sourceImagery_ this) /\
  (exists g, tileGrid this' = Some g) /\
  ((length sources = 1 /\
    (samplesPerPixel_ this' = Some 1 \/ samplesPerPixel_ this' = Some 3 \/
     samplesPerPixel_ this' = Some 4)) \/
   (length sources <> 1 /\ samplesPerPixel_ this' = Some 1)).
Proof.
  intros Hrun.
  apply configure_inr in Hrun as (this1 & this2 & loc & Hloop & Hproj & Hcheck & ->).
  pose proof (sources_loop_settings sources 0
                {| l_extent := None; l_origin := None; l_tileSizes := None;
                   l_resolutions := None; l_samplesPerPixel := None |} this)
    as H1.
  rewrite Hloop in H1. cbn [fst] in H1.
  pose proof (derive_projection_settings sources this1) as H2.
  rewrite Hproj in H2. cbn [fst] in H2.
  destruct (same_settings_trans _ _ _ H1 H2) as (_ & _ & Hi & _ & He & _ & Hl & _).
  cbn [setState set_configured state loader error_ sourceInfo_ sourceImagery_
         tileGrid samplesPerPixel_].
  split; [reflexivity|]. split; [reflexivity|]. split; [exact He|].
  split; [exact Hi|]. split; [exact Hl|]. split; [eexists; reflexivity|].
  apply GeoTIFFFacts.check_bands_inr in Hcheck. exact Hcheck.
Qed.


(** X7.  a source that the constructor made and that its requests, one
    answer for every source, left READY is configured as the tiles
    need it: a slot of imagery for every source, one to three sources,
    1, 3 or 4 bands for a single source and 1 band otherwise. *)
Theorem ready_source_is_configured (infos : list SourceInfo) (this0 : Source)
    (sources : list (list GeoTIFFImage)) :
  constructor infos = inr this0 ->
  length sources = length infos ->
  let this' := (on_settled getProjection (inr sources) this0).1 in
  state this' = READY ->
  exists spp, is_configured this' spp.
Proof.
  intros Hnew Hlen this'. subst this'.
  assert (Hcount : 1 <= length infos <= 3 /\ this0 = initial infos).
  { unfold constructor in Hnew.
    destruct (Nat.ltb_spec 0 (length infos)) as [H0|H0];
      destruct (Nat.ltb_spec (length infos) 4) as [H4|H4];
      cbn [andb negb] in Hnew; try discriminate.
    injection Hnew as <-. split; [lia | reflexivity]. }
  destruct Hcount as (Hn & ->).
  assert (Hinfo : sourceInfo_ (initial (Projection := Projection) infos) = infos)
    by reflexivity.
  assert (Himagery : length (sourceImagery_ (initial (Projection := Projection) infos))
                     = length infos)
    by (cbn; apply length_replicate).
  unfold on_settled, try_catch.
  destruct (configure_ getProjection sources (initial infos))
    as [this' [e|[]]] eqn:Hrun.
  - cbn. discriminate.
  - cbn [fst]. intros _.
    apply configure_inr_settings in Hrun as (_ & _ & _ & Hi & Hl & _ & Hspp).
    unfold is_configured. rewrite Hi, Hl, Hinfo, Himagery.
    destruct Hspp as [[Hone [H|[H|H]]]|[Hmany H]]; eexists;
      (split; [exact H|]); (split; [reflexivity|]); (split; [exact Hn|]);
      rewrite <- Hlen.
    + rewrite Hone. cbn. auto.
    + rewrite Hone. cbn. auto.
    + rewrite Hone. cbn. auto.
    + apply Nat.eqb_neq in Hmany. rewrite Hmany. reflexivity.
Qed.

(** The projection after the loop over the sources. *)
Lemma derive_projection_inr first rest (this this' : Source) :
  derive_projection getProjection (first :: rest) this = (this', inr tt) ->
  projection this'
  = match projection this with
    | Some p => Some p
    | None =>
        match last first ≫= geoKeys with
        | Some keys =>
            match or_code (ProjectedCSTypeGeoKey keys) (GeographicTypeGeoKey keys) with
            | Some (S code) => getProjection ("EPSG:" +:+ pretty (S code))
            | _ => None
            end
        | None => None
        end
    end.
Proof.
  unfold derive_projection, bind, get.
  destruct (projection this) as [p|] eqn:Hp.
  { unfold ret. intros [= <-]. exact Hp. }
  cbn [head]. rewrite head_reverse.
  destruct (last first) as [firstImage|]; [|discriminate].
  cbn [mbind option_bind].
  destruct (geoKeys firstImage) as [keys|].
  - destruct (or_code _ _) as [[|code]|]; cbn [truthy default].
    + unfold ret. intros [= <-]. exact Hp.
    + unfold modify. intros [= <-]. reflexivity.
    + unfold ret. intros [= <-]. exact Hp.
  - unfold ret. intros [= <-]. exact Hp.
Qed.

(** X8.  the projection of a configured source.  A projection that the
    source has is kept.  Otherwise the projection is looked up in the
    registry under [EPSG:] and the code of the geo keys of the image
    that is first in the first source when the loop has reversed it in
    place, the image the decoder listed last: the code of the projected
    coordinate system or, when that is missing or 0, the code of the
    geographic one.  Without geo keys, or without a code other than 0,
    the source stays without a projection. *)
Theorem projection_from_geo_keys first rest (this : Source) :
  accepted getProjection (first :: rest) this ->
  projection (configure_ getProjection (first :: rest) this).1
  = match projection this with
    | Some p => Some p
    | None =>
        match last first ≫= geoKeys with
        | Some keys =>
            match or_code (ProjectedCSTypeGeoKey keys) (GeographicTypeGeoKey keys) with
            | Some (S code) => getProjection ("EPSG:" +:+ pretty (S code))
            | _ => None
            end
        | None => None
        end
    end.
Proof.
  unfold accepted. intros Hacc.
  destruct (configure_ getProjection (first :: rest) this) as [this' r] eqn:Hrun.
  cbn [fst snd] in *. subst r.
  apply configure_inr in Hrun as (this1 & this2 & loc & Hloop & Hproj & _ & ->).
  apply configure_loop_inr in Hloop as (_ & _ & _ & Hsame & _).
  apply derive_projection_inr in Hproj. rewrite Hsame in Hproj.
  exact Hproj.
Qed.

End Configuration.

(** *** Examples of configured sources *)

Lemma configured_levels_witness :
  accepted no_projection two_pyramids (initial two_infos) /\
  let this' := (configure_ no_projection two_pyramids (initial two_infos)).1 in
  state this' = READY /\
  tileGrid this'
  = Some {| extent := Some [of_Z 0; of_Z 0; of_Z 512; of_Z 512];
            origin := Some [of_Z 0; of_Z 512];
            resolutions := [Num (of_Z 2); Num (of_Z 1)];
            tileSizes := [Arr [Num (of_Z 256); Num (of_Z 256)];
                          Arr [Num (of_Z 256); Num (of_Z 256)]] |} /\
  sourceImagery_ this' !! 1 = Some (Some [resampled_image; square_image 1 512]).
Proof.
  assert (Hacc : accepted no_projection two_pyramids (initial two_infos))
    by reflexivity.
  split; [exact Hacc|].
  destruct (configured_levels no_projection pyramid [pyramid] (initial two_infos) Hacc)
    as (image0 & Hhead & Hstate & _ & Hgrid & Himagery).
  injection Hhead as <-.
  split; [exact Hstate|]. split; [exact Hgrid|].
  apply (Himagery 1 pyramid); [reflexivity | cbn; lia].
Defined.

Lemma accepted_sources_agree_witness :
  accepted no_projection two_pyramids (initial two_infos) /\
  pyramid <> [] /\
  Forall (fun images =>
            length images = length pyramid /\
            (forall z a b,
               pyramid !! z = Some a -> images !! z = Some b ->
               eqb (getResolutionX a) (getResolutionX b) = true /\
               eqb (getTileWidth a) (getTileWidth b) = true /\
               eqb (getTileHeight a) (getTileHeight b) = true) /\
            (forall a b,
               head pyramid = Some a -> head images = Some b ->
               assertEqual_passes (Arr (Num <$> getBoundingBox a))
                 (Arr (Num <$> getBoundingBox b)) = true /\
               assertEqual_passes (Arr (Num <$> take 2 (getOrigin a)))
                 (Arr (Num <$> take 2 (getOrigin b))) = true)) [pyramid].
Proof.
  assert (Hacc : accepted no_projection two_pyramids (initial two_infos))
    by reflexivity.
  split; [exact Hacc|].
  exact (accepted_sources_agree no_projection pyramid [pyramid] (initial two_infos)
           Hacc).
Defined.


Lemma ready_source_is_configured_witness :
  exists spp,
    is_configured (on_settled no_projection (inr two_pyramids) (initial two_infos)).1
      spp.
Proof.
  exact (ready_source_is_configured no_projection two_infos (initial two_infos)
           two_pyramids eq_refl eq_refl eq_refl).
Defined.

Lemma projection_from_geo_keys_witness :
  accepted echo_registry [keyed_pyramid] (initial [source_info None None None]) /\
  projection (configure_ echo_registry [keyed_pyramid]
                (initial [source_info None None None])).1
  = Some "EPSG:3857".
Proof.
  assert (Hacc : accepted echo_registry [keyed_pyramid]
                   (initial [source_info None None None])) by reflexivity.
  split; [exact Hacc|].
  exact (eq_trans
           (projection_from_geo_keys echo_registry keyed_pyramid []
              (initial [source_info None None None]) Hacc)
           eq_refl).
Defined.

End ConfigurationFacts.

(** ** The rescaling of samples *)

Module RescaleFacts.
Import JsNum JsNumFacts Eff EffFacts GeoTIFF.

(** *** The conversion to a byte *)

Lemma Qle_bool_false (x y : Q) : Qle_bool x y = false <-> (y < x)%Q.
Proof.
  split.
  - intros H. apply Qnot_le_lt. intros Hle. apply Qle_bool_iff in Hle. congruence.
  - intros H. destruct (Qle_bool x y) eqn:E; [|reflexivity].
    apply Qle_bool_iff in E. exfalso. exact (Qlt_not_le _ _ H E).
Qed.

(** The rounding of a number strictly between 0 and 255: the floor or
    the integer above it, by the fractional part. *)
Lemma round_spec (q : Q) :
  (0 < q)%Q -> (q < 255)%Q ->
  let f := Qfloor q in
  (0 <= f <= 254)%Z /\
  ((ToUint8Clamp (Fin q) = f /\ (q <= inject_Z f + (1 # 2))%Q) \/
   (ToUint8Clamp (Fin q) = (f + 1)%Z /\ (inject_Z f + (1 # 2) <= q)%Q)).
Proof.
  intros H0 H255 f.
  pose proof (Qfloor_le q) as Hlo. pose proof (Qlt_floor q) as Hhi.
  fold f in Hlo, Hhi.
  assert (Hf : (0 <= f <= 254)%Z).
  { split.
    - assert (H : (inject_Z 0 < inject_Z (f + 1))%Q)
        by (eapply Qlt_trans; [exact H0 | exact Hhi]).
      rewrite <- Zlt_Qlt in H. lia.
    - assert (H : (inject_Z f < inject_Z 255)%Q)
        by (eapply Qle_lt_trans; [exact Hlo | exact H255]).
      rewrite <- Zlt_Qlt in H. lia. }
  split; [exact Hf|].
  unfold ToUint8Clamp.
  rewrite (proj2 (Qle_bool_false q 0) H0), (proj2 (Qle_bool_false 255 q) H255).
  fold f. cbv zeta.
  destruct (inject_Z f + (1 # 2) ?= q)%Q eqn:Hc.
  - apply Qeq_alt in Hc.
    destruct (Z.even f); [left | right]; (split; [reflexivity|]);
      rewrite Hc; apply Qle_refl.
  - apply Qlt_alt in Hc. right. split; [reflexivity|]. apply Qlt_le_weak, Hc.
  - apply Qgt_alt in Hc. left. split; [reflexivity|]. apply Qlt_le_weak, Hc.
Qed.

(** Every store into the tile is a byte. *)
Lemma ToUint8Clamp_range (a : num) : (0 <= ToUint8Clamp a <= 255)%Z.
Proof.
  destruct a as [q| | |]; cbn; try lia.
  destruct (Qle_bool q 0) eqn:H0; [lia|].
  destruct (Qle_bool 255 q) eqn:H255; [lia|].
  apply Qle_bool_false in H0, H255.
  destruct (round_spec q H0 H255) as [Hf Hr].
  unfold ToUint8Clamp in Hr. 
  rewrite (proj2 (Qle_bool_false q 0) H0), (proj2 (Qle_bool_false 255 q) H255) in Hr.
  destruct Hr as [[-> _]|[-> _]]; lia.
Qed.

(** An integer from 0 to 255 is stored as it is. *)
Lemma ToUint8Clamp_byte (z : Z) :
  (0 <= z <= 255)%Z -> ToUint8Clamp (of_Z z) = z.
Proof.
  intros Hz. unfold ToUint8Clamp, of_Z.
  destruct (Qle_bool (inject_Z z) 0) eqn:H0.
  { apply Qle_bool_iff in H0. change 0%Q with (inject_Z 0) in H0.
    rewrite <- Zle_Qle in H0. lia. }
  destruct (Qle_bool 255 (inject_Z z)) eqn:H255.
  { apply Qle_bool_iff in H255. change 255%Q with (inject_Z 255) in H255.
    rewrite <- Zle_Qle in H255. lia. }
  rewrite Qfloor_Z. cbv zeta.
  assert (Hgt : (inject_Z z + (1 # 2) ?= inject_Z z)%Q = Gt).
  { apply Qgt_alt. rewrite <- (Qplus_0_r (inject_Z z)) at 1.
    apply Qplus_lt_r. reflexivity. }
  rewrite Hgt. reflexivity.
Qed.

(** The conversion keeps the order of two numbers. *)
Lemma ToUint8Clamp_mono (q q' : Q) :
  (q <= q')%Q -> (ToUint8Clamp (Fin q) <= ToUint8Clamp (Fin q'))%Z.
Proof.
  intros Hle.
  pose proof (ToUint8Clamp_range (Fin q)) as Hr.
  pose proof (ToUint8Clamp_range (Fin q')) as Hr'.
  destruct (Qle_bool q 0) eqn:H0.
  { unfold ToUint8Clamp at 1. rewrite H0. lia. }
  destruct (Qle_bool 255 q') eqn:H255'.
  { unfold ToUint8Clamp at 2.
    destruct (Qle_bool q' 0) eqn:H0'.
    - apply Qle_bool_iff in H0', H255'. exfalso.
      assert (H : (255 <= 0)%Q) by (eapply Qle_trans; eassumption).
      apply Qle_bool_iff in H. discriminate.
    - rewrite H255'. lia. }
  apply Qle_bool_false in H0, H255'.
  assert (H0' : (0 < q')%Q) by (eapply Qlt_le_trans; eassumption).
  assert (H255 : (q < 255)%Q) by (eapply Qle_lt_trans; eassumption).
  destruct (round_spec q H0 H255) as [Hf Hq].
  destruct (round_spec q' H0' H255') as [Hf' Hq'].
  pose proof (Qfloor_resp_le _ _ Hle) as Hfloor.
  destruct Hq as [[Ha Hq]|[Ha Hq]]; destruct Hq' as [[Hb Hq']|[Hb Hq']];
    try (rewrite Ha, Hb; lia).
  destruct (Z.eq_dec (Qfloor q) (Qfloor q')) as [Heq|Hne];
    [|rewrite Ha, Hb; lia].
  rewrite <- Heq in Hq'.
  assert (Hqq : (q == inject_Z (Qfloor q) + (1 # 2))%Q).
  { apply Qle_antisym; [|exact Hq]. eapply Qle_trans; eassumption. }
  assert (Hqq' : (q' == inject_Z (Qfloor q) + (1 # 2))%Q).
  { apply Qle_antisym; [exact Hq'|]. eapply Qle_trans; eassumption. }
  (* both are the same tie: they round alike *)
  assert (Hsame : ToUint8Clamp (Fin q) = ToUint8Clamp (Fin q')); [|lia].
  unfold ToUint8Clamp.
  rewrite (proj2 (Qle_bool_false q 0) H0), (proj2 (Qle_bool_false 255 q) H255),
    (proj2 (Qle_bool_false q' 0) H0'), (proj2 (Qle_bool_false 255 q') H255').
  cbv zeta. rewrite <- Heq.
  assert (Hc : (inject_Z (Qfloor q) + (1 # 2) ?= q)%Q = Eq)
    by (apply Qeq_alt; symmetry; exact Hqq).
  assert (Hc' : (inject_Z (Qfloor q) + (1 # 2) ?= q')%Q = Eq)
    by (apply Qeq_alt; symmetry; exact Hqq').
  rewrite Hc, Hc'. reflexivity.
Qed.

Lemma ToUint8Clamp_Qeq (q q' : Q) :
  (q == q')%Q -> ToUint8Clamp (Fin q) = ToUint8Clamp (Fin q').
Proof.
  intros Heq.
  assert (H1 : (q <= q')%Q) by (rewrite Heq; apply Qle_refl).
  assert (H2 : (q' <= q)%Q) by (rewrite Heq; apply Qle_refl).
  apply ToUint8Clamp_mono in H1, H2. lia.
Qed.

(** *** The rescaling *)

(** The rescaling over a range that is not empty is the affine map
    [255 / (max - min) * (v - min)], computed as the code does. *)
Lemma rescale_Fin (source : SourceInfo) (bands : option (list TypedArray))
    (lo hi v : Q) :
  minOf source bands = Fin lo -> maxOf source bands = Fin hi -> (lo < hi)%Q ->
  rescale source bands (Some (Fin v))
  = Fin (inject_Z 255 / (hi + - lo) * v + - lo * (inject_Z 255 / (hi + - lo))).
Proof.
  intros Hlo Hhi Hlt. unfold rescale, gainOf, biasOf. rewrite Hlo, Hhi.
  cbn [sub neg add div of_Z ToNumber].
  assert (Hnz : Qeq_bool (hi + - lo) 0 = false).
  { destruct (Qeq_bool (hi + - lo) 0) eqn:E; [|reflexivity].
    apply Qeq_bool_iff in E. exfalso. lra. }
  rewrite Hnz. reflexivity.
Qed.

Lemma gain_positive (lo hi : Q) :
  (lo < hi)%Q -> (0 < inject_Z 255 / (hi + - lo))%Q.
Proof.
  intros Hlt. apply Qlt_shift_div_l.
  - lra.
  - rewrite Qmult_0_l. reflexivity.
Qed.

(** X9.  over a range that is not empty the rescaling keeps the order of
    the samples: a larger sample never gives a smaller byte.  A sample
    equal to [min], and so every sample below it, is stored as 0. *)
Theorem rescaling_is_monotone (source : SourceInfo)
    (bands : option (list TypedArray)) (lo hi : Q) :
  minOf source bands = Fin lo -> maxOf source bands = Fin hi -> (lo < hi)%Q ->
  (forall v v' : Q,
     (v <= v')%Q ->
     (ToUint8Clamp (rescale source bands (Some (Fin v)))
      <= ToUint8Clamp (rescale source bands (Some (Fin v'))))%Z) /\
  (forall v : Q,
     (v <= lo)%Q -> ToUint8Clamp (rescale source bands (Some (Fin v))) = 0%Z).
Proof.
  intros Hlo Hhi Hlt.
  pose proof (gain_positive lo hi Hlt) as Hgain.
  assert (Hmono : forall v v' : Q,
            (v <= v')%Q ->
            (ToUint8Clamp (rescale source bands (Some (Fin v)))
             <= ToUint8Clamp (rescale source bands (Some (Fin v'))))%Z).
  { intros v v' Hv. rewrite !(rescale_Fin _ _ _ _ _ Hlo Hhi Hlt).
    apply ToUint8Clamp_mono. apply Qplus_le_l.
    apply Qmult_le_l; assumption. }
  split; [exact Hmono|].
  intros v Hv.
  assert (Hzero : ToUint8Clamp (rescale source bands (Some (Fin lo))) = 0%Z).
  { rewrite (rescale_Fin _ _ _ _ _ Hlo Hhi Hlt). unfold ToUint8Clamp.
    assert (H0 : Qle_bool
                   (inject_Z 255 / (hi + - lo) * lo
                    + - lo * (inject_Z 255 / (hi + - lo))) 0 = true).
    { apply Qle_bool_iff.
      assert (E : (inject_Z 255 / (hi + - lo) * lo
                   + - lo * (inject_Z 255 / (hi + - lo)) == 0)%Q) by ring.
      rewrite E. apply Qle_refl. }
    rewrite H0. reflexivity. }
  pose proof (Hmono v lo Hv) as Hle.
  pose proof (ToUint8Clamp_range (rescale source bands (Some (Fin v)))) as Hr.
  lia.
Qed.


(** X11.  whatever class the first band of a source is, the range that
    the source falls back on is not empty: the minimum of the class is
    below its maximum. *)
Theorem default_range_is_not_empty (array : option TypedArray) :
  ltb (getMinforDataType array) (getMaxforDataType array) = true.
Proof. destruct array as [[[] elems]|]; reflexivity. Qed.

(** X12.  bytes pass unchanged.  For a source that configures neither
    [min] nor [max] and whose first band is an array of unsigned bytes,
    clamped or not, or no typed array of the list, an integer sample
    from 0 to 255 is rescaled to itself. *)
Theorem bytes_pass_unchanged (source : SourceInfo) (band : TypedArray)
    (rest : list TypedArray) (z : Z) :
  min source = None -> max source = None ->
  kind band = Uint8Array \/ kind band = Uint8ClampedArray \/ kind band = OtherArray ->
  (0 <= z <= 255)%Z ->
  ToUint8Clamp (rescale source (Some (band :: rest)) (Some (of_Z z))) = z.
Proof.
  intros Hmin Hmax Hkind Hz.
  assert (Hlo : minOf source (Some (band :: rest)) = Fin 0).
  { unfold minOf. rewrite Hmin. cbn. destruct Hkind as [->|[->| ->]]; reflexivity. }
  assert (Hhi : maxOf source (Some (band :: rest)) = Fin (inject_Z 255)).
  { unfold maxOf. rewrite Hmax. cbn. destruct Hkind as [->|[->| ->]]; reflexivity. }
  unfold of_Z at 1. rewrite (rescale_Fin _ _ _ _ _ Hlo Hhi eq_refl).
  rewrite <- (ToUint8Clamp_byte z Hz) at 2. unfold of_Z.
  assert (Heq : (inject_Z 255 / (inject_Z 255 + - 0) * inject_Z z
                 + - 0 * (inject_Z 255 / (inject_Z 255 + - 0)) == inject_Z z)%Q)
    by (field; discriminate).
  exact (ToUint8Clamp_Qeq _ _ Heq).
Qed.

(** X13.  a range that is empty, [max] equal to [min], makes the gain
    infinite, and every sample, whatever it is, is stored as 0 or as
    255. *)
Theorem empty_range_gives_black_or_white (source : SourceInfo)
    (bands : option (list TypedArray)) (m : Q) (sourceValue : option num) :
  minOf source bands = Fin m -> maxOf source bands = Fin m ->
  ToUint8Clamp (rescale source bands sourceValue) = 0%Z \/
  ToUint8Clamp (rescale source bands sourceValue) = 255%Z.
Proof.
  intros Hlo Hhi. unfold rescale, gainOf, biasOf. rewrite Hlo, Hhi.
  cbn [sub neg add div of_Z].
  assert (Hz : Qeq_bool (m + - m) 0 = true).
  { apply Qeq_bool_iff. ring. }
  rewrite Hz. cbn [inf_of_sign Qcompare]. 
  change (inject_Z 255 ?= 0)%Q with Gt. cbn [inf_of_sign].
  destruct (ToNumber sourceValue) as [x| | |]; cbn [mul];
    try destruct (x ?= 0)%Q; destruct (- m ?= 0)%Q; cbn; auto.
Qed.

(** *** Examples of rescaling *)

Lemma rescaling_is_monotone_witness :
  (ToUint8Clamp
     (rescale (source_info (Some (of_Z 100)) (Some (of_Z 200)) None) None
        (Some (Fin 120)))
   <= ToUint8Clamp
        (rescale (source_info (Some (of_Z 100)) (Some (of_Z 200)) None) None
           (Some (Fin 180))))%Z /\
  ToUint8Clamp
    (rescale (source_info (Some (of_Z 100)) (Some (of_Z 200)) None) None
       (Some (Fin 50))) = 0%Z.
Proof.
  destruct (rescaling_is_monotone
              (source_info (Some (of_Z 100)) (Some (of_Z 200)) None) None
              (inject_Z 100) (inject_Z 200) eq_refl eq_refl eq_refl)
    as [Hmono Hzero].
  split; [apply Hmono | apply Hzero]; discriminate.
Defined.


Lemma bytes_pass_unchanged_witness :
  ToUint8Clamp
    (rescale (source_info None None None) (Some [bytes [77%Z]]) (Some (of_Z 77)))
  = 77%Z.
Proof.
  apply (bytes_pass_unchanged (source_info None None None) (bytes [77%Z]) [] 77);
    [reflexivity | reflexivity | left; reflexivity | lia].
Defined.

Lemma empty_range_gives_black_or_white_witness :
  ToUint8Clamp
    (rescale (source_info (Some (of_Z 5)) (Some (of_Z 5)) None) None
       (Some (of_Z 7))) = 0%Z \/
  ToUint8Clamp
    (rescale (source_info (Some (of_Z 5)) (Some (of_Z 5)) None) None
       (Some (of_Z 7))) = 255%Z.
Proof.
  exact (empty_range_gives_black_or_white
           (source_info (Some (of_Z 5)) (Some (of_Z 5)) None) None
           (inject_Z 5) (Some (of_Z 7)) eq_refl eq_refl).
Defined.

End RescaleFacts.

(** ** Textures and the tiles they can upload *)

Module UploadFacts.
Import JsNum JsNumFacts Eff EffFacts TileTexture TileTextureFacts TileTextureTerms.

(** *** The bytes per pixel *)

(** Over a tile without pixels the bytes per pixel are no number of the
    switch. *)
Lemma bytesPerPixel_no_pixels (byteLength : nat) (c : Z) :
  eqb (div (of_nat byteLength) (of_nat 0)) (of_Z c) = false.
Proof.
  unfold div, of_nat, of_Z. cbn [Z.of_nat].
  change (Qeq_bool (inject_Z 0) 0) with true. cbv iota.
  destruct (inject_Z (Z.of_nat byteLength) ?= 0)%Q; reflexivity.
Qed.

(** Over a tile with pixels the quotient is [c] exactly when the data
    has [c] bytes for every pixel. *)
Lemma bytesPerPixel_eqb (byteLength pixels c : nat) :
  0 < pixels ->
  eqb (div (of_nat byteLength) (of_nat pixels)) (of_Z (Z.of_nat c))
  = (byteLength =? c * pixels).
Proof.
  intros Hp. unfold div, of_nat, of_Z.
  assert (Hnz : ~ (inject_Z (Z.of_nat pixels) == 0)%Q).
  { unfold Qeq. simpl. lia. }
  assert (E : Qeq_bool (inject_Z (Z.of_nat pixels)) 0 = false).
  { destruct (Qeq_bool (inject_Z (Z.of_nat pixels)) 0) eqn:E; [|reflexivity].
    apply Qeq_bool_iff in E. contradiction. }
  rewrite E. clear E. cbn [eqb].
  destruct (Nat.eqb_spec byteLength (c * pixels)) as [->|Hne].
  - apply Qeq_bool_iff. rewrite Nat2Z.inj_mul, inject_Z_mult. field. exact Hnz.
  - destruct (Qeq_bool _ _) eqn:Heq; [|reflexivity].
    apply Qeq_bool_iff in Heq. exfalso. apply Hne.
    assert (H : (inject_Z (Z.of_nat byteLength)
                 == inject_Z (Z.of_nat c) * inject_Z (Z.of_nat pixels))%Q).
    { rewrite <- Heq. field. exact Hnz. }
    rewrite <- inject_Z_mult in H. unfold Qeq in H. simpl in H. lia.
Qed.

(** The switch over the bytes per pixel, in whole numbers. *)
Lemma uploadDataTexture_cases (size : nat * nat) (byteLength : nat) (w : World) :
  let pixels := size.1 * size.2 in
  let bound := (bindAndConfigure w).1 in
  let upload format :=
    (log_call (texImage2D_pixels format size.1 size.2 TileData) bound,
     inr tt : Error + unit) in
  uploadDataTexture size byteLength w
  = if (0 <? pixels) && (byteLength =? 1 * pixels) then upload LUMINANCE
    else if (0 <? pixels) && (byteLength =? 3 * pixels) then upload RGB
    else if (0 <? pixels) && (byteLength =? 4 * pixels) then upload RGBA
    else (bound,
          inl (UnsupportedBytesPerPixel (div (of_nat byteLength) (of_nat pixels)))).
Proof.
  intros pixels bound upload. subst upload bound.
  unfold uploadDataTexture. fold pixels.
  destruct (Nat.ltb_spec 0 pixels) as [Hp|Hp]; cbn [andb].
  - change (of_Z 1) with (of_Z (Z.of_nat 1)).
    change (of_Z 3) with (of_Z (Z.of_nat 3)).
    change (of_Z 4) with (of_Z (Z.of_nat 4)).
    rewrite !(bytesPerPixel_eqb _ _ _ Hp).
    destruct (byteLength =? 1 * pixels); [reflexivity|].
    destruct (byteLength =? 3 * pixels); [reflexivity|].
    destruct (byteLength =? 4 * pixels); reflexivity.
  - replace pixels with 0 by lia. rewrite !bytesPerPixel_no_pixels. reflexivity.
Qed.

(** X14.  the format of a data upload.  The texture is bound and
    configured first.  Then the data is uploaded as LUMINANCE, RGB or
    RGBA when the tile has pixels and the data has exactly 1, 3 or 4
    bytes for each; in every other case, a tile without pixels among
    them, the function throws and no [texImage2D] call is made. *)
Theorem data_upload_format (size : nat * nat) (byteLength : nat) (w : World) :
  let pixels := size.1 * size.2 in
  let bound := (bindAndConfigure w).1 in
  let upload format :=
    (log_call (texImage2D_pixels format size.1 size.2 TileData) bound,
     inr tt : Error + unit) in
  uploadDataTexture size byteLength w
  = if (0 <? pixels) && (byteLength =? 1 * pixels) then upload LUMINANCE
    else if (0 <? pixels) && (byteLength =? 3 * pixels) then upload RGB
    else if (0 <? pixels) && (byteLength =? 4 * pixels) then upload RGBA
    else (bound,
          inl (UnsupportedBytesPerPixel (div (of_nat byteLength) (of_nat pixels)))).
Proof. exact (uploadDataTexture_cases size byteLength w). Qed.

(** *** Tiles that cannot be uploaded *)

Lemma nothing_uploaded_refl (w : World) : nothing_uploaded w w.
Proof. unfold nothing_uploaded. auto 10. Qed.

Lemma nothing_uploaded_trans (a b c : World) :
  nothing_uploaded a b -> nothing_uploaded b c -> nothing_uploaded a c.
Proof.
  unfold nothing_uploaded.
  intros (? & ? & ? & ? & ? & Hl) (? & ? & ? & ? & ? & Hl').
  repeat split; try congruence. auto.
Qed.

Lemma bound_nothing_uploaded (w : World) :
  nothing_uploaded w (bindAndConfigure w).1.
Proof.
  unfold nothing_uploaded, full_uploads, placeholder_uploads.
  cbn [bindAndConfigure gl bind modify fst].
  rewrite !count_calls_log. cbn. repeat split; auto; lia.
Qed.

(** The upload of a tile that is not uploadable throws, and uploads
    nothing. *)
Lemma uploadTile_unsupported (w : World) :
  ~ uploadable (tile_kind w) (size w) ->
  (exists e, (uploadTile_ w).2 = inl e) /\
  nothing_uploaded w (uploadTile_ w).1 /\
  tile_state (uploadTile_ w).1 = tile_state w /\
  tile_listeners (uploadTile_ w).1 = tile_listeners w /\
  loaded (uploadTile_ w).1 = loaded w.
Proof.
  intros Hno. unfold uploadTile_, bind, get.
  destruct (tile_kind w) as [|byteLength|] eqn:Hk.
  - exfalso. apply Hno. exact I.
  - rewrite uploadDataTexture_cases.
    assert (Hcase : forall c,
              (0 <? (size w).1 * (size w).2)
              && (byteLength =? c * ((size w).1 * (size w).2)) = true ->
              c = 1 \/ c = 3 \/ c = 4 -> False).
    { intros c Hc Hcs. apply Hno. apply andb_true_iff in Hc as [Hp Hb].
      apply Nat.ltb_lt in Hp. apply Nat.eqb_eq in Hb.
      split; [exact Hp|]. destruct Hcs as [->|[->| ->]]; auto. }
    destruct (_ && _) eqn:H1; [exfalso; apply (Hcase 1); auto|].
    destruct (_ && _) eqn:H3 in |- *; [exfalso; apply (Hcase 3); auto|].
    destruct (_ && _) eqn:H4 in |- *; [exfalso; apply (Hcase 4); auto|].
    cbn [fst snd]. split; [eexists; reflexivity|].
    pose proof (bound_nothing_uploaded w) as Hb.
    split; [exact Hb|]. cbn. auto.
  - cbn. split; [eexists; reflexivity|].
    split; [apply nothing_uploaded_refl | auto].
Qed.

Lemma handleTileChange_eq (w : World) :
  handleTileChange_ w
  = if TileState_eqb (tile_state w) LOADED then
      match uploadTile_ (set_loaded true w) with
      | (w1, inl e) => (w1, inl e)
      | (w1, inr _) => (count_dispatch w1, inr tt)
      end
    else (w, inr tt).
Proof.
  cbv [handleTileChange_ bind get modify ret].
  destruct (TileState_eqb (tile_state w) LOADED); [|reflexivity].
  destruct (uploadTile_ (set_loaded true w)) as [w1 [e|[]]]; reflexivity.
Qed.

Lemma handleTileChange_unsupported (w : World) :
  ~ uploadable (tile_kind w) (size w) ->
  nothing_uploaded w (handleTileChange_ w).1 /\
  tile_state (handleTileChange_ w).1 = tile_state w /\
  tile_listeners (handleTileChange_ w).1 = tile_listeners w /\
  (tile_state w = LOADED ->
   loaded (handleTileChange_ w).1 = true /\
   exists e, (handleTileChange_ w).2 = inl e).
Proof.
  intros Hno. rewrite handleTileChange_eq.
  destruct (TileState_eqb (tile_state w) LOADED) eqn:Hs.
  - destruct (uploadTile_unsupported (set_loaded true w) Hno)
      as ([e He] & Hnothing & Hst & Hls & Hld).
    destruct (uploadTile_ (set_loaded true w)) as [w1 r]. cbn [fst snd] in *.
    subst r. cbn [fst snd].
    destruct Hnothing as (Hk & Hsz & Hf & Hp & Hd & _).
    split; [|split; [exact Hst | split; [exact Hls|]]].
    + unfold nothing_uploaded. rewrite Hk, Hsz, Hf, Hp, Hd, Hld. cbn.
      repeat split.
    + intros _. split; [rewrite Hld; reflexivity | eexists; reflexivity].
  - cbn. split; [apply nothing_uploaded_refl|]. split; [reflexivity|].
    split; [reflexivity|]. intros Hl. rewrite Hl in Hs. discriminate.
Qed.

Lemma call_listeners_unsupported (ls : list Listener) :
  forall w : World,
    ~ uploadable (tile_kind w) (size w) ->
    nothing_uploaded w (call_listeners ls w).1 /\
    tile_listeners (call_listeners ls w).1 = tile_listeners w /\
    (tile_state w = LOADED -> 0 < registrations ls ->
     loaded (call_listeners ls w).1 = true /\
     exists e, (call_listeners ls w).2 = inl e).
Proof.
  induction ls as [|l ls IH]; intros w Hno.
  - cbn. split; [apply nothing_uploaded_refl|]. split; [reflexivity|].
    unfold registrations. cbn. lia.
  - destruct l as [|id]; cbn [call_listeners].
    + unfold bind.
      destruct (handleTileChange_unsupported w Hno) as (Hn & Hst & Hls & Hl).
      destruct (handleTileChange_ w) as [w1 [e|[]]]; cbn [fst snd] in *.
      * split; [exact Hn|]. split; [exact Hls|]. intros Hs _.
        split; [apply Hl, Hs | eexists; reflexivity].
      * assert (Hno1 : ~ uploadable (tile_kind w1) (size w1)).
        { destruct Hn as (-> & -> & _). exact Hno. }
        destruct (IH w1 Hno1) as (Hn' & Hls' & Hl').
        split; [eapply nothing_uploaded_trans; eassumption|].
        split; [congruence|]. intros Hs _.
        destruct (Hl Hs) as [_ [e He]]. discriminate.
    + rewrite registrations_other. apply IH. exact Hno.
Qed.

Lemma handle_unsupported (ev : Event) (w : World) :
  ~ uploadable (tile_kind w) (size w) ->
  nothing_uploaded w (handle ev w).1.
Proof.
  intros Hno. destruct ev as [s|].
  - assert (Hh : handle (TileChange s) w
                 = call_listeners (tile_listeners w) (set_tile_state s w))
      by reflexivity.
    rewrite Hh.
    destruct (call_listeners_unsupported (tile_listeners w) (set_tile_state s w) Hno)
      as (Hn & _). exact Hn.
  - destruct (handle_Dispose w) as (Hk & Hs & _ & Hb & Hf & Hd).
    unfold nothing_uploaded. repeat split; try assumption; try lia.
    intros Hl. exact Hl.
Qed.

Lemma run_unsupported (evs : list Event) :
  forall w : World,
    ~ uploadable (tile_kind w) (size w) -> nothing_uploaded w (run evs w).
Proof.
  induction evs as [|ev evs IH]; intros w Hno; [apply nothing_uploaded_refl|].
  unfold run. cbn [fold_left]. fold (run evs (handle ev w).1).
  pose proof (handle_unsupported ev w Hno) as Hn.
  eapply nothing_uploaded_trans; [exact Hn|]. apply IH.
  destruct Hn as (-> & -> & _). exact Hno.
Qed.

(** *** Textures over such tiles, and over loaded tiles *)

Lemma uploadable_dec (k : TileKind) (size : nat * nat) :
  uploadable k size \/ ~ uploadable k size.
Proof.
  destruct k as [|byteLength|]; cbn; [left; exact I | | right; tauto].
  destruct (Nat.eq_dec (size.1 * size.2) 0) as [Hz|Hz]; [right; lia|].
  destruct (Nat.eq_dec byteLength (1 * (size.1 * size.2)));
    destruct (Nat.eq_dec byteLength (3 * (size.1 * size.2)));
    destruct (Nat.eq_dec byteLength (4 * (size.1 * size.2)));
    try (left; lia); right; lia.
Qed.

(** X15.  a tile that cannot be uploaded, a tile of no known class or a
    data tile that has not 1, 3 or 4 bytes for every pixel, is never
    uploaded and the texture never notifies its listeners, whatever
    happens after the construction.  The notification that the tile is
    loaded ends in an exception, and leaves the texture marked as loaded
    although it holds the placeholder. *)
Theorem unsupported_tile_is_never_uploaded (k : TileKind) (s : TileState)
    (others : list nat) (size : nat * nat) (evs : list Event) :
  ~ uploadable k size ->
  s <> LOADED ->
  let w0 := constructed k s others size in
  full_uploads (run evs w0) = 0 /\
  dispatched (run evs w0) = 0 /\
  placeholder_uploads (run evs w0) = 1 /\
  (exists e, (handle (TileChange LOADED) w0).2 = inl e) /\
  loaded (run (TileChange LOADED :: evs) w0) = true.
Proof.
  intros Hno Hs w0.
  destruct (constructed_pending k s others size Hs)
    as (Hk & Hsize & Hreg & Hblank & Hfull & Hdis & _).
  fold w0 in Hk, Hsize, Hreg, Hblank, Hfull, Hdis.
  assert (Hno0 : ~ uploadable (tile_kind w0) (TileTexture.size w0))
    by (rewrite Hk, Hsize; exact Hno).
  destruct (run_unsupported evs w0 Hno0) as (_ & _ & Hf & Hp & Hd & _).
  split; [lia|]. split; [lia|]. split; [lia|].
  assert (Hh : handle (TileChange LOADED) w0
               = call_listeners (tile_listeners w0) (set_tile_state LOADED w0))
    by reflexivity.
  destruct (call_listeners_unsupported (tile_listeners w0)
              (set_tile_state LOADED w0) Hno0) as (Hn & _ & Hl).
  destruct (Hl eq_refl ltac:(change (tile_listeners (set_tile_state LOADED w0))
                               with (tile_listeners w0) in *; lia))
    as [Hloaded Hthrows].
  split; [rewrite Hh; exact Hthrows|].
  unfold run. cbn [fold_left]. fold (run evs (handle (TileChange LOADED) w0).1).
  rewrite Hh.
  assert (Hno1 : ~ uploadable
                     (tile_kind (call_listeners (tile_listeners w0)
                                   (set_tile_state LOADED w0)).1)
                     (TileTexture.size (call_listeners (tile_listeners w0)
                                          (set_tile_state LOADED w0)).1)).
  { destruct Hn as (-> & -> & _). exact Hno0. }
  destruct (run_unsupported evs _ Hno1) as (_ & _ & _ & _ & _ & Hkeep).
  apply Hkeep. exact Hloaded.
Qed.

Lemma registrations_only_others (others : list nat) :
  registrations (other_listener <$> others) = 0.
Proof.
  induction others as [|id others IH]; [reflexivity|].
  change (registrations (other_listener id :: (other_listener <$> others)) = 0).
  rewrite registrations_other. exact IH.
Qed.

(** X16.  over a tile that is loaded already the constructor uploads no
    placeholder and subscribes to nothing: it uploads the tile at once,
    and throws if the tile cannot be uploaded.  Nothing that happens
    later uploads anything or makes the texture notify its listeners. *)
Theorem loaded_tile_is_uploaded_at_construction (k : TileKind)
    (others : list nat) (size : nat * nat) (evs : list Event) :
  let start := before_construction k LOADED others size in
  let w0 := constructed k LOADED others size in
  loaded w0 = true /\
  tile_listeners w0 = other_listener <$> others /\
  placeholder_uploads (run evs w0) = 0 /\
  dispatched (run evs w0) = 0 /\
  (uploadable k size ->
   (constructor start).2 = inr tt /\ full_uploads (run evs w0) = 1) /\
  (~ uploadable k size ->
   (exists e, (constructor start).2 = inl e) /\ full_uploads (run evs w0) = 0).
Proof.
  intros start w0.
  set (w1 := log_call createTexture
               (log_call flushBufferData (set_loaded true start))).
  assert (Hctor : constructor start = uploadTile_ w1) by reflexivity.
  assert (Hw0 : w0 = (uploadTile_ w1).1).
  { subst w0. unfold constructed. fold start. rewrite Hctor. reflexivity. }
  clearbody w0.
  assert (Hcounts : full_uploads w1 = 0 /\ placeholder_uploads w1 = 0).
  { subst w1. unfold full_uploads, placeholder_uploads.
    rewrite !count_calls_log. cbn. auto. }
  destruct Hcounts as [Hf1 Hp1].
  destruct (uploadable_dec k size) as [Hup|Hno].
  - destruct (uploadTile_uploadable w1 Hup)
      as (w' & Hrun & Hf & Hp & Hk & Hs & _ & Hls & Hd & Hl).
    rewrite Hrun in Hw0. cbn [fst] in Hw0. subst w0.
    assert (Hup' : uploadable (tile_kind w') (TileTexture.size w'))
      by (rewrite Hk, Hs; exact Hup).
    assert (Hreg : registrations (tile_listeners w') = 0)
      by (rewrite Hls; apply registrations_only_others).
    destruct (run_unregistered evs w' Hup' Hreg) as (Hp' & Hf' & Hd').
    split; [rewrite Hl; reflexivity|]. split; [rewrite Hls; reflexivity|].
    split; [lia|]. split; [rewrite Hd', Hd; reflexivity|]. split.
    + intros _. split; [rewrite Hctor, Hrun; reflexivity | lia].
    + intros Hno. contradiction.
  - destruct (uploadTile_unsupported w1 Hno)
      as (Hthrows & (Hk & Hs & Hf & Hp & Hd & _) & _ & Hls & Hl).
    rewrite <- Hw0 in Hk, Hs, Hf, Hp, Hd, Hls, Hl.
    assert (Hno0 : ~ uploadable (tile_kind w0) (TileTexture.size w0))
      by (rewrite Hk, Hs; exact Hno).
    destruct (run_unsupported evs w0 Hno0) as (_ & _ & Hf' & Hp' & Hd' & _).
    split; [rewrite Hl; reflexivity|]. split; [rewrite Hls; reflexivity|].
    split; [lia|]. split; [rewrite Hd', Hd; reflexivity|]. split.
    + intros Hup. contradiction.
    + intros _. split; [rewrite Hctor; exact Hthrows | lia].
Qed.

Lemma unsupported_tile_is_never_uploaded_witness :
  ~ uploadable (DataTile 8) (2, 2) /\
  let w0 := constructed (DataTile 8) IDLE [7] (2, 2) in
  let evs := [TileChange LOADED; Dispose; TileChange LOADED] in
  full_uploads (run evs w0) = 0 /\
  dispatched (run evs w0) = 0 /\
  placeholder_uploads (run evs w0) = 1 /\
  loaded (run (TileChange LOADED :: evs) w0) = true.
Proof.
  assert (Hno : ~ uploadable (DataTile 8) (2, 2)) by (cbn; lia).
  split; [exact Hno|].
  destruct (unsupported_tile_is_never_uploaded (DataTile 8) IDLE [7] (2, 2)
              [TileChange LOADED; Dispose; TileChange LOADED] Hno)
    as (Hf & Hd & Hp & _ & Hl); [discriminate|].
  repeat split; assumption.
Defined.

End UploadFacts.

(** ** The bands of a tile *)

Module CompositeFacts.
Import JsNum JsNumFacts Eff EffFacts GeoTIFF GeoTIFFSamples GeoTIFFTileFacts.

(** *** The alpha band *)

Lemma addAlpha_prefix (infos : list SourceInfo) (n : nat) :
  n <= length infos ->
  addAlpha_of infos n = true <->
  Exists (fun source => nodata source <> None) (take n infos).
Proof.
  unfold addAlpha_of. induction n as [|n IH]; intros Hn.
  - cbn. split; [discriminate | intros H; inversion H].
  - rewrite for_each_S.
    destruct (infos !! n) as [source|] eqn:Hsource;
      [|apply lookup_ge_None in Hsource; lia].
    rewrite (take_S_r _ _ _ Hsource), Exists_app, <- IH by lia.
    destruct (nodata source) as [v|] eqn:Hv.
    + split; [|reflexivity]. intros _. right. constructor. rewrite Hv. discriminate.
    + split; [intros H; left; exact H|].
      intros [H|H]; [exact H|].
      inversion H as [? ? Hx|? ? Hx]; [congruence | inversion Hx].
Qed.

(** X17.  a tile gets an alpha band exactly when one of the sources
    configures a [nodata] value, whichever value. *)
Theorem alpha_band_iff_some_nodata (infos : list SourceInfo) :
  addAlpha_of infos (length infos) = true <->
  Exists (fun source => nodata source <> None) infos.
Proof.
  rewrite (addAlpha_prefix infos (length infos)) by lia.
  rewrite firstn_all. reflexivity.
Qed.

(** *** The upload of a tile *)

Section Upload.

Context {Projection : Type}.

Abbreviation Source := (GeoTIFFSource (Projection := Projection)).

(** The bands of a pixel, layout by layout. *)
Lemma bandCount_of_layout (this : Source) (spp : nat) :
  is_configured this spp ->
  let n := length (sourceInfo_ this) in
  let alpha := addAlpha_of (sourceInfo_ this) (length (sourceImagery_ this)) in
  bandCount_of this spp
  = if alpha then (if (n =? 1) && (spp =? 4) then 5 else 4) else spp * n.
Proof.
  intros (_ & Hlen & Hn & Hpolicy) n alpha. subst n alpha.
  unfold bandCount_of. rewrite Hlen.
  destruct (addAlpha_of _ _); cbn [additionalBands_of].
  - destruct (length (sourceInfo_ this)) as [|[|[|[|n]]]]; try lia;
      cbn [Nat.eqb] in Hpolicy |- *.
    + destruct Hpolicy as [->|[->| ->]]; reflexivity.
    + subst spp. reflexivity.
    + subst spp. reflexivity.
  - lia.
Qed.

(** The layouts whose band count the upload accepts. *)
Lemma layout_uploads (n spp : nat) (alpha : bool) :
  1 <= n <= 3 ->
  (if n =? 1 then spp = 1 \/ spp = 3 \/ spp = 4 else spp = 1) ->
  let bands := if alpha then (if (n =? 1) && (spp =? 4) then 5 else 4) else spp * n in
  (bands = 1 \/ bands = 3 \/ bands = 4) <->
  ~ ((n = 2 /\ alpha = false) \/ (n = 1 /\ spp = 4 /\ alpha = true)).
Proof.
  intros Hn Hpolicy bands. subst bands.
  destruct n as [|[|[|[|n]]]]; try lia; cbn [Nat.eqb andb] in Hpolicy |- *.
  - destruct Hpolicy as [->|[->| ->]]; destruct alpha; cbn; split;
      try (intros _ [[? ?]|[? [? ?]]]; (lia || discriminate));
      try (intros _; lia);
      try (intros [?|[?|?]]; lia).
    intros H. exfalso. apply H. right. auto.
  - subst spp. destruct alpha; cbn; split;
      try (intros _ [[? ?]|[? [? ?]]]; (lia || discriminate));
      try (intros _; lia);
      try (intros [?|[?|?]]; lia).
    intros H. exfalso. apply H. left. auto.
  - subst spp. destruct alpha; cbn; split;
      try (intros _ [[? ?]|[? [? ?]]]; (lia || discriminate));
      try (intros _; lia).
Qed.

(** X18.  the tiles of a configured source and the upload of data
    textures.  A pixel of a tile has 4 bands when a source configures
    [nodata], 5 for a single source of 4 bands, and otherwise as many
    bands as the sources have together.  The upload of the tile as a
    data texture returns when that number is 1, 3 or 4 and throws
    otherwise: for two sources without a [nodata] value, and for a single
    source of 4 bands with one. *)
Theorem composed_tile_upload (this : Source) (spp : nat) (size : nat * nat)
    (sourceSamples : list (list TypedArray)) (w : TileTexture.World) :
  is_configured this spp ->
  well_formed_samples (length (sourceInfo_ this)) spp sourceSamples ->
  0 < size.1 * size.2 ->
  let n := length (sourceInfo_ this) in
  let alpha := addAlpha_of (sourceInfo_ this) (length (sourceImagery_ this)) in
  let data := loadTile_ this size sourceSamples in
  let result := TileTexture.uploadDataTexture size (length data) w in
  length data = size.1 * size.2 * bandCount_of this spp /\
  bandCount_of this spp
  = (if alpha then (if (n =? 1) && (spp =? 4) then 5 else 4) else spp * n) /\
  ((exists e, result.2 = inl e) <->
   (n = 2 /\ alpha = false) \/ (n = 1 /\ spp = 4 /\ alpha = true)) /\
  (result.2 = inr tt <->
   ~ ((n = 2 /\ alpha = false) \/ (n = 1 /\ spp = 4 /\ alpha = true))).
Proof.
  intros Hconf _ Hpixels n alpha data result.
  pose proof (bandCount_of_layout this spp Hconf) as Hbands.
  cbv zeta in Hbands. fold n alpha in Hbands.
  destruct Hconf as (Hspp & Hlen & Hn & Hpolicy). fold n in Hn, Hpolicy.
  assert (Hdata : length data = size.1 * size.2 * bandCount_of this spp).
  { subst data. rewrite (loadTile_compose _ _ _ _ Hspp). cbv zeta.
    apply compose_length. }
  split; [exact Hdata|]. split; [exact Hbands|].
  pose proof (layout_uploads n spp alpha Hn Hpolicy) as Hok.
  cbv zeta in Hok. rewrite <- Hbands in Hok.
  assert (Hresult :
    (result.2 = inr tt <->
     bandCount_of this spp = 1 \/ bandCount_of this spp = 3 \/
     bandCount_of this spp = 4) /\
    ((exists e, result.2 = inl e) <->
     ~ (bandCount_of this spp = 1 \/ bandCount_of this spp = 3 \/
        bandCount_of this spp = 4))).
  { subst result. rewrite UploadFacts.uploadDataTexture_cases, Hdata.
    apply Nat.ltb_lt in Hpixels. rewrite Hpixels. cbn [andb].
    apply Nat.ltb_lt in Hpixels.
    assert (Heqb : forall c,
              (size.1 * size.2 * bandCount_of this spp =? c * (size.1 * size.2))
              = (bandCount_of this spp =? c)).
    { intros c. destruct (Nat.eqb_spec (bandCount_of this spp) c) as [->|Hne].
      - apply Nat.eqb_eq. lia.
      - apply Nat.eqb_neq. nia. }
    rewrite !Heqb.
    destruct (Nat.eqb_spec (bandCount_of this spp) 1) as [H1|H1];
      [cbn [snd]; split;
       [split; [intros _; auto | intros _; reflexivity]
       |split; [intros [? He]; discriminate He
               |intros H; exfalso; apply H; auto]]|].
    destruct (Nat.eqb_spec (bandCount_of this spp) 3) as [H3|H3];
      [cbn [snd]; split;
       [split; [intros _; auto | intros _; reflexivity]
       |split; [intros [? He]; discriminate He
               |intros H; exfalso; apply H; auto]]|].
    destruct (Nat.eqb_spec (bandCount_of this spp) 4) as [H4|H4];
      [cbn [snd]; split;
       [split; [intros _; auto | intros _; reflexivity]
       |split; [intros [? He]; discriminate He
               |intros H; exfalso; apply H; auto]]|].
    cbn [snd]. split; split.
    - discriminate.
    - intros [?|[?|?]]; contradiction.
    - intros _ [?|[?|?]]; contradiction.
    - intros _. eexists. reflexivity. }
  destruct Hresult as [Hret Hthrow]. split.
  - rewrite Hthrow. split.
    + intros Hnot.
      destruct n as [|[|[|[|n']]]]; try lia; destruct alpha;
        cbn [Nat.eqb andb] in Hpolicy;
        try (exfalso; apply Hnot; apply Hok; intros [[? ?]|[? [? ?]]];
             (lia || discriminate)).
      * right. split; [reflexivity|]. split; [|reflexivity].
        destruct Hpolicy as [->|[->| ->]]; try reflexivity;
          exfalso; apply Hnot; apply Hok;
          intros [[? ?]|[? [? ?]]]; (lia || discriminate).
      * left. auto.
    + intros Hbad Hgood. apply Hok in Hgood. contradiction.
  - rewrite Hret. exact Hok.
Qed.

End Upload.

(** *** The opacity of a pixel *)

Section SingleWriter.

(** A pass over the pixels of which only the pass at [p] writes the
    element [i], and writes [v] there unless [keep] holds. *)
Variable pass : nat -> list Z -> list Z.
Variables (i p : nat) (v : Z) (keep : bool).

Hypothesis pass_length : forall q d, length (pass q d) = length d.

Hypothesis pass_other :
  forall q d, q <> p -> i < length d -> pass q d !! i = d !! i.

Hypothesis pass_self :
  forall d, i < length d -> pass p d !! i = if keep then d !! i else Some v.

Lemma passes_before (n : nat) (d : list Z) :
  n <= p -> i < length d -> for_each n pass d !! i = d !! i.
Proof.
  intros Hn Hi.
  apply (for_each_invariant
           (fun x => length x = length d /\ x !! i = d !! i)); [auto|].
  intros q x Hq [Hlen Hx]. rewrite pass_length.
  split; [exact Hlen|]. rewrite pass_other by lia. exact Hx.
Qed.

Lemma single_writer (d : list Z) :
  forall n,
    p < n -> i < length d ->
    for_each n pass d !! i = if keep then d !! i else Some v.
Proof.
  induction n as [|n IH]; intros Hp Hi; [lia|].
  rewrite for_each_S.
  assert (Hlen : length (for_each n pass d) = length d)
    by apply (passes_length _ pass_length).
  destruct (decide (n = p)) as [->|Hne].
  - rewrite pass_self by lia. rewrite passes_before by lia. reflexivity.
  - rewrite pass_other by lia. apply IH; [lia | exact Hi].
Qed.

End SingleWriter.

Section Opacity.

Variable sourceSamples : list (list TypedArray).

Ltac unfold_pass :=
  unfold pixel_pass, for_each; cbn [seq fold_left]; unfold source_pass;
  cbn [lookup list_lookup]; unfold for_each; cbn [seq fold_left];
  unfold sample_step, transparent_pixel, is_nodata;
  cbn [negb fst snd Nat.eqb seq forallb].

Ltac lookups :=
  repeat match goal with
         | |- context [<[?i := ?x]> ?l !! ?j] =>
             first
               [ rewrite (list_lookup_insert_ne l i j x) by lia
               | replace i with j by lia;
                 rewrite list_lookup_insert_eq
                   by (rewrite ?length_insert; lia) ]
         end.

(** One source of one band. *)
Lemma gray_opacity (s0 : SourceInfo) (p q : nat) (data : list Z) :
  p * 4 + 3 < length data ->
  pixel_pass [s0] 1 1 3 4 true sourceSamples q data !! (p * 4 + 3)
  = if negb (q =? p) || transparent_pixel sourceSamples s0 1 q
    then data !! (p * 4 + 3) else Some 255%Z.
Proof.
  intros Hlen. unfold_pass.
  destruct (strict_neq (sample sourceSamples 0 0 q) _);
    cbn [negb fst snd andb orb];
    destruct (Nat.eqb_spec q p) as [->|Hne]; cbn [negb orb];
    lookups; reflexivity.
Qed.

(** One source of three bands. *)
Lemma rgb_opacity (s0 : SourceInfo) (p q : nat) (data : list Z) :
  p * 4 + 3 < length data ->
  pixel_pass [s0] 1 3 1 4 true sourceSamples q data !! (p * 4 + 3)
  = if negb (q =? p) || transparent_pixel sourceSamples s0 3 q
    then data !! (p * 4 + 3) else Some 255%Z.
Proof.
  intros Hlen. unfold_pass.
  destruct (strict_neq (sample sourceSamples 0 0 q) _);
    destruct (strict_neq (sample sourceSamples 0 1 q) _);
    destruct (strict_neq (sample sourceSamples 0 2 q) _);
    cbn [negb fst snd andb orb];
    destruct (Nat.eqb_spec q p) as [->|Hne]; cbn [negb orb];
    lookups; reflexivity.
Qed.

(** One source of four bands: the opacity lands on the fourth band. *)
Lemma rgba_opacity (s0 : SourceInfo) (p q : nat) (data : list Z) :
  p * 5 + 3 < length data ->
  pixel_pass [s0] 1 4 1 5 true sourceSamples q data !! (p * 5 + 3)
  = if negb (q =? p) || transparent_pixel sourceSamples s0 4 q
    then data !! (p * 5 + 3) else Some 255%Z.
Proof.
  intros Hlen. unfold_pass.
  destruct (strict_neq (sample sourceSamples 0 0 q) _);
    destruct (strict_neq (sample sourceSamples 0 1 q) _);
    destruct (strict_neq (sample sourceSamples 0 2 q) _);
    destruct (strict_neq (sample sourceSamples 0 3 q) _);
    cbn [negb fst snd andb orb];
    destruct (Nat.eqb_spec q p) as [->|Hne]; cbn [negb orb];
    lookups; reflexivity.
Qed.

(** Two sources: the opacity of the second lands in the next pixel. *)
Lemma two_sources_opacity (s0 s1 : SourceInfo) (p q : nat) (data : list Z) :
  p * 4 + 3 < length data ->
  pixel_pass [s0; s1] 2 1 2 4 true sourceSamples q data !! (p * 4 + 3)
  = if negb (q =? p) || transparent_pixel sourceSamples s0 1 q
    then data !! (p * 4 + 3) else Some 255%Z.
Proof.
  intros Hlen. unfold_pass.
  destruct (strict_neq (sample sourceSamples 0 0 q) _);
    destruct (strict_neq (sample sourceSamples 1 0 q) _);
    cbn [negb fst snd andb orb];
    destruct (Nat.eqb_spec q p) as [->|Hne]; cbn [negb orb];
    lookups; reflexivity.
Qed.

(** Three sources. *)
Lemma three_sources_opacity (s0 s1 s2 : SourceInfo) (p q : nat) (data : list Z) :
  p * 4 + 3 < length data ->
  pixel_pass [s0; s1; s2] 3 1 1 4 true sourceSamples q data !! (p * 4 + 3)
  = if negb (q =? p) || transparent_pixel sourceSamples s0 1 q
    then data !! (p * 4 + 3) else Some 255%Z.
Proof.
  intros Hlen. unfold_pass.
  destruct (strict_neq (sample sourceSamples 0 0 q) _);
    destruct (strict_neq (sample sourceSamples 1 0 q) _);
    destruct (strict_neq (sample sourceSamples 2 0 q) _);
    cbn [negb fst snd andb orb];
    destruct (Nat.eqb_spec q p) as [->|Hne]; cbn [negb orb];
    lookups; reflexivity.
Qed.

End Opacity.

Section OpacityOfTiles.

Context {Projection : Type}.

Abbreviation Source := (GeoTIFFSource (Projection := Projection)).

(** The element [p * bands + 3] of a tile, for a pass over the pixels
    that writes it at pixel [p] only. *)
Lemma opacity_of_passes (pass : nat -> list Z -> list Z) (bands : nat)
    (transparent : nat -> bool) (pixelCount p : nat) :
  (forall q d, length (pass q d) = length d) ->
  (forall q d,
     p * bands + 3 < length d ->
     pass q d !! (p * bands + 3)
     = if negb (q =? p) || transparent q then d !! (p * bands + 3)
       else Some 255%Z) ->
  p < pixelCount ->
  4 <= bands ->
  for_each pixelCount pass (replicate (pixelCount * bands) 0%Z)
    !! (p * bands + 3)
  = Some (if transparent p then 0 else 255)%Z.
Proof.
  intros Hlength Hpass Hp Hbands.
  assert (Hin : p * bands + 3 < pixelCount * bands) by nia.
  assert (Hrun :
    for_each pixelCount pass (replicate (pixelCount * bands) 0%Z)
      !! (p * bands + 3)
    = if transparent p
      then replicate (pixelCount * bands) 0%Z !! (p * bands + 3)
      else Some 255%Z).
  { apply (single_writer pass (p * bands + 3) p 255%Z (transparent p) Hlength).
    - intros q d Hq Hd. rewrite (Hpass q d Hd).
      apply Nat.eqb_neq in Hq. rewrite Hq. reflexivity.
    - intros d Hd. rewrite (Hpass p d Hd), Nat.eqb_refl. reflexivity.
    - exact Hp.
    - rewrite length_replicate. exact Hin. }
  rewrite Hrun. destruct (transparent p); [|reflexivity].
  apply lookup_replicate_2. exact Hin.
Qed.

(** X19.  when a source configures [nodata], the first source alone
    decides on the element at offset 3 of a pixel, which for every
    layout of 4 bands is its alpha band: it is 0 when every sample of
    the first source at the pixel is its [nodata] value, and 255
    otherwise, whatever the other sources hold there.  For a single
    source of 4 bands it takes the place of the fourth band. *)
Theorem first_source_decides_opacity (this : Source) (spp : nat)
    (size : nat * nat) (sourceSamples : list (list TypedArray))
    (source0 : SourceInfo) (p : nat) :
  is_configured this spp ->
  well_formed_samples (length (sourceInfo_ this)) spp sourceSamples ->
  addAlpha_of (sourceInfo_ this) (length (sourceImagery_ this)) = true ->
  sourceInfo_ this !! 0 = Some source0 ->
  p < size.1 * size.2 ->
  loadTile_ this size sourceSamples !! (p * bandCount_of this spp + 3)
  = Some (if transparent_pixel sourceSamples source0 spp p then 0 else 255)%Z.
Proof.
  intros (Hspp & Hlen & Hn & Hpolicy) _ Halpha Hsource Hp.
  rewrite (loadTile_compose _ _ _ _ Hspp). cbv zeta.
  unfold bandCount_of. rewrite Halpha, Hlen.
  destruct (sourceInfo_ this) as [|s0 [|s1 [|s2 [|s3 infos]]]];
    cbn [length] in Hn, Hpolicy |- *; try lia;
    injection Hsource as ->; cbn [Nat.eqb] in Hpolicy.
  - destruct Hpolicy as [->|[->| ->]];
      cbn [additionalBands_of Nat.eqb andb Nat.mul Nat.add]; unfold compose.
    + apply (opacity_of_passes _ 4 (transparent_pixel sourceSamples source0 1));
        [intros; apply pixel_pass_length | | exact Hp | lia].
      intros q d Hd. apply gray_opacity. exact Hd.
    + apply (opacity_of_passes _ 4 (transparent_pixel sourceSamples source0 3));
        [intros; apply pixel_pass_length | | exact Hp | lia].
      intros q d Hd. apply rgb_opacity. exact Hd.
    + apply (opacity_of_passes _ 5 (transparent_pixel sourceSamples source0 4));
        [intros; apply pixel_pass_length | | exact Hp | lia].
      intros q d Hd. apply rgba_opacity. exact Hd.
  - subst spp. cbn [additionalBands_of Nat.eqb andb Nat.mul Nat.add].
    unfold compose.
    apply (opacity_of_passes _ 4 (transparent_pixel sourceSamples source0 1));
      [intros; apply pixel_pass_length | | exact Hp | lia].
    intros q d Hd. apply two_sources_opacity. exact Hd.
  - subst spp. cbn [additionalBands_of Nat.eqb andb Nat.mul Nat.add].
    unfold compose.
    apply (opacity_of_passes _ 4 (transparent_pixel sourceSamples source0 1));
      [intros; apply pixel_pass_length | | exact Hp | lia].
    intros q d Hd. apply three_sources_opacity. exact Hd.
Qed.

End OpacityOfTiles.

(** *** Examples of tiles and of their upload *)

(** Two sources without a [nodata] value give tiles of two bytes per
    pixel, which the upload of data textures rejects. *)
Lemma composed_tile_upload_witness :
  let data := loadTile_ two_without_nodata (2, 1) [[bytes [5; 0]%Z]; [bytes [5; 0]%Z]] in
  length data = 4 /\
  exists e,
    (TileTexture.uploadDataTexture (2, 1) (length data)
       (TileTexture.constructed (TileTexture.DataTile 4) TileTexture.IDLE []
          (2, 1))).2 = inl e.
Proof.
  destruct (composed_tile_upload two_without_nodata 1 (2, 1)
              [[bytes [5; 0]%Z]; [bytes [5; 0]%Z]]
              (TileTexture.constructed (TileTexture.DataTile 4) TileTexture.IDLE []
                 (2, 1)))
    as (Hlen & _ & Hthrows & _);
    [repeat split; vm_compute; first [reflexivity | lia] | split; repeat constructor
    | cbn; lia |].
  split; [exact Hlen|]. apply Hthrows. left. split; reflexivity.
Defined.

(** The first pixel has data in the second source only: it is
    transparent. *)
Lemma first_source_decides_opacity_witness :
  loadTile_ two_with_nodata (2, 1) [[bytes [0; 7]%Z]; [bytes [5; 0]%Z]] !! 3
  = Some 0%Z /\
  loadTile_ two_with_nodata (2, 1) [[bytes [0; 7]%Z]; [bytes [5; 0]%Z]] !! 7
  = Some 255%Z.
Proof.
  split.
  - exact (first_source_decides_opacity two_with_nodata 1 (2, 1)
             [[bytes [0; 7]%Z]; [bytes [5; 0]%Z]]
             (source_info None None (Some (of_Z 0))) 0
             ltac:(repeat split; vm_compute; first [reflexivity | lia])
             ltac:(split; repeat constructor)
             eq_refl eq_refl ltac:(cbn; lia)).
  - exact (first_source_decides_opacity two_with_nodata 1 (2, 1)
             [[bytes [0; 7]%Z]; [bytes [5; 0]%Z]]
             (source_info None None (Some (of_Z 0))) 1
             ltac:(repeat split; vm_compute; first [reflexivity | lia])
             ltac:(split; repeat constructor)
             eq_refl eq_refl ltac:(cbn; lia)).
Defined.

End CompositeFacts.

(** ** The resolver, from its answers to the tile URLs *)

Module ResolverFacts.
Import JsNum JsNumFacts OGCMapTile OGCMapTileFacts OGCMapTileTerms.

(** *** The links of a tileset *)

Lemma find_item_first (pre : list Link) (l : Link) (post : list Link) :
  Forall (fun x => rel x <> "item") pre ->
  rel l = "item" ->
  find_item (pre ++ l :: post) = Some (href l).
Proof.
  intros Hpre Hl. induction Hpre as [|x pre Hx _ IH]; cbn [app find_item].
  - rewrite Hl. reflexivity.
  - apply String.eqb_neq in Hx. rewrite Hx. exact IH.
Qed.

Lemma find_tileMatrixSetURI_first (id : string) (pre : list TileMatrixSetLink)
    (c : TileMatrixSetLink) (post : list TileMatrixSetLink) :
  Forall (fun x => tileMatrixSet x <> id) pre ->
  tileMatrixSet c = id ->
  find_tileMatrixSetURI id (pre ++ c :: post) = Some (tileMatrixSetURI c).
Proof.
  intros Hpre Hc. induction Hpre as [|x pre Hx _ IH];
    cbn [app find_tileMatrixSetURI].
  - rewrite Hc, String.eqb_refl. reflexivity.
  - apply String.eqb_neq in Hx. rewrite Hx. exact IH.
Qed.

(** X20.  of the links of a tileset only the first with the relation
    [item], and of its matrix set links only the first for the requested
    matrix set, are looked at, whatever follows them.  The template of
    the tile URL is the [href] of the one and the second request goes to
    the URI of the other; an empty [href] or an empty URI is an error,
    the second one after the template has been stored. *)
Theorem first_links_are_used (info : TilesInfo) (this : OGCMapTile)
    (pre : list Link) (l : Link) (post : list Link)
    (pre' : list TileMatrixSetLink) (c : TileMatrixSetLink)
    (post' : list TileMatrixSetLink) :
  links info = pre ++ l :: post ->
  Forall (fun x => rel x <> "item") pre ->
  rel l = "item" ->
  tileMatrixSetLinks info = pre' ++ c :: post' ->
  Forall (fun x => tileMatrixSet x <> this_tileMatrixSet this) pre' ->
  tileMatrixSet c = this_tileMatrixSet this ->
  handleTilesInfoResponse info this
  = if String.eqb (href l) EmptyString then
      handleError "could not find item link" this
    else if String.eqb (tileMatrixSetURI c) EmptyString then
      handleError ("could not find tileMatrixSet: " +:+ this_tileMatrixSet this)
        (set_tileUrlTemplate (href l) this)
    else
      send (get_json (tileMatrixSetURI c)) (set_tileUrlTemplate (href l) this).
Proof.
  intros Hlinks Hpre Hl Hsets Hpre' Hc. unfold handleTilesInfoResponse.
  rewrite Hlinks, (find_item_first _ _ _ Hpre Hl). cbn [falsy default].
  destruct (String.eqb (href l) EmptyString); [reflexivity|].
  cbn [this_tileMatrixSet set_tileUrlTemplate].
  rewrite Hsets, (find_tileMatrixSetURI_first _ _ _ _ Hpre' Hc).
  cbn [falsy default].
  destruct (String.eqb (tileMatrixSetURI c) EmptyString); reflexivity.
Qed.


(** *** From the constructor to the tile URLs *)

Section Flow.

Variable getProjection : string -> option Projection.




End Flow.

(** *** Templates *)

(** Without a closing brace no match ends: the text is copied, the
    characters of an open match included. *)
Lemma replace_from_no_close (f : string -> string) (s : string) :
  no_close s = true ->
  forall pending,
    replace_from f pending s
    = match pending with
      | None => s
      | Some p => "{" +:+ p +:+ s
      end.
Proof.
  induction s as [|c s IH]; intros Hs pending.
  - destruct pending as [p|]; [|reflexivity].
    cbn [replace_from]. rewrite append_empty. reflexivity.
  - cbn [no_close] in Hs. apply andb_true_iff in Hs as [Hc Hs].
    apply negb_true_iff in Hc. cbn [replace_from].
    destruct pending as [p|].
    + destruct (is_word_char c).
      * rewrite (IH Hs). rewrite append_assoc. reflexivity.
      * rewrite Hc. cbn [andb].
        destruct (is_char c "{") eqn:Hopen; rewrite (IH Hs); [|reflexivity].
        unfold is_char in Hopen. apply String.eqb_eq in Hopen.
        injection Hopen as ->. reflexivity.
    + destruct (is_char c "{") eqn:Hopen; rewrite (IH Hs); [|reflexivity].
      unfold is_char in Hopen. apply String.eqb_eq in Hopen.
      injection Hopen as ->. reflexivity.
Qed.

(** X25.  a template in which no brace opens, or none closes, has no
    placeholder: the replacement returns it unchanged, whatever the
    values are, and it is the URL of every tile of the grid. *)
Theorem template_without_placeholder (f : string -> string) (template : string)
    (cl : UrlClosure) (tileCoord : TileCoord) (matrix : TileMatrix) :
  no_brace template = true \/ no_close template = true ->
  replace_placeholders f template = template /\
  (c_tileUrlTemplate cl = Some template ->
   matrix_at (c_matrices cl) tileCoord.1.1 = Some matrix ->
   tile_url cl (Some tileCoord) = Url template).
Proof.
  intros Hplain.
  assert (Hsame : forall g, replace_placeholders g template = template).
  { intros g. unfold replace_placeholders. destruct Hplain as [Hopen|Hclose].
    - pose proof (replace_from_plain g template EmptyString Hopen) as H.
      rewrite append_empty in H. rewrite H. cbn [replace_from].
      apply append_empty.
    - exact (replace_from_no_close g template Hclose None). }
  split; [apply Hsame|].
  intros Htemplate Hmatrix. unfold tile_url. rewrite Hmatrix, Htemplate, Hsame.
  reflexivity.
Qed.

Lemma render_ext (f g : string -> string) (segments : list Segment) :
  (forall k, f k = g k) -> render f segments = render g segments.
Proof.
  intros Hfg. induction segments as [|[t|k] segments IH]; cbn [render];
    rewrite ?IH, ?Hfg; reflexivity.
Qed.

(** The values of the object literal. *)
Lemma computed_property (id : string) (matrix : TileMatrix) (tileCoord : TileCoord)
    (k : string) :
  to_string (property (localContext_of id matrix tileCoord) k)
  = computed_value id matrix tileCoord k.
Proof.
  unfold property, localContext_of, computed_value.
  destruct (String.eqb_spec k "tileMatrixSetId") as [->|H1]; [reflexivity|].
  destruct (String.eqb_spec k "tileMatrix") as [->|H2]; [reflexivity|].
  destruct (String.eqb_spec k "tileCol") as [->|H3]; [reflexivity|].
  destruct (String.eqb_spec k "tileRow") as [->|H4]; [reflexivity|].
  rewrite !lookup_insert_ne by congruence. rewrite lookup_empty. reflexivity.
Qed.


(** *** Examples of the resolution *)

Lemma first_links_are_used_witness :
  handleTilesInfoResponse tileset_with_quad loading
  = send (get_json "https://maps.example.org/tileMatrixSets/WebMercatorQuad")
      (set_tileUrlTemplate "{tileMatrixSetId}/{tileMatrix}/{tileCol}/{tileRow}"
         loading).
Proof.
  refine (eq_trans
            (first_links_are_used tileset_with_quad loading
               [{| rel := "self"; href := "https://maps.example.org/tiles";
                   type := "application/json" |}]
               {| rel := "item";
                  href := "{tileMatrixSetId}/{tileMatrix}/{tileCol}/{tileRow}";
                  type := "image/png" |}
               []
               []
               {| tileMatrixSet := "WebMercatorQuad";
                  tileMatrixSetURI :=
                    "https://maps.example.org/tileMatrixSets/WebMercatorQuad" |}
               [] eq_refl _ eq_refl eq_refl _ eq_refl)
            eq_refl).
  - repeat constructor. discriminate.
  - constructor.
Defined.



Lemma template_without_placeholder_witness :
  replace_placeholders (fun _ => "x") "tiles/static.png?b={" = "tiles/static.png?b={" /\
  tile_url
    {| c_tileMatrixSetId := "WebMercatorQuad";
       c_tileUrlTemplate := Some "tiles/static.png?b={";
       c_context := None; c_matrices := tileMatrix quad |}
    (Some (1, 0, 0)%Z)
  = Url "tiles/static.png?b={".
Proof.
  destruct (template_without_placeholder (fun _ => "x") "tiles/static.png?b={"
              {| c_tileMatrixSetId := "WebMercatorQuad";
                 c_tileUrlTemplate := Some "tiles/static.png?b={";
                 c_context := None; c_matrices := tileMatrix quad |}
              (1, 0, 0)%Z (quad_matrix "1" (2795411320143 # 10000))
              (or_intror eq_refl)) as [Hsame Hurl].
  split; [exact Hsame|]. apply Hurl; reflexivity.
Defined.


End ResolverFacts.
